(** * The Alembic procedural of Cycles (intern/cycles/render/alembic.cpp)

    A shallow embedding of the transform-sample interpolation, the sample
    concatenation, the geometry cache builder and the driver of the
    procedural, with the properties of its specification.

    Conventions.
    - [double] values ([chrono_t], the entries of [M44d], [V3d]) are Rocq's
      primitive binary64 floats, with the IEEE comparisons [<?], [<=?], [=?].
      [float] values (the entries of [V3f]) are stored in the same type: the
      code only copies and negates them, and both are exact in any format.
    - [int] values are in [Z]; an operation whose result leaves the [int]
      range, or a read outside an array, is undefined behaviour and makes the
      embedded function return [None]. So does an exception, which nothing
      in the importer catches.
    - [std::map<chrono_t, M44d>] and [std::set<chrono_t>] are lists kept in
      the order of the container, searched the way [lower_bound] does. *)

From Stdlib Require Import ZArith List Bool Lia String.
From Stdlib Require Import Floats.
From ExtLib Require Import Structures.Monad Data.Monads.OptionMonad.
Import ListNotations.
Import MonadNotation.

(** ** IEEE comparisons of doubles *)

Module Double.

Local Open Scope float_scope.

(** The comparison of the IEEE specification; [None] when a NaN is compared. *)
Definition cmp (x y : float) : option comparison :=
  SFcompare (Prim2SF x) (Prim2SF y).

(** [a > b] of the source is [b < a], and [a >= b] is [b <= a]. *)
Definition gtb (a b : float) : bool := b <? a.
Definition geb (a b : float) : bool := b <=? a.

End Double.

(** ** Vectors and matrices *)

Local Open Scope float_scope.

(** [Abc::chrono_t] is [double]. *)
Abbreviation chrono_t := float (only parsing).

(** [Imath::Vec3<T>] and Cycles' [float3]: three scalars. *)
Record Vec3 : Type := make_float3 { x : float; y : float; z : float }.

Abbreviation V3d := Vec3 (only parsing).
Abbreviation V3f := Vec3 (only parsing).
Abbreviation float3 := Vec3 (only parsing).

Record Vec4 : Type := make_float4 { c0 : float; c1 : float; c2 : float; c3 : float }.

(** [Imath::M44d]: the rows [x[0]] .. [x[3]] of a 4x4 matrix of doubles. *)
Record M44d : Type := mkM44d { r0 : Vec4; r1 : Vec4; r2 : Vec4; r3 : Vec4 }.

Definition Vec4_get (v : Vec4) (j : nat) : float :=
  match j with O => c0 v | 1%nat => c1 v | 2%nat => c2 v | _ => c3 v end.

(** [m[i][j]] *)
Definition M44d_get (m : M44d) (i j : nat) : float :=
  Vec4_get (match i with O => r0 m | 1%nat => r1 m | 2%nat => r2 m | _ => r3 m end) j.

(** [M44d()]: the default constructor builds the identity. *)
Definition M44d_identity : M44d :=
  mkM44d (make_float4 1 0 0 0) (make_float4 0 1 0 0)
         (make_float4 0 0 1 0) (make_float4 0 0 0 1).

(** [M44d(T a)]: the converting constructor fills the sixteen entries with [a]. *)
Definition M44d_fill (a : float) : M44d :=
  let r := make_float4 a a a a in mkM44d r r r r.

Definition Vec4_neq (a b : Vec4) : bool :=
  negb (c0 a =? c0 b) || negb (c1 a =? c1 b) ||
  negb (c2 a =? c2 b) || negb (c3 a =? c3 b).

(** [a != b] on matrices: some pair of entries differs, compared as doubles. *)
Definition M44d_neq (a b : M44d) : bool :=
  Vec4_neq (r0 a) (r0 b) || Vec4_neq (r1 a) (r1 b) ||
  Vec4_neq (r2 a) (r2 b) || Vec4_neq (r3 a) (r3 b).

(** [static_cast<float>(d)]: the double rounded to the nearest binary32 value
    (ties to even), kept in the carrier of doubles. *)
Definition static_cast_float (d : float) : float :=
  match Prim2SF d with
  | S754_finite s m e => SF2Prim (binary_round 24 128 s m e)
  | _ => d
  end.

(** Cycles' [Transform]: the rows [x], [y], [z] of a 3x4 matrix of floats. *)
Record Transform : Type := mkTransform { tx : Vec4; ty : Vec4; tz : Vec4 }.

(** The routines of the Imath library the importer calls. Their numerics
    (square roots, trigonometry, rounding) are outside this development: they
    are the operations of an interface, and every statement below holds for
    each implementation of it. A routine that writes through reference
    parameters returns the written values. *)
Class Imath : Type := {
  Quatd : Type;
  (** [extractSHRT(mtx, s, h, r, t)]: scale, shear, Euler rotation,
      translation. The call leaves the last parameter at its default,
      [exc = true]: on a matrix with a scale of zero the routine throws
      [ZeroScaleExc], which is [None]. *)
  extractSHRT : M44d -> option (V3d * V3d * V3d * V3d);
  (** [extractAndRemoveScalingAndShear(mat, scl, shr)]: the matrix left,
      scale, shear, as the routine writes them when it returns. *)
  extractAndRemoveScalingAndShear : M44d -> M44d * V3d * V3d;
  extractQuat : M44d -> Quatd;
  setEulerAngles : V3d -> M44d;
  setScale : V3d -> M44d;
  setShear : V3d -> M44d;
  setTranslation : V3d -> M44d;
  toMatrix44 : Quatd -> M44d;
  (** [a * b] on matrices *)
  M44d_mul : M44d -> M44d -> M44d;
  lerp : V3d -> V3d -> chrono_t -> V3d;
  slerp : Quatd -> Quatd -> chrono_t -> Quatd;
  (** [q1 ^ q2]: the dot product of two quaternions *)
  Quatd_dot : Quatd -> Quatd -> float;
  (** [-q] *)
  Quatd_neg : Quatd -> Quatd
}.

(** ** Up-axis conversion and transform (de)composition *)

Definition make_float3_from_yup (v : V3f) : float3 :=
  make_float3 (x v) (- z v) (y v).

Section Transforms.
Context {imath : Imath}.

(** The exception of [extractSHRT] is not caught: it leaves the function,
    and every caller in turn. *)
Definition convert_yup_zup (mtx : M44d) : option M44d :=
  match extractSHRT mtx with
  | None => None
  | Some (scale, shear, rotation, translation) =>
      let rot_mat :=
        setEulerAngles (make_float3 (x rotation) (- z rotation) (y rotation)) in
      let scale_mat := setScale (make_float3 (x scale) (z scale) (y scale)) in
      let trans_mat :=
        setTranslation (make_float3 (x translation) (- z translation) (y translation)) in
      Some (M44d_mul (M44d_mul scale_mat rot_mat) trans_mat)
  end.

(** Returns [(scale, shear, rotation, translation)]. *)
Definition transform_decompose (mat : M44d) : V3d * V3d * Quatd * V3d :=
  let '(mat_remainder, scale, shear) := extractAndRemoveScalingAndShear mat in
  let translation :=
    make_float3 (M44d_get mat_remainder 3 0) (M44d_get mat_remainder 3 1)
                (M44d_get mat_remainder 3 2) in
  let rotation := extractQuat mat_remainder in
  (scale, shear, rotation, translation).

Definition transform_compose (scale shear : V3d) (rotation : Quatd)
    (translation : V3d) : M44d :=
  let scale_mat := setScale scale in
  let shear_mat := setShear shear in
  let rot_mat := toMatrix44 rotation in
  let trans_mat := setTranslation translation in
  M44d_mul (M44d_mul (M44d_mul scale_mat shear_mat) rot_mat) trans_mat.

(** [trans[j][i] = static_cast<float>(m[i][j])] for [j < 3], [i < 4]. *)
Definition make_transform (a : M44d) : option Transform :=
  match convert_yup_zup a with
  | None => None
  | Some m =>
      let row j :=
        make_float4 (static_cast_float (M44d_get m 0 j)) (static_cast_float (M44d_get m 1 j))
                    (static_cast_float (M44d_get m 2 j)) (static_cast_float (M44d_get m 3 j)) in
      Some (mkTransform (row 0%nat) (row 1%nat) (row 2%nat))
  end.

End Transforms.

(** ** [MatrixSampleMap]: [std::map<chrono_t, M44d>] *)

(** The entries in iteration order. A map the code can build has its keys
    strictly increasing ([sorted]). *)
Definition MatrixSampleMap := list (chrono_t * M44d).

Module SampleMap.

Fixpoint sorted (m : MatrixSampleMap) : bool :=
  match m with
  | (k1, _) :: (((k2, _) :: _) as m') => (k1 <? k2) && sorted m'
  | _ => true
  end.

(** [lower_bound(k)]: the entries from the first one whose key is not less
    than [k]. *)
Fixpoint lower_bound (m : MatrixSampleMap) (k : chrono_t) : MatrixSampleMap :=
  match m with
  | [] => []
  | e :: m' => if fst e <? k then lower_bound m' k else m
  end.

(** [find(k)]: the entry at the lower bound unless [k] is less than its key;
    [None] is [end()]. *)
Definition find (m : MatrixSampleMap) (k : chrono_t) : option (chrono_t * M44d) :=
  match lower_bound m k with
  | [] => None
  | e :: _ => if k <? fst e then None else Some e
  end.

(** [m[k] = v] *)
Fixpoint assign (m : MatrixSampleMap) (k : chrono_t) (v : M44d) : MatrixSampleMap :=
  match m with
  | [] => [(k, v)]
  | e :: m' =>
      if fst e <? k then e :: assign m' k v
      else if k <? fst e then (k, v) :: m
      else (fst e, v) :: m'
  end.

End SampleMap.

(** [std::set<chrono_t>], with [insert]. *)
Module TimeSet.

Fixpoint sorted (s : list chrono_t) : bool :=
  match s with
  | k1 :: ((k2 :: _) as s') => (k1 <? k2) && sorted s'
  | _ => true
  end.

Fixpoint insert (s : list chrono_t) (k : chrono_t) : list chrono_t :=
  match s with
  | [] => [k]
  | k' :: s' =>
      if k' <? k then k' :: insert s' k
      else if k <? k' then k :: s
      else s
  end.

(** [for (auto &pair : m) s.insert(pair.first)] *)
Definition insert_all {A : Type} (key : A -> chrono_t) (m : list A) (s : list chrono_t)
    : list chrono_t :=
  fold_left (fun s pair => insert s (key pair)) m s.

End TimeSet.

(** ** Sample lookup and interpolation *)

Section Interpolation.
Context {imath : Imath}.

Definition get_matrix_for_time (samples : MatrixSampleMap) (time : chrono_t) : M44d :=
  match SampleMap.find samples time with
  | Some iter => snd iter
  | None => M44d_identity
  end.

(** The loop that looks for the previous and the next sample time, from
    [prev_time = begin()->first] and [next_time = rbegin()->first]. *)
Definition bracket_step (time : chrono_t) (acc : chrono_t * chrono_t)
    (I : chrono_t * M44d) : chrono_t * chrono_t :=
  let '(prev_time, next_time) := acc in
  let current_time := fst I in
  let prev_time :=
    if Double.gtb current_time prev_time && (current_time <=? time)
    then current_time else prev_time in
  let next_time :=
    if Double.gtb current_time next_time && Double.geb current_time time
    then current_time else next_time in
  (prev_time, next_time).

Definition find_bracket (samples : MatrixSampleMap) (time : chrono_t)
    (first last : chrono_t * M44d) : chrono_t * chrono_t :=
  fold_left (bracket_step time) samples (fst first, fst last).

(** The blend of the samples at [prev_time] and [next_time]. *)
Definition interpolate_between (samples : MatrixSampleMap)
    (prev_time next_time time : chrono_t) : M44d :=
  let prev_mat := get_matrix_for_time samples prev_time in
  let next_mat := get_matrix_for_time samples next_time in
  let '(prev_scale, prev_shear, prev_rotation, prev_translation) :=
    transform_decompose prev_mat in
  let '(next_scale, next_shear, next_rotation, next_translation) :=
    transform_decompose next_mat in
  let t := (time - prev_time) / (next_time - prev_time) in
  let next_rotation :=
    if Quatd_dot prev_rotation next_rotation <? 0
    then Quatd_neg next_rotation else next_rotation in
  transform_compose (lerp prev_scale next_scale t)
                    (lerp prev_shear next_shear t)
                    (slerp prev_rotation next_rotation t)
                    (lerp prev_translation next_translation t).

Definition get_interpolated_matrix_for_time (samples : MatrixSampleMap)
    (time : chrono_t) : M44d :=
  match samples with
  | [] => M44d_identity
  | first :: _ =>
      let last := List.last samples first in
      match SampleMap.find samples time with
      | Some iter => snd iter
      | None =>
          if Nat.eqb (List.length samples) 1 then snd first
          else if time <=? fst first then snd first
          else if Double.geb time (fst last) then snd last
          else
            let '(prev_time, next_time) := find_bracket samples time first last in
            interpolate_between samples prev_time next_time time
      end
  end.

(** [output_samples] is passed by reference: the entries it holds on entry
    stay unless a unified time overwrites them. *)
Definition concatenate_xform_samples (parent_samples local_samples : MatrixSampleMap)
    (output_samples : MatrixSampleMap) : MatrixSampleMap :=
  let union_of_samples := TimeSet.insert_all fst parent_samples [] in
  let union_of_samples := TimeSet.insert_all fst local_samples union_of_samples in
  fold_left
    (fun out time =>
       let parent_matrix := get_interpolated_matrix_for_time parent_samples time in
       let local_matrix := get_interpolated_matrix_for_time local_samples time in
       SampleMap.assign out time (M44d_mul local_matrix parent_matrix))
    union_of_samples output_samples.

End Interpolation.

(** ** The specification's notions on sample sets *)

Module Spec.

(** The entry at the minimum (maximum) key of a sample set. *)
Definition is_min_entry (samples : MatrixSampleMap) (e : chrono_t * M44d) : Prop :=
  In e samples /\ forall e', In e' samples -> (fst e <=? fst e') = true.

Definition is_max_entry (samples : MatrixSampleMap) (e : chrono_t * M44d) : Prop :=
  In e samples /\ forall e', In e' samples -> (fst e' <=? fst e) = true.

(** The tightest bracketing pair of the specification: the largest sample
    time [<= time] and the smallest sample time [>= time]. *)
Definition largest_le (samples : MatrixSampleMap) (time : chrono_t) : option chrono_t :=
  fold_left
    (fun best e =>
       if fst e <=? time then
         match best with
         | Some b => if b <? fst e then Some (fst e) else best
         | None => Some (fst e)
         end
       else best)
    samples None.

Definition smallest_ge (samples : MatrixSampleMap) (time : chrono_t) : option chrono_t :=
  fold_left
    (fun best e =>
       if time <=? fst e then
         match best with
         | Some b => if fst e <? b then Some (fst e) else best
         | None => Some (fst e)
         end
       else best)
    samples None.

Definition tightest_bracket (samples : MatrixSampleMap) (time : chrono_t)
    : option chrono_t * option chrono_t :=
  (largest_le samples time, smallest_ge samples time).

End Spec.

(** ** [int] arithmetic and arrays *)

Local Open Scope monad_scope.

Definition INT_MIN : Z := -2147483648.
Definition INT_MAX : Z := 2147483647.

Definition in_int (v : Z) : bool := ((INT_MIN <=? v) && (v <=? INT_MAX))%Z.

(** [a + b] and [a - b] on [int]: undefined when the result overflows. *)
Definition int_add (a b : Z) : option Z :=
  if in_int (a + b) then Some (a + b)%Z else None.

Definition int_sub (a b : Z) : option Z :=
  if in_int (a - b) then Some (a - b)%Z else None.

(** [a[i]]: undefined outside the array. *)
Definition array_get {A : Type} (a : list A) (i : Z) : option A :=
  if (i <? 0)%Z then None else nth_error a (Z.to_nat i).

Definition SIZE_MAX : Z := 2 ^ 64 - 1.
Definition PTRDIFF_MAX : Z := 2 ^ 63 - 1.

(** Cycles' [array<T>] (util/util_array.h) is the list of its elements, and
    the room reserved for it is kept beside the list where the code reserves
    less than it may push.

    [reserve(n)] on an empty array allocates the room of [n] elements at
    once, [sizeof(T) * n] bytes, a product of [size_t], and throws
    [std::bad_alloc] when the allocator returns no block. How much memory
    the machine has is not modelled: a request is granted unless it asks for
    more than [PTRDIFF_MAX] bytes, which no allocator grants. The result is
    the number of elements that the block holds, [None] when the call
    throws. *)
Definition reserve (sizeof_T n : Z) : option Z :=
  let bytes := ((sizeof_T * n) mod (SIZE_MAX + 1))%Z in
  if (bytes <=? PTRDIFF_MAX)%Z then Some (bytes / sizeof_T)%Z else None.

(** [push_back_reserved] appends without a look at the room (its test is an
    [assert]): a push past the room writes outside the block, which is
    undefined. *)
Definition push_back_reserved {A : Type} (a : list A) (t : A) : list A := a ++ [t].

(** Whether the pushes that built [a] stayed in a room of [room] elements.
    The elements are only appended, so that a loop has pushed past the room
    exactly when it ends with more elements than the room: the test is made
    once, after the loop. *)
Definition in_room {A : Type} (room : Z) (a : list A) : bool :=
  (Z.of_nat (List.length a) <=? room)%Z.

Record int3 : Type := make_int3 { ix : Z; iy : Z; iz : Z }.

(** [sizeof(int3)]: four [int], the last one a padding for the alignment
    (util/util_types_int3.h). *)
Definition sizeof_int3 : Z := 16.

(** ** The geometry cache *)

(** [Alembic::AbcCoreAbstract::TimeSampling], as far as it is read: the time
    of each sample index. *)
Record TimeSampling : Type := mkTimeSampling { getSampleTime : nat -> chrono_t }.

(** Modelled from the spec: [DataStore<T>] of render/alembic.h, the
    time-sampled property store. [add_data] appends a sample under its time,
    the time sampling is kept beside the samples, [clear] empties the
    samples. *)
Record DataStore (T : Type) : Type := mkDataStore {
  data : list (chrono_t * T);
  time_sampling : TimeSampling
}.
Arguments mkDataStore {T} _ _.
Arguments data {T} _.
Arguments time_sampling {T} _.

Definition add_data {T : Type} (s : DataStore T) (d : T) (time : chrono_t) : DataStore T :=
  mkDataStore (data s ++ [(time, d)]) (time_sampling s).

Definition set_time_sampling {T : Type} (s : DataStore T) (ts : TimeSampling) : DataStore T :=
  mkDataStore (data s) ts.

Definition size {T : Type} (s : DataStore T) : nat := List.length (data s).

Definition DataStore_clear {T : Type} (s : DataStore T) : DataStore T :=
  mkDataStore [] (time_sampling s).

Inductive AttributeStandard : Type :=
  ATTR_STD_NONE | ATTR_STD_UV | ATTR_STD_VERTEX_NORMAL | ATTR_STD_FACE_NORMAL | ATTR_STD_GENERATED.

Inductive AttributeElement : Type :=
  ATTR_ELEMENT_NONE | ATTR_ELEMENT_CORNER | ATTR_ELEMENT_CORNER_BYTE.

Inductive TypeDesc : Type := TypeUnknown | TypeFloat2 | TypeRGBA.

Record float2 : Type := make_float2 { u : float; v : float }.

(** Cycles' [uchar4]: four bytes. *)
Record uchar4 : Type :=
  make_uchar4 { bx : Byte.byte; by' : Byte.byte; bz : Byte.byte; bw : Byte.byte }.

(** The byte buffer of an attribute sample ([array<char>]), by the type its
    bytes are written as. *)
Inductive AttributeBuffer : Type :=
  | Float2Buffer (l : list float2)
  | UChar4Buffer (l : list uchar4).

(** Modelled from the spec: [CachedAttribute] and [CachedData] of
    render/alembic.h. An attribute has a name, a standard tag, an element
    domain, a type descriptor and its time-sampled buffers; the cache holds one
    store per channel and the attributes, an attribute being created the first
    time its name is referenced ([add_attribute]). *)
Record CachedAttribute : Type := mkCachedAttribute {
  attr_name : string;
  attr_std : AttributeStandard;
  attr_element : AttributeElement;
  attr_type_desc : TypeDesc;
  attr_data : DataStore AttributeBuffer
}.

Record CachedData : Type := mkCachedData {
  vertices : DataStore (list float3);
  triangles : DataStore (list int3);
  triangles_loops : DataStore (list int3);
  transforms : DataStore Transform;
  curve_keys : DataStore (list float3);
  curve_radius : DataStore (list float);
  curve_first_key : DataStore (list Z);
  curve_shader : DataStore (list Z);
  attributes : list CachedAttribute
}.

Definition set_vertices (c : CachedData) (s : DataStore (list float3)) : CachedData :=
  mkCachedData s (triangles c) (triangles_loops c) (transforms c) (curve_keys c)
               (curve_radius c) (curve_first_key c) (curve_shader c) (attributes c).

Definition set_triangles (c : CachedData) (s : DataStore (list int3)) : CachedData :=
  mkCachedData (vertices c) s (triangles_loops c) (transforms c) (curve_keys c)
               (curve_radius c) (curve_first_key c) (curve_shader c) (attributes c).

Definition set_triangles_loops (c : CachedData) (s : DataStore (list int3)) : CachedData :=
  mkCachedData (vertices c) (triangles c) s (transforms c) (curve_keys c)
               (curve_radius c) (curve_first_key c) (curve_shader c) (attributes c).

Definition set_transforms (c : CachedData) (s : DataStore Transform) : CachedData :=
  mkCachedData (vertices c) (triangles c) (triangles_loops c) s (curve_keys c)
               (curve_radius c) (curve_first_key c) (curve_shader c) (attributes c).

Definition set_curve_keys (c : CachedData) (s : DataStore (list float3)) : CachedData :=
  mkCachedData (vertices c) (triangles c) (triangles_loops c) (transforms c) s
               (curve_radius c) (curve_first_key c) (curve_shader c) (attributes c).

Definition set_curve_radius (c : CachedData) (s : DataStore (list float)) : CachedData :=
  mkCachedData (vertices c) (triangles c) (triangles_loops c) (transforms c) (curve_keys c)
               s (curve_first_key c) (curve_shader c) (attributes c).

Definition set_curve_first_key (c : CachedData) (s : DataStore (list Z)) : CachedData :=
  mkCachedData (vertices c) (triangles c) (triangles_loops c) (transforms c) (curve_keys c)
               (curve_radius c) s (curve_shader c) (attributes c).

Definition set_curve_shader (c : CachedData) (s : DataStore (list Z)) : CachedData :=
  mkCachedData (vertices c) (triangles c) (triangles_loops c) (transforms c) (curve_keys c)
               (curve_radius c) (curve_first_key c) s (attributes c).

Definition set_attributes (c : CachedData) (l : list CachedAttribute) : CachedData :=
  mkCachedData (vertices c) (triangles c) (triangles_loops c) (transforms c) (curve_keys c)
               (curve_radius c) (curve_first_key c) (curve_shader c) l.

(** A cache with no sample in any channel. *)
Definition CachedData_empty (ts : TimeSampling) : CachedData :=
  mkCachedData (mkDataStore [] ts) (mkDataStore [] ts) (mkDataStore [] ts)
               (mkDataStore [] ts) (mkDataStore [] ts) (mkDataStore [] ts)
               (mkDataStore [] ts) (mkDataStore [] ts) [].

(** [cached_data.clear()] *)
Definition CachedData_clear (c : CachedData) : CachedData :=
  mkCachedData (DataStore_clear (vertices c)) (DataStore_clear (triangles c))
               (DataStore_clear (triangles_loops c)) (DataStore_clear (transforms c))
               (DataStore_clear (curve_keys c)) (DataStore_clear (curve_radius c))
               (DataStore_clear (curve_first_key c)) (DataStore_clear (curve_shader c)) [].

(** ** The mesh path: positions and fan triangulation *)

Definition add_positions (positions : option (list V3f)) (time : chrono_t)
    (cached_data : CachedData) : CachedData :=
  match positions with
  | None => cached_data
  | Some positions =>
      let new_vertices :=
        fold_left (fun vertices f => push_back_reserved vertices (make_float3_from_yup f))
                  positions [] in
      set_vertices cached_data (add_data (vertices cached_data) new_vertices time)
  end.

(** [num_triangles += face_counts_array[i] - 2]: the difference is an [int],
    the sum a [size_t]. *)
Fixpoint count_triangles (face_counts : list Z) (num_triangles : Z) : option Z :=
  match face_counts with
  | [] => ret num_triangles
  | c :: rest =>
      d <- int_sub c 2 ;;
      count_triangles rest ((num_triangles + d) mod 2 ^ 64)%Z
  end.

(** [for (int j = 0; j < face_counts_array[i] - 2; j++)], [iters] rounds
    from [j]. *)
Fixpoint fan_loop (iters : nat) (j : Z) (face_indices_array : list Z) (index_offset : Z)
    (acc : list int3 * list int3) : option (list int3 * list int3) :=
  match iters with
  | O => ret acc
  | S iters' =>
      let '(triangles, triangles_loops) := acc in
      v0 <- array_get face_indices_array index_offset ;;
      l1 <- int_add index_offset j ;;
      l1 <- int_add l1 1 ;;
      v1 <- array_get face_indices_array l1 ;;
      l2 <- int_add index_offset j ;;
      l2 <- int_add l2 2 ;;
      v2 <- array_get face_indices_array l2 ;;
      let triangles := push_back_reserved triangles (make_int3 v0 v1 v2) in
      let triangles_loops :=
        push_back_reserved triangles_loops (make_int3 index_offset l1 l2) in
      j' <- int_add j 1 ;;
      fan_loop iters' j' face_indices_array index_offset (triangles, triangles_loops)
  end.

(** [for (size_t i = 0; i < num_faces; i++)] *)
Fixpoint faces_loop (face_counts_array : list Z) (face_indices_array : list Z)
    (index_offset : Z) (acc : list int3 * list int3) : option (list int3 * list int3) :=
  match face_counts_array with
  | [] => ret acc
  | c :: rest =>
      n <- int_sub c 2 ;;
      acc <- fan_loop (Z.to_nat n) 0 face_indices_array index_offset acc ;;
      index_offset <- int_add index_offset c ;;
      faces_loop rest face_indices_array index_offset acc
  end.

(** The room of the two arrays is the sum [num_triangles], which a face of
    fewer than two corners makes wrap; the loop pushes one triangle for each
    round of a fan, whatever the room. *)
Definition add_triangles (face_counts face_indices : option (list Z)) (time : chrono_t)
    (cached_data : CachedData) : option CachedData :=
  match face_counts, face_indices with
  | Some face_counts, Some face_indices =>
      num_triangles <- count_triangles face_counts 0 ;;
      triangles_room <- reserve sizeof_int3 num_triangles ;;
      triangles_loops_room <- reserve sizeof_int3 num_triangles ;;
      '(new_triangles, new_triangles_loops) <-
        faces_loop face_counts face_indices 0 ([], []) ;;
      if in_room triangles_room new_triangles &&
         in_room triangles_loops_room new_triangles_loops
      then
        let cached_data :=
          set_triangles cached_data (add_data (triangles cached_data) new_triangles time) in
        ret (set_triangles_loops cached_data
               (add_data (triangles_loops cached_data) new_triangles_loops time))
      else None
  | _, _ => ret cached_data
  end.

(** ** The curve path: one sample *)

(** [0.01f] *)
Definition placeholder_radius : float := 0x1.47ae14p-7.

(** [for (int j = 0; j < num_vertices; j++)], [iters] rounds from [j]. *)
Fixpoint keys_loop (iters : nat) (j : Z) (position : list V3f) (offset : Z)
    (acc : list float3 * list float) : option (list float3 * list float) :=
  match iters with
  | O => ret acc
  | S iters' =>
      let '(curve_keys, curve_radius) := acc in
      i <- int_add offset j ;;
      f <- array_get position i ;;
      let curve_keys := push_back_reserved curve_keys (make_float3_from_yup f) in
      let curve_radius := push_back_reserved curve_radius placeholder_radius in
      j' <- int_add j 1 ;;
      keys_loop iters' j' position offset (curve_keys, curve_radius)
  end.

Record CurveArrays : Type := mkCurveArrays {
  keys : list float3;
  radius : list float;
  first_key : list Z;
  shader : list Z
}.

(** [for (size_t i = 0; i < curves_num_vertices->size(); i++)] *)
Fixpoint curves_loop (curves_num_vertices : list Z) (position : list V3f) (offset : Z)
    (acc : CurveArrays) : option CurveArrays :=
  match curves_num_vertices with
  | [] => ret acc
  | num_vertices :: rest =>
      '(curve_keys, curve_radius) <-
        keys_loop (Z.to_nat num_vertices) 0 position offset (keys acc, radius acc) ;;
      let curve_first_key := push_back_reserved (first_key acc) offset in
      let curve_shader := push_back_reserved (shader acc) 0%Z in
      offset <- int_add offset num_vertices ;;
      curves_loop rest position offset
                  (mkCurveArrays curve_keys curve_radius curve_first_key curve_shader)
  end.

(** The arrays built from one curve sample; a null array pointer is
    dereferenced without a test. The keys and the radii have the room of as
    many elements as there are positions, the first keys and the shaders
    that of as many as there are curves: the room of an array at hand, which
    is granted. *)
Definition curve_arrays (curves_num_vertices : option (list Z))
    (position : option (list V3f)) : option CurveArrays :=
  position <- position ;;
  curves_num_vertices <- curves_num_vertices ;;
  let keys_room := Z.of_nat (List.length position) in
  let curves_room := Z.of_nat (List.length curves_num_vertices) in
  a <- curves_loop curves_num_vertices position 0 (mkCurveArrays [] [] [] []) ;;
  if in_room keys_room (keys a) && in_room keys_room (radius a) &&
     in_room curves_room (first_key a) && in_room curves_room (shader a)
  then ret a
  else None.

Definition add_curve_arrays (a : CurveArrays) (time : chrono_t)
    (cached_data : CachedData) : CachedData :=
  let cached_data :=
    set_curve_keys cached_data (add_data (curve_keys cached_data) (keys a) time) in
  let cached_data :=
    set_curve_radius cached_data (add_data (curve_radius cached_data) (radius a) time) in
  let cached_data :=
    set_curve_first_key cached_data
      (add_data (curve_first_key cached_data) (first_key a) time) in
  set_curve_shader cached_data (add_data (curve_shader cached_data) (shader a) time).

(** ** The specification's fan triangulation *)

Module FanSpec.

(** The vertex list of a polygon of [n] corners whose first corner is the
    corner [offset] of the flattened face list. *)
Definition polygon (face_indices : list Z) (offset n : nat) : list Z :=
  firstn n (skipn offset face_indices).

(** Triangle [k] of a polygon: its first vertex, vertex [k+1], vertex [k+2]. *)
Definition triangle (poly : list Z) (k : nat) : int3 :=
  make_int3 (nth 0 poly 0%Z) (nth (k + 1) poly 0%Z) (nth (k + 2) poly 0%Z).

(** A polygon of [N] vertices gives the triangles [0 .. N-3]. *)
Definition fan (poly : list Z) : list int3 :=
  map (triangle poly) (seq 0 (List.length poly - 2)).

(** Triangle [k] of the polygon that starts at [offset], read in the
    flattened face list. *)
Definition triangle_at (face_indices : list Z) (offset k : nat) : int3 :=
  make_int3 (nth offset face_indices 0%Z) (nth (offset + k + 1) face_indices 0%Z)
            (nth (offset + k + 2) face_indices 0%Z).

(** The flattened corner (loop) indices of triangle [k] of the polygon that
    starts at [offset]. *)
Definition loop_triple (offset k : nat) : int3 :=
  make_int3 (Z.of_nat offset) (Z.of_nat (offset + k + 1)) (Z.of_nat (offset + k + 2)).

Definition loop_fan (offset n : nat) : list int3 :=
  map (loop_triple offset) (seq 0 (n - 2)).

(** The vertices at the three corners of a loop triple. *)
Definition corners (face_indices : list Z) (l : int3) : int3 :=
  make_int3 (nth (Z.to_nat (ix l)) face_indices 0%Z)
            (nth (Z.to_nat (iy l)) face_indices 0%Z)
            (nth (Z.to_nat (iz l)) face_indices 0%Z).

Fixpoint triangulation (face_counts : list nat) (face_indices : list Z) (offset : nat)
    : list int3 :=
  match face_counts with
  | [] => []
  | n :: rest =>
      fan (polygon face_indices offset n) ++ triangulation rest face_indices (offset + n)
  end.

Fixpoint loops (face_counts : list nat) (offset : nat) : list int3 :=
  match face_counts with
  | [] => []
  | n :: rest => loop_fan offset n ++ loops rest (offset + n)
  end.

(** A loop triple whose three corners are corners of a face list of [len]
    corners. *)
Definition in_range (len : nat) (l : int3) : Prop :=
  (0 <= ix l < Z.of_nat len /\ 0 <= iy l < Z.of_nat len /\ 0 <= iz l < Z.of_nat len)%Z.

End FanSpec.

(** ** The specification's walk of the curves *)

Module CurveSpec.

(** The running offset of curve [i]: the sum of the vertex counts of the
    curves [0 .. i-1]. *)
Definition running_offset (curves_num_vertices : list Z) (i : nat) : Z :=
  fold_right Z.add 0%Z (firstn i curves_num_vertices).

Definition total (curves_num_vertices : list Z) : Z :=
  fold_right Z.add 0%Z curves_num_vertices.

End CurveSpec.

(** ** The specification's inverse of the up-axis remap *)

Module UpAxisSpec.

(** The remap [(x, y, z) -> (x, z, -y)], which undoes [(x, y, z) -> (x, -z, y)]. *)
Definition make_float3_to_yup (v : float3) : V3f :=
  make_float3 (x v) (z v) (- y v).

End UpAxisSpec.

(** ** The archive reader, as the importer reads it *)

Inductive GeometryScope : Type :=
  | kConstantScope | kUniformScope | kVaryingScope | kVertexScope
  | kFacevaryingScope | kUnknownScope.

Definition GeometryScope_eqb (a b : GeometryScope) : bool :=
  match a, b with
  | kConstantScope, kConstantScope | kUniformScope, kUniformScope
  | kVaryingScope, kVaryingScope | kVertexScope, kVertexScope
  | kFacevaryingScope, kFacevaryingScope | kUnknownScope, kUnknownScope => true
  | _, _ => false
  end.

(** A sample of an indexed 2-float parameter: the values and the indices,
    each a pointer that may be null. *)
Record V2fSample : Type := mkV2fSample {
  getVals : option (list float2);
  getIndices : option (list Z)
}.

(** [sample.valid()] *)
Definition V2fSample_valid (s : V2fSample) : bool :=
  match getVals s, getIndices s with Some _, Some _ => true | _, _ => false end.

(** The three kinds of parameter [read_attribute] tells apart (it tests them
    in this order) and the others: a 2-float parameter flagged as UV, a
    3-float colour, a 4-float colour. Each gives its sample per index. *)
Inductive PropertyData : Type :=
  | PropV2fUV (getIndexed : nat -> V2fSample)
  | PropC3f (getIndexed : nat -> option (list Vec3))
  | PropC4f (getIndexed : nat -> option (list Vec4))
  | PropOther.

Record PropertyHeader : Type := mkPropertyHeader {
  prop_getName : string;
  prop_getScope : GeometryScope;
  prop_getTimeSampling : TimeSampling;
  prop_data : PropertyData
}.

Record IV2fGeomParam : Type := mkIV2fGeomParam {
  uvs_valid : bool;
  uvs_getName : string;
  uvs_getNumSamples : nat;
  uvs_getScope : GeometryScope;
  uvs_getTimeSampling : TimeSampling;
  uvs_getIndexedValue : nat -> V2fSample
}.

Module PolyMesh.

Record Sample : Type := mkSample {
  getPositions : option (list V3f);
  getFaceCounts : option (list Z);
  getFaceIndices : option (list Z)
}.

Record Schema : Type := mkSchema {
  getNumSamples : nat;
  getTimeSampling : TimeSampling;
  getValue : nat -> Sample;
  getArbGeomParams : list PropertyHeader;
  getUVsParam : IV2fGeomParam
}.

End PolyMesh.

Module Curves.

Record Sample : Type := mkSample {
  getCurvesNumVertices : option (list Z);
  getPositions : option (list V3f)
}.

Record Schema : Type := mkSchema {
  getNumSamples : nat;
  getTimeSampling : TimeSampling;
  getValue : nat -> Sample
}.

End Curves.

(** ** The object wrapper *)

(** Modelled from the spec: [Progress] of util/util_progress.h, the shared
    cancellation flag. The flag is set from outside the importer; what a
    routine sees of it is the answer to each of its polls, the first poll
    being poll 0. *)
Record Progress : Type := mkProgress { get_cancel : nat -> bool }.

(** The archive node an object is bound to, by what its header matches. *)
Inductive IObject : Type :=
  | IObject_none
  | IObject_PolyMesh (schema : PolyMesh.Schema)
  | IObject_Curves (schema : Curves.Schema)
  | IObject_other.

(** [AlembicObject], as far as the importer reads and writes it: the archive
    node, the attribute names each shader of its geometry requests, the
    transform samples bound by the hierarchy walk, the cache and the loaded
    flag. *)
Record AlembicObject : Type := mkAlembicObject {
  iobject : IObject;
  shader_requests : list (list string);
  xform_samples : MatrixSampleMap;
  cached_data : CachedData;
  data_loaded : bool
}.

Definition set_cached_data (o : AlembicObject) (c : CachedData) : AlembicObject :=
  mkAlembicObject (iobject o) (shader_requests o) (xform_samples o) c (data_loaded o).

Definition set_data_loaded (o : AlembicObject) (b : bool) : AlembicObject :=
  mkAlembicObject (iobject o) (shader_requests o) (xform_samples o) (cached_data o) b.

Definition has_data_loaded (o : AlembicObject) : bool := data_loaded o.

(** Modelled from the spec: [transform_identity()] of util/util_transform.h,
    the identity transform. *)
Definition transform_identity : Transform :=
  mkTransform (make_float4 1 0 0 0) (make_float4 0 1 0 0) (make_float4 0 0 1 0).

(** [foldM f l b]: a loop over [l] whose body may be undefined, or throw. *)
Fixpoint foldM {A B : Type} (f : B -> A -> option B) (l : list A) (b : B) : option B :=
  match l with
  | [] => ret b
  | a :: l' => b' <- f b a ;; foldM f l' b'
  end.

Section TransformCache.
Context {imath : Imath}.

(** [AlembicObject::setup_transform_cache]. A conversion that throws ends
    the routine: there is no result. *)
Definition setup_transform_cache (o : AlembicObject) : option AlembicObject :=
  let cd := cached_data o in
  new_transforms <-
    match xform_samples o with
    | [] => ret (add_data (transforms cd) transform_identity 0)
    | begin :: _ =>
        let first_matrix := M44d_fill (fst begin) in
        let has_animation :=
          existsb (fun pair => M44d_neq (snd pair) first_matrix) (xform_samples o) in
        if negb has_animation then
          tfm <- make_transform first_matrix ;;
          ret (add_data (transforms cd) tfm 0)
        else
          foldM (fun tr pair =>
                   tfm <- make_transform (snd pair) ;;
                   ret (add_data tr tfm (fst pair)))
                (xform_samples o) (transforms cd)
    end ;;
  ret (set_cached_data o
         (set_transforms cd (set_time_sampling new_transforms (time_sampling (vertices cd))))).

End TransformCache.

(** ** The specification's finalization *)

Module TransformSpec.

(** The samples of a map, each converted to a transform under its time;
    there is no list when a conversion throws. *)
Fixpoint make_transforms {imath : Imath} (samples : MatrixSampleMap)
    : option (list (chrono_t * Transform)) :=
  match samples with
  | [] => ret []
  | sample :: rest =>
      tfm <- make_transform (snd sample) ;;
      l <- make_transforms rest ;;
      ret ((fst sample, tfm) :: l)
  end.

(** The matrix that the samples are compared with: the one filled with the
    time of the first sample. *)
Definition compared_matrix (first : chrono_t * M44d) : M44d := M44d_fill (fst first).

(** Some sample differs from the matrix it is compared with. *)
Definition animated (samples : MatrixSampleMap) : bool :=
  match samples with
  | [] => false
  | first :: _ => existsb (fun pair => M44d_neq (snd pair) (compared_matrix first)) samples
  end.

(** The matrices that the finalization converts: none without samples, the
    compared matrix when no sample differs from it, and else the matrix of
    each sample. *)
Definition converted (samples : MatrixSampleMap) : list M44d :=
  match samples with
  | [] => []
  | first :: _ =>
      if animated samples then map snd samples else [compared_matrix first]
  end.

(** The entries that the finalization adds to the transform channel: the
    identity at time zero without samples, the transform of the compared
    matrix at time zero when no sample differs from it, and else the
    transform of each sample under its time. *)
Definition added_transforms {imath : Imath} (samples : MatrixSampleMap)
    : option (list (chrono_t * Transform)) :=
  match samples with
  | [] => ret [(0%float, transform_identity)]
  | first :: _ =>
      if animated samples then make_transforms samples
      else tfm <- make_transform (compared_matrix first) ;; ret [(0%float, tfm)]
  end.

End TransformSpec.

(** ** Attributes *)

(** The time sampling of a default-constructed store: sample [i] at time [i]. *)
Definition TimeSampling_default : TimeSampling :=
  mkTimeSampling (fun i => SF2Prim (binary_normalize prec emax (Z.of_nat i) 0 false)).

(** [cached_data.add_attribute(name)]: the attribute of that name, created
    at the end of the list when there is none. The code holds a reference to
    it; the embedding updates it by name ([update_attribute]). *)
Definition add_attribute (c : CachedData) (name : string) : CachedData :=
  if existsb (fun a => String.eqb (attr_name a) name) (attributes c) then c
  else
    set_attributes c
      (attributes c ++
         [mkCachedAttribute name ATTR_STD_NONE ATTR_ELEMENT_NONE TypeUnknown
                            (mkDataStore [] TimeSampling_default)]).

Definition update_attribute (c : CachedData) (name : string)
    (f : CachedAttribute -> CachedAttribute) : CachedData :=
  set_attributes c
    (map (fun a => if String.eqb (attr_name a) name then f a else a) (attributes c)).

Definition set_attr_std (s : AttributeStandard) (a : CachedAttribute) : CachedAttribute :=
  mkCachedAttribute (attr_name a) s (attr_element a) (attr_type_desc a) (attr_data a).

Definition set_attr_element (e : AttributeElement) (a : CachedAttribute) : CachedAttribute :=
  mkCachedAttribute (attr_name a) (attr_std a) e (attr_type_desc a) (attr_data a).

Definition set_attr_type_desc (t : TypeDesc) (a : CachedAttribute) : CachedAttribute :=
  mkCachedAttribute (attr_name a) (attr_std a) (attr_element a) t (attr_data a).

Definition set_attr_data (d : DataStore AttributeBuffer) (a : CachedAttribute)
    : CachedAttribute :=
  mkCachedAttribute (attr_name a) (attr_std a) (attr_element a) (attr_type_desc a) d.

(** Modelled from the spec: [AttributeRequestSet::add] of render/attribute.h;
    the requests are deduplicated by name. *)
Definition AttributeRequestSet_add (requests : list string) (name : string) : list string :=
  if existsb (String.eqb name) requests then requests else requests ++ [name].

Definition get_requested_attributes (o : AlembicObject) : list string :=
  fold_left
    (fun requested shader =>
       fold_left
         (fun requested name =>
            if negb (String.eqb name EmptyString) then AttributeRequestSet_add requested name
            else requested)
         shader requested)
    (shader_requests o) [].

(** The helpers of Cycles that the importer calls and whose code is in other
    files: the lookup of a store at a time, and the colour conversions. *)
Class CyclesUtil : Type := {
  data_for_time : forall T : Type, DataStore T -> chrono_t -> option T;
  color_float_to_byte : float3 -> uchar4;
  color_float4_to_uchar4 : Vec4 -> uchar4
}.

Section Attributes.
Context {util : CyclesUtil}.

(** The buffer of a per-corner UV attribute: for each loop triple, the values
    at the indices of its three corners; the two array pointers are
    dereferenced in the loop. The buffer has room for three entries per
    triangle; the triangles and the loop triples of a time come from one call
    of [add_triangles] and are as many, and a buffer written short or past
    its end is not given a value. *)
Definition float2_corners (values : option (list float2)) (indices : option (list Z))
    (triangles triangles_loops : list int3) : option (list float2) :=
  if negb (Nat.eqb (List.length triangles_loops) (List.length triangles)) then None
  else
    foldM
      (fun data loop =>
         indices <- indices ;;
         values <- values ;;
         v0 <- array_get indices (ix loop) ;;
         v1 <- array_get indices (iy loop) ;;
         v2 <- array_get indices (iz loop) ;;
         a <- array_get values v0 ;;
         b <- array_get values v1 ;;
         c <- array_get values v2 ;;
         ret (data ++ [a; b; c]))
      triangles_loops [].

(** The buffer of a per-corner colour attribute: for each triangle, the
    converted values at its three vertices. *)
Definition uchar4_corners {C : Type} (convert : C -> uchar4) (values : option (list C))
    (triangles : list int3) : option (list uchar4) :=
  foldM
    (fun data tri =>
       values <- values ;;
       a <- array_get values (ix tri) ;;
       b <- array_get values (iy tri) ;;
       c <- array_get values (iz tri) ;;
       ret (data ++ [convert a; convert b; convert c]))
    triangles [].

(** The body of the loop of [read_attribute] for one property. *)
Definition read_property (index : nat) (attr_name : string) (cached_data : CachedData)
    (prop : PropertyHeader) : option CachedData :=
  if negb (String.eqb (prop_getName prop) attr_name) then ret cached_data
  else
    let time := getSampleTime (prop_getTimeSampling prop) index in
    match prop_data prop with
    | PropV2fUV getIndexed =>
        let sample := getIndexed index in
        if GeometryScope_eqb (prop_getScope prop) kFacevaryingScope then
          let cached_data :=
            update_attribute cached_data attr_name
              (fun a => set_attr_type_desc TypeFloat2
                          (set_attr_element ATTR_ELEMENT_CORNER
                             (set_attr_std ATTR_STD_NONE a))) in
          match data_for_time _ (triangles cached_data) time,
                data_for_time _ (triangles_loops cached_data) time with
          | Some tris, Some loops =>
              data <- float2_corners (getVals sample) (getIndices sample) tris loops ;;
              ret (update_attribute cached_data attr_name
                     (fun a =>
                        set_attr_data
                          (add_data (set_time_sampling (attr_data a)
                                                       (prop_getTimeSampling prop))
                                    (Float2Buffer data) time) a))
          | _, _ => ret cached_data
          end
        else ret cached_data
    | PropC3f getIndexed =>
        let cached_data :=
          update_attribute cached_data attr_name (set_attr_std ATTR_STD_NONE) in
        if GeometryScope_eqb (prop_getScope prop) kVaryingScope then
          let cached_data :=
            update_attribute cached_data attr_name
              (fun a => set_attr_type_desc TypeRGBA
                          (set_attr_element ATTR_ELEMENT_CORNER_BYTE a)) in
          match data_for_time _ (triangles cached_data) time with
          | Some tris =>
              data <- uchar4_corners color_float_to_byte (getIndexed index) tris ;;
              ret (update_attribute cached_data attr_name
                     (fun a =>
                        set_attr_data
                          (add_data (set_time_sampling (attr_data a)
                                                       (prop_getTimeSampling prop))
                                    (UChar4Buffer data) time) a))
          | None => ret cached_data
          end
        else ret cached_data
    | PropC4f getIndexed =>
        let cached_data :=
          update_attribute cached_data attr_name (set_attr_std ATTR_STD_NONE) in
        if GeometryScope_eqb (prop_getScope prop) kVaryingScope then
          let cached_data :=
            update_attribute cached_data attr_name
              (fun a => set_attr_type_desc TypeRGBA
                          (set_attr_element ATTR_ELEMENT_CORNER_BYTE a)) in
          match data_for_time _ (triangles cached_data) time with
          | Some tris =>
              data <- uchar4_corners color_float4_to_uchar4 (getIndexed index) tris ;;
              ret (update_attribute cached_data attr_name
                     (fun a =>
                        set_attr_data
                          (add_data (set_time_sampling (attr_data a)
                                                       (prop_getTimeSampling prop))
                                    (UChar4Buffer data) time) a))
          | None => ret cached_data
          end
        else ret cached_data
    | PropOther => ret cached_data
    end.

Definition read_attribute (arb_geom_params : list PropertyHeader) (index : nat)
    (attr_name : string) (cached_data : CachedData) : option CachedData :=
  let cached_data := add_attribute cached_data attr_name in
  foldM (read_property index attr_name) arb_geom_params cached_data.

(** The body of the loop of [read_default_uvs] for the sample [i]. *)
Definition read_default_uvs_sample (uvs : IV2fGeomParam) (cached_data : CachedData)
    (i : nat) : option CachedData :=
  let time := getSampleTime (uvs_getTimeSampling uvs) i in
  if GeometryScope_eqb (uvs_getScope uvs) kFacevaryingScope then
    let uvsample := uvs_getIndexedValue uvs i in
    if negb (V2fSample_valid uvsample) then ret cached_data
    else
      match data_for_time _ (triangles cached_data) time,
            data_for_time _ (triangles_loops cached_data) time with
      | Some tris, Some loops =>
          let cached_data :=
            update_attribute cached_data (uvs_getName uvs) (set_attr_std ATTR_STD_UV) in
          data <- float2_corners (getVals uvsample) (getIndices uvsample) tris loops ;;
          ret (update_attribute cached_data (uvs_getName uvs)
                 (fun a => set_attr_data (add_data (attr_data a) (Float2Buffer data) time) a))
      | _, _ => ret cached_data
      end
  else ret cached_data.

Definition read_default_uvs (uvs : IV2fGeomParam) (cached_data : CachedData)
    : option CachedData :=
  let cached_data := add_attribute cached_data (uvs_getName uvs) in
  foldM (read_default_uvs_sample uvs) (seq 0 (uvs_getNumSamples uvs)) cached_data.

End Attributes.

(** ** Loading the samples of an object *)

(** A run of a load routine: the object, the number of polls of the
    cancellation flag made so far, and the sample indices processed so far
    (a trace that the code does not keep). *)
Record Run : Type := mkRun {
  object : AlembicObject;
  polls : nat;
  processed : list nat
}.

(** How a loop ended: at its bound, or by the [return] of a poll that found
    the flag set. *)
Inductive LoopEnd : Type := Completed | Cancelled.

Section Loaders.
Context {imath : Imath} {util : CyclesUtil}.

(** The body of the per-sample loop of the mesh loader, after the poll. *)
Definition load_mesh_sample (schema : PolyMesh.Schema) (requested_attributes : list string)
    (i : nat) (cached_data : CachedData) : option CachedData :=
  let sample := PolyMesh.getValue schema i in
  let time := getSampleTime (PolyMesh.getTimeSampling schema) i in
  let cached_data := add_positions (PolyMesh.getPositions sample) time cached_data in
  cached_data <-
    add_triangles (PolyMesh.getFaceCounts sample) (PolyMesh.getFaceIndices sample)
                  time cached_data ;;
  foldM (fun cd attr => read_attribute (PolyMesh.getArbGeomParams schema) i attr cd)
        requested_attributes cached_data.

(** The body of the per-sample loop of the curve loader, after the poll. *)
Definition load_curves_sample (schema : Curves.Schema) (i : nat) (cached_data : CachedData)
    : option CachedData :=
  let sample := Curves.getValue schema i in
  let time := getSampleTime (Curves.getTimeSampling schema) i in
  a <- curve_arrays (Curves.getCurvesNumVertices sample) (Curves.getPositions sample) ;;
  ret (add_curve_arrays a time cached_data).

(** [for (size_t i = 0; i < getNumSamples(); ++i) { if (progress.get_cancel())
    return; body }], [iters] rounds from the index [i]. *)
Fixpoint sample_loop (body : nat -> CachedData -> option CachedData) (progress : Progress)
    (iters : nat) (i : nat) (r : Run) : option (Run * LoopEnd) :=
  match iters with
  | O => ret (r, Completed)
  | S iters' =>
      let cancel := get_cancel progress (polls r) in
      let r := mkRun (object r) (S (polls r)) (processed r) in
      if cancel then ret (r, Cancelled)
      else
        cached_data <- body i (cached_data (object r)) ;;
        sample_loop body progress iters' (S i)
          (mkRun (set_cached_data (object r) cached_data) (polls r) (processed r ++ [i]))
  end.

(** A poll outside a loop: [if (progress.get_cancel()) return;]. *)
Definition poll (progress : Progress) (r : Run) : Run * LoopEnd :=
  (mkRun (object r) (S (polls r)) (processed r),
   if get_cancel progress (polls r) then Cancelled else Completed).

Definition clear_and_set_mesh_sampling (schema : PolyMesh.Schema) (o : AlembicObject)
    : AlembicObject :=
  let cd := CachedData_clear (cached_data o) in
  let ts := PolyMesh.getTimeSampling schema in
  let cd := set_vertices cd (set_time_sampling (vertices cd) ts) in
  let cd := set_triangles cd (set_time_sampling (triangles cd) ts) in
  let cd := set_triangles_loops cd (set_time_sampling (triangles_loops cd) ts) in
  set_cached_data o cd.

(** [AlembicObject::load_all_data(const IPolyMeshSchema &, Progress &)] *)
Definition load_all_data_mesh (schema : PolyMesh.Schema) (progress : Progress)
    (o : AlembicObject) : option Run :=
  let o := clear_and_set_mesh_sampling schema o in
  let requested_attributes := get_requested_attributes o in
  '(r, e) <- sample_loop (load_mesh_sample schema requested_attributes) progress
                         (PolyMesh.getNumSamples schema) 0 (mkRun o 0 []) ;;
  match e with
  | Cancelled => ret r
  | Completed =>
      let '(r, e) := poll progress r in
      match e with
      | Cancelled => ret r
      | Completed =>
          let uvs := PolyMesh.getUVsParam schema in
          cd <- (if uvs_valid uvs then read_default_uvs uvs (cached_data (object r))
                 else ret (cached_data (object r))) ;;
          let r := mkRun (set_cached_data (object r) cd) (polls r) (processed r) in
          let '(r, e) := poll progress r in
          match e with
          | Cancelled => ret r
          | Completed =>
              let '(r, e) := poll progress r in
              match e with
              | Cancelled => ret r
              | Completed =>
                  o <- setup_transform_cache (object r) ;;
                  ret (mkRun (set_data_loaded o true) (polls r) (processed r))
              end
          end
      end
  end.

Definition clear_and_set_curves_sampling (schema : Curves.Schema) (o : AlembicObject)
    : AlembicObject :=
  let cd := CachedData_clear (cached_data o) in
  let ts := Curves.getTimeSampling schema in
  let cd := set_curve_keys cd (set_time_sampling (curve_keys cd) ts) in
  let cd := set_curve_radius cd (set_time_sampling (curve_radius cd) ts) in
  let cd := set_curve_first_key cd (set_time_sampling (curve_first_key cd) ts) in
  let cd := set_curve_shader cd (set_time_sampling (curve_shader cd) ts) in
  set_cached_data o cd.

(** [AlembicObject::load_all_data(const ICurvesSchema &, Progress &)] *)
Definition load_all_data_curves (schema : Curves.Schema) (progress : Progress)
    (o : AlembicObject) : option Run :=
  let o := clear_and_set_curves_sampling schema o in
  '(r, e) <- sample_loop (load_curves_sample schema) progress
                         (Curves.getNumSamples schema) 0 (mkRun o 0 []) ;;
  match e with
  | Cancelled => ret r
  | Completed =>
      o <- setup_transform_cache (object r) ;;
      ret (mkRun (set_data_loaded o true) (polls r) (processed r))
  end.

End Loaders.

(** ** The specification's bound on the channels *)

Module CacheSpec.

(** No channel of the cache holds more than [n] time-keyed entries. *)
Definition sizes_at_most (n : nat) (c : CachedData) : Prop :=
  (size (vertices c) <= n)%nat /\ (size (triangles c) <= n)%nat /\
  (size (triangles_loops c) <= n)%nat /\ (size (transforms c) <= n)%nat /\
  (size (curve_keys c) <= n)%nat /\ (size (curve_radius c) <= n)%nat /\
  (size (curve_first_key c) <= n)%nat /\ (size (curve_shader c) <= n)%nat /\
  Forall (fun a => (size (attr_data a) <= n)%nat) (attributes c).

(** The stores of the eight channels, apart from the attributes. *)
Definition stores (c : CachedData) :=
  (vertices c, triangles c, triangles_loops c, transforms c,
   curve_keys c, curve_radius c, curve_first_key c, curve_shader c).

(** Every attribute holds at most [n] entries, or [n + 1] when its name is
    one of [extra]. *)
Definition attrs_bounded (n : nat) (extra : list string) (l : list CachedAttribute) : Prop :=
  Forall (fun a => (size (attr_data a) <=
                    n + (if existsb (String.eqb (attr_name a)) extra then 1 else 0))%nat) l.

(** The cache after the bodies of the sample indices [0 .. n-1], one after
    the other, from the cache [c]. *)
Definition after_samples (body : nat -> CachedData -> option CachedData) (n : nat)
    (c : CachedData) : option CachedData :=
  foldM (fun cd i => body i cd) (seq 0 n) c.

End CacheSpec.

(** ** The procedural driver *)

(** What the driver reaches outside the importer: the archive factory (the
    archive at a path, [None] when the handle it returns is not valid), the
    hierarchy walk and the two routines that push an object into the scene,
    which take the poll count of the cancellation flag and return it, and the
    test of a constant cache. *)
Class World : Type := {
  Scene : Type;
  IArchive : Type;
  getArchive : string -> option IArchive;
  load_objects : IArchive -> Progress -> nat -> list AlembicObject -> list AlembicObject * nat;
  read_mesh : Scene -> AlembicObject -> chrono_t -> Progress -> nat ->
              Scene * AlembicObject * nat;
  read_curves : Scene -> AlembicObject -> chrono_t -> Progress -> nat ->
                Scene * AlembicObject * nat;
  is_constant : AlembicObject -> bool
}.

Section Driver.
Context {world : World}.

(** [AlembicProcedural]. [modified] is the flag of the node: set by the
    setter of a socket, cleared by [clear_modified]. [open_attempts] is a
    trace, which the code does not keep: the paths given to the archive
    factory, in order. *)
Record AlembicProcedural : Type := mkAlembicProcedural {
  filepath : string;
  frame : float;
  frame_rate : float;
  objects : list AlembicObject;
  archive : option IArchive;
  objects_loaded : bool;
  modified : bool;
  open_attempts : list string
}.

(** Modelled from the spec: the socket interface of graph/node.h. A declared
    input that is set to a new value marks the node as modified;
    [is_modified] tells whether an input changed since [clear_modified]. *)
Definition is_modified (p : AlembicProcedural) : bool := modified p.

Definition clear_modified (p : AlembicProcedural) : AlembicProcedural :=
  mkAlembicProcedural (filepath p) (frame p) (frame_rate p) (objects p) (archive p)
                      (objects_loaded p) false (open_attempts p).

Definition set_filepath (value : string) (p : AlembicProcedural) : AlembicProcedural :=
  if String.eqb (filepath p) value then p
  else mkAlembicProcedural value (frame p) (frame_rate p) (objects p) (archive p)
                           (objects_loaded p) true (open_attempts p).

Definition set_frame (value : float) (p : AlembicProcedural) : AlembicProcedural :=
  if frame p =? value then p
  else mkAlembicProcedural (filepath p) value (frame_rate p) (objects p) (archive p)
                           (objects_loaded p) true (open_attempts p).

Definition set_frame_rate (value : float) (p : AlembicProcedural) : AlembicProcedural :=
  if frame_rate p =? value then p
  else mkAlembicProcedural (filepath p) (frame p) value (objects p) (archive p)
                           (objects_loaded p) true (open_attempts p).

(** [foreach (AlembicObject *object, objects)]: the objects still to visit,
    the objects visited. *)
Fixpoint objects_loop (progress : Progress) (frame_time : chrono_t)
    (todo done : list AlembicObject) (scene : Scene) (polls : nat)
    : Scene * list AlembicObject * nat * LoopEnd :=
  match todo with
  | [] => (scene, done, polls, Completed)
  | o :: rest =>
      if get_cancel progress polls then (scene, done ++ todo, S polls, Cancelled)
      else
        let polls := S polls in
        if has_data_loaded o && is_constant o then
          objects_loop progress frame_time rest (done ++ [o]) scene polls
        else
          match iobject o with
          | IObject_PolyMesh _ =>
              let '(scene, o, polls) := read_mesh scene o frame_time progress polls in
              objects_loop progress frame_time rest (done ++ [o]) scene polls
          | IObject_Curves _ =>
              let '(scene, o, polls) := read_curves scene o frame_time progress polls in
              objects_loop progress frame_time rest (done ++ [o]) scene polls
          | _ => objects_loop progress frame_time rest (done ++ [o]) scene polls
          end
  end.

(** [AlembicProcedural::generate(Scene *, Progress &)] *)
Definition generate (scene : Scene) (progress : Progress) (p : AlembicProcedural)
    : Scene * AlembicProcedural :=
  if negb (is_modified p) then (scene, p)
  else
    match
      match archive p with
      | Some a => inl (a, p)
      | None =>
          let a := getArchive (filepath p) in
          let p := mkAlembicProcedural (filepath p) (frame p) (frame_rate p) (objects p) a
                                       (objects_loaded p) (modified p)
                                       (open_attempts p ++ [filepath p]) in
          match a with
          | Some a => inl (a, p)
          | None =>
              (* avoid potential infinite update loops in viewport synchronization *)
              inr (clear_modified
                     (mkAlembicProcedural EmptyString (frame p) (frame_rate p) (objects p)
                                          (archive p) (objects_loaded p) (modified p)
                                          (open_attempts p)))
          end
      end
    with
    | inr p => (scene, p)
    | inl (a, p) =>
        let '(objs, polls) :=
          if negb (objects_loaded p) then load_objects a progress 0 (objects p)
          else (objects p, 0%nat) in
        (* the quotient of two floats, then widened to chrono_t *)
        let frame_time := static_cast_float (frame p / frame_rate p) in
        let '(scene, objs, polls, e) :=
          objects_loop progress frame_time objs [] scene polls in
        let p := mkAlembicProcedural (filepath p) (frame p) (frame_rate p) objs (archive p)
                                     true (modified p) (open_attempts p) in
        match e with
        | Cancelled => (scene, p)
        | Completed => (scene, clear_modified p)
        end
    end.

(** [n] invocations in a row. *)
Fixpoint generate_times (n : nat) (scene : Scene) (progress : Progress)
    (p : AlembicProcedural) : Scene * AlembicProcedural :=
  match n with
  | O => (scene, p)
  | S n' => let '(scene, p) := generate scene progress p in
            generate_times n' scene progress p
  end.

End Driver.

(** The world in which no path opens: there is no archive at all. *)
Definition closed_world : World := {|
  Scene := unit;
  IArchive := Empty_set;
  getArchive := fun _ => None;
  load_objects := fun a _ _ _ => match a with end;
  read_mesh := fun scene o _ _ polls => (scene, o, polls);
  read_curves := fun scene o _ _ polls => (scene, o, polls);
  is_constant := fun _ => true
|}.

(** The procedural as it is declared in that world, before its first
    invocation: frame 1, frame rate 24, no object, no archive. *)
Definition unopened (path : string) : @AlembicProcedural closed_world :=
  @mkAlembicProcedural closed_world path 1 24 [] None false true [].

(** ** The hierarchy walk *)

(** [std::map::insert({k, v})]: the entry is added unless the map holds an
    entry under an equivalent key, which it keeps. *)
Fixpoint MatrixSampleMap_insert (m : MatrixSampleMap) (k : chrono_t) (v : M44d)
    : MatrixSampleMap :=
  match m with
  | [] => [(k, v)]
  | e :: m' =>
      if fst e <? k then e :: MatrixSampleMap_insert m' k v
      else if k <? fst e then (k, v) :: m
      else m
  end.

Module Xform.

(** [IXformSchema], as the walk reads it: the number of operations, the
    samples and their times, and the matrix of the sample that a selector
    built from a time picks, [getValue(ISampleSelector(t)).getMatrix()]. *)
Record Schema : Type := mkSchema {
  getNumOps : nat;
  getNumSamples : nat;
  getTimeSampling : TimeSampling;
  getValue : chrono_t -> M44d
}.

End Xform.

Definition set_iobject (o : AlembicObject) (node : IObject) : AlembicObject :=
  mkAlembicObject node (shader_requests o) (xform_samples o) (cached_data o) (data_loaded o).

Definition set_xform_samples (o : AlembicObject) (samples : MatrixSampleMap)
    : AlembicObject :=
  mkAlembicObject (iobject o) (shader_requests o) samples (cached_data o) (data_loaded o).

Module Hierarchy.

(** What the header of an archive object matches; the walk tests the schemas
    in this order, and the last case is every other type (points, patches). *)
Inductive ObjectHeader : Type :=
  | IXform (xs : Xform.Schema)
  | ISubD
  | IPolyMesh (schema : PolyMesh.Schema)
  | ICurves (schema : Curves.Schema)
  | IFaceSet
  | Unsupported.

(** An object of the archive: its full name, its header and its children. *)
#[local] Unset Elimination Schemes.
Inductive ArchiveObject : Type :=
  mkArchiveObject (getFullName : string) (getHeader : ObjectHeader)
                  (getChildren : list ArchiveObject).
#[local] Set Elimination Schemes.

Definition getFullName (n : ArchiveObject) : string :=
  let '(mkArchiveObject name _ _) := n in name.

Definition getHeader (n : ArchiveObject) : ObjectHeader :=
  let '(mkArchiveObject _ header _) := n in header.

Definition getChildren (n : ArchiveObject) : list ArchiveObject :=
  let '(mkArchiveObject _ _ children) := n in children.

(** The objects of the procedural, each with the value of its [path]
    socket, in the order of the [objects] array. *)
Definition Objects : Type := list (string * AlembicObject).

(** [object_map.find(name)] and the write through the pointer found. The
    map is filled by [object_map.insert({path, object})] for each object in
    the order of the array, and [insert] keeps the entry that a key already
    has: a name finds the first object whose path it is. *)
Fixpoint update_found (objects : Objects) (name : string)
    (f : AlembicObject -> AlembicObject) : Objects :=
  match objects with
  | [] => []
  | (path, o) :: rest =>
      if String.eqb path name then (path, f o) :: rest
      else (path, o) :: update_found rest name f
  end.

(** [abc_object->iobject = node; if (xform_samples) abc_object->xform_samples
    = *xform_samples;] *)
Definition bind_object (node : IObject) (xform_samples : option MatrixSampleMap)
    (o : AlembicObject) : AlembicObject :=
  let o := set_iobject o node in
  match xform_samples with
  | Some samples => set_xform_samples o samples
  | None => o
  end.

(** The state a walk threads: the objects and the number of polls of the
    cancellation flag made so far. *)
Record Walk : Type := mkWalk { objects : Objects; polls : nat }.

Section Walk.
Context {imath : Imath}.

(** [for (i < xs.getNumSamples()) temp_xform_samples->insert({sample_time,
    xs.getValue(ISampleSelector(sample_time)).getMatrix()})] *)
Definition read_xform_samples (xs : Xform.Schema) (temp_xform_samples : MatrixSampleMap)
    : MatrixSampleMap :=
  fold_left
    (fun temp i =>
       let sample_time := getSampleTime (Xform.getTimeSampling xs) i in
       MatrixSampleMap_insert temp sample_time (Xform.getValue xs sample_time))
    (seq 0 (Xform.getNumSamples xs)) temp_xform_samples.

(** The samples a transform node hands to its children: [xform_samples] is
    the pointer received from the parent, null ([None]) above the first
    transform. Without operations the pointer is handed on as it is. *)
Definition concatenated_xform_samples (xs : Xform.Schema)
    (xform_samples : option MatrixSampleMap) : option MatrixSampleMap :=
  if Nat.ltb 0 (Xform.getNumOps xs) then
    let local_xform_samples := read_xform_samples xs [] in
    match xform_samples with
    | None => Some local_xform_samples
    | Some parent_samples =>
        Some (concatenate_xform_samples parent_samples local_xform_samples [])
    end
  else xform_samples.

(** [AlembicProcedural::walk_hierarchy]. The object map is read from the
    objects of the state: the walk writes neither a path nor the map. The
    object that the walk wraps from a header of its parent is valid, so that
    the children of a transform, of a mesh, of curves and of an object of
    another type are visited; those of a subdivision surface and of a face
    set are not, [next_object] being left invalid. *)
Fixpoint walk_hierarchy (node : ArchiveObject) (xform_samples : option MatrixSampleMap)
    (progress : Progress) (w : Walk) : Walk :=
  let cancel := get_cancel progress (polls w) in
  let w := mkWalk (objects w) (S (polls w)) in
  if cancel then w
  else
    let '(mkArchiveObject name header children) := node in
    let walk_children xform_samples w :=
      fold_left (fun w child => walk_hierarchy child xform_samples progress w) children w in
    match header with
    | IXform xs => walk_children (concatenated_xform_samples xs xform_samples) w
    | ISubD => w
    | IPolyMesh schema =>
        let w :=
          mkWalk (update_found (objects w) name
                               (bind_object (IObject_PolyMesh schema) xform_samples))
                 (polls w) in
        walk_children xform_samples w
    | ICurves schema =>
        let w :=
          mkWalk (update_found (objects w) name
                               (bind_object (IObject_Curves schema) xform_samples))
                 (polls w) in
        walk_children xform_samples w
    | IFaceSet => w
    | Unsupported => walk_children xform_samples w
    end.

(** [AlembicProcedural::load_objects]: the walk of the children of the top
    object of the archive, with no transform above them. *)
Definition load_objects (top : ArchiveObject) (progress : Progress) (w : Walk) : Walk :=
  fold_left (fun w child => walk_hierarchy child None progress w) (getChildren top) w.

End Walk.

(** The objects of the archive that a walk without cancellation reaches from
    an object: the object, and what it reaches from its children unless it
    is a subdivision surface or a face set. *)
Fixpoint reached (node : ArchiveObject) : list ArchiveObject :=
  node ::
  match getHeader node with
  | ISubD | IFaceSet => []
  | _ => flat_map reached (getChildren node)
  end.

(** The archive node that a reached geometry object binds. *)
Definition geometry (node : ArchiveObject) : option IObject :=
  match getHeader node with
  | IPolyMesh schema => Some (IObject_PolyMesh schema)
  | ICurves schema => Some (IObject_Curves schema)
  | _ => None
  end.

(** Whether a reached object of [nodes] is a mesh or a curves object of
    the full name [path]. *)
Definition binds (path : string) (nodes : list ArchiveObject) : bool :=
  existsb (fun n => String.eqb (getFullName n) path &&
                    match geometry n with Some _ => true | None => false end) nodes.

(** What a walk leaves of an object as it is: the shader requests, the cache
    and the loaded flag. *)
Definition kept (o : AlembicObject) : list (list string) * CachedData * bool :=
  (shader_requests o, cached_data o, data_loaded o).

(** What every walk keeps of the objects [before] in the objects [after]:
    the paths in their order, the part [kept] of each object, and every
    object that comes after another one of the same path. *)
Definition keeps (before after : Objects) : Prop :=
  map fst after = map fst before /\
  map (fun po => kept (snd po)) after = map (fun po => kept (snd po)) before /\
  forall i j path o o1,
    (j < i)%nat -> nth_error before j = Some (path, o1) ->
    nth_error before i = Some (path, o) -> nth_error after i = Some (path, o).

(** The object [i] is the first one of the path [path]. *)
Definition first_of_path (objects : Objects) (i : nat) (path : string) : Prop :=
  nth_error (map fst objects) i = Some path /\
  forall j, (j < i)%nat -> nth_error (map fst objects) j <> Some path.



End Hierarchy.

(** ** What reading an attribute leaves of a cache *)

(** The geometry channels, the names of the attributes in their order, and
    every attribute of another name than [name]. *)
Definition writes_only_attribute (name : string) (before after : CachedData) : Prop :=
  CacheSpec.stores after = CacheSpec.stores before /\
  map attr_name (attributes after) = map attr_name (attributes before) /\
  forall a, In a (attributes before) -> attr_name a <> name -> In a (attributes after).

(** The time samplings of the eight channels of a cache. *)
Definition samplings (c : CachedData) :=
  (time_sampling (vertices c), time_sampling (triangles c),
   time_sampling (triangles_loops c), time_sampling (transforms c),
   time_sampling (curve_keys c), time_sampling (curve_radius c),
   time_sampling (curve_first_key c), time_sampling (curve_shader c)).

(** ** The triangles pushed into a mesh *)

(** The loop of [AlembicProcedural::read_mesh] that fills the index, smooth
    and shader arrays of the mesh from the triangles cached for the frame:
    the three vertices of each triangle, the flag 1 and the shader 0. The
    arrays are returned in the order [(triangles, smooth, shader)]. *)
Definition read_mesh_triangles (triangle_data : list int3)
    : list Z * list bool * list Z :=
  fold_left
    (fun '(triangles, smooth, shader) tri =>
       let triangles := push_back_reserved triangles (ix tri) in
       let triangles := push_back_reserved triangles (iy tri) in
       let triangles := push_back_reserved triangles (iz tri) in
       let shader := push_back_reserved shader 0%Z in
       let smooth := push_back_reserved smooth true in
       (triangles, smooth, shader))
    triangle_data ([], [], []).

(** ** An implementation of the Imath interface for the examples *)

(** The decomposition refuses the matrix of sixteen zeros, as the library
    refuses a scale of zero, and finds no scale, shear, rotation or
    translation in another matrix; the product of two matrices is the first
    one. The examples that name this implementation show a path of the
    code; no property depends on it. *)
Definition Imath_example : Imath := {|
  Quatd := unit;
  extractSHRT := fun m =>
    if M44d_neq m (M44d_fill 0)
    then Some (make_float3 0 0 0, make_float3 0 0 0, make_float3 0 0 0, make_float3 0 0 0)
    else None;
  extractAndRemoveScalingAndShear := fun m => (m, make_float3 0 0 0, make_float3 0 0 0);
  extractQuat := fun _ => tt;
  setEulerAngles := fun _ => M44d_identity;
  setScale := fun _ => M44d_identity;
  setShear := fun _ => M44d_identity;
  setTranslation := fun _ => M44d_identity;
  toMatrix44 := fun _ => M44d_identity;
  M44d_mul := fun a _ => a;
  lerp := fun a _ _ => a;
  slerp := fun a _ _ => a;
  Quatd_dot := fun _ _ => 0%float;
  Quatd_neg := fun q => q
|}.

(** * Properties *)

(** ** The order of doubles *)

Module DoubleOrder.
Import Double.

Local Open Scope float_scope.

Lemma ltb_cmp x y : (x <? y) = true <-> cmp x y = Some Lt.
Proof.
  rewrite ltb_spec. unfold SFltb, cmp.
  destruct (SFcompare _ _) as [[]|]; split; congruence.
Qed.

Lemma eqb_cmp x y : (x =? y) = true <-> cmp x y = Some Eq.
Proof.
  rewrite eqb_spec. unfold SFeqb, cmp.
  destruct (SFcompare _ _) as [[]|]; split; congruence.
Qed.

Lemma leb_cmp x y :
  (x <=? y) = true <-> cmp x y = Some Lt \/ cmp x y = Some Eq.
Proof.
  rewrite leb_spec. unfold SFleb, cmp.
  destruct (SFcompare _ _) as [[]|]; split; intros; try tauto;
    try congruence; destruct H; congruence.
Qed.

(** [SFcompare] is a lexicographic comparison of sign, exponent and
    mantissa: it is antisymmetric, and transitive wherever it orders. *)

Ltac order_cases :=
  repeat match goal with
  | |- context [(?a ?= ?b)%Z] =>
      destruct (Z.compare_spec a b); simpl in *; subst
  | H : context [(?a ?= ?b)%Z] |- _ =>
      destruct (Z.compare_spec a b); simpl in *; subst
  | |- context [(?a ?= ?b)%positive] =>
      destruct (Pos.compare_spec a b); simpl in *; subst
  | H : context [(?a ?= ?b)%positive] |- _ =>
      destruct (Pos.compare_spec a b); simpl in *; subst
  end;
  try reflexivity; try congruence; try lia.

Lemma SFcompare_opp a b :
  SFcompare b a = option_map CompOpp (SFcompare a b).
Proof.
  destruct a as [[]|[]| |[] ma ea], b as [[]|[]| |[] mb eb]; simpl;
    try reflexivity;
    change (Pos.compare_cont Eq mb ma) with (mb ?= ma)%positive;
    change (Pos.compare_cont Eq ma mb) with (ma ?= mb)%positive;
    order_cases.
Qed.

Lemma SFcompare_chain a b c x y :
  SFcompare a b = Some x -> SFcompare b c = Some y ->
  x <> Gt -> y <> Gt ->
  SFcompare a c = Some (match x, y with Eq, Eq => Eq | _, _ => Lt end).
Proof.
  destruct a as [[]|[]| |[] ma ea], b as [[]|[]| |[] mb eb],
           c as [[]|[]| |[] mc ec]; simpl;
    intros Hx Hy Nx Ny; try discriminate;
    injection Hx as <-; injection Hy as <-;
    try reflexivity; try congruence;
    repeat match goal with
    | H : context [Pos.compare_cont Eq ?m ?n] |- _ =>
        change (Pos.compare_cont Eq m n) with (m ?= n)%positive in H
    | |- context [Pos.compare_cont Eq ?m ?n] =>
        change (Pos.compare_cont Eq m n) with (m ?= n)%positive
    end;
    order_cases.
Qed.

(** The facts the containers rely on, on the primitive comparisons. *)

Lemma cmp_opp a b : cmp b a = option_map CompOpp (cmp a b).
Proof. apply SFcompare_opp. Qed.

Lemma ltb_trans a b c :
  (a <? b) = true -> (b <? c) = true -> (a <? c) = true.
Proof.
  rewrite !ltb_cmp. intros H1 H2.
  apply (SFcompare_chain _ _ _ _ _ H1 H2); discriminate.
Qed.

Lemma ltb_leb_trans a b c :
  (a <? b) = true -> (b <=? c) = true -> (a <? c) = true.
Proof.
  rewrite !ltb_cmp, leb_cmp. intros H1 [H2|H2];
    apply (SFcompare_chain _ _ _ _ _ H1 H2); discriminate.
Qed.

Lemma leb_ltb_trans a b c :
  (a <=? b) = true -> (b <? c) = true -> (a <? c) = true.
Proof.
  rewrite !ltb_cmp, leb_cmp. intros [H1|H1] H2;
    apply (SFcompare_chain _ _ _ _ _ H1 H2); discriminate.
Qed.

Lemma ltb_asym a b : (a <? b) = true -> (b <? a) = false.
Proof.
  intros H. destruct (b <? a) eqn:E; [|reflexivity].
  apply ltb_cmp in H. apply ltb_cmp in E.
  rewrite cmp_opp, H in E. discriminate.
Qed.

Lemma ltb_irrefl a : (a <? a) = false.
Proof. destruct (a <? a) eqn:E; [|reflexivity]. now rewrite (ltb_asym _ _ E) in E. Qed.

Lemma leb_not_gtb a b : (a <=? b) = true -> (b <? a) = false.
Proof.
  intros H. destruct (b <? a) eqn:E; [|reflexivity].
  apply leb_cmp in H. apply ltb_cmp in E.
  rewrite cmp_opp in E. destruct H as [H|H]; rewrite H in E; discriminate.
Qed.




Lemma eqb_leb a b : (a =? b) = true -> (a <=? b) = true.
Proof. rewrite eqb_cmp, leb_cmp. auto. Qed.

Lemma eqb_sym a b : (a =? b) = true -> (b =? a) = true.
Proof. rewrite !eqb_cmp. intros H. now rewrite cmp_opp, H. Qed.

Lemma eqb_not_ltb a b : (a =? b) = true -> (a <? b) = false /\ (b <? a) = false.
Proof.
  intros H. split; apply leb_not_gtb, eqb_leb; auto using eqb_sym.
Qed.

Lemma ltb_eqb_trans a b c :
  (a <? b) = true -> (b =? c) = true -> (a <? c) = true.
Proof. intros H1 H2. eapply ltb_leb_trans; eauto using eqb_leb. Qed.

(** Two doubles that are ordered neither way are equal or one is a NaN. *)
Lemma not_ltb_eqb a b :
  (a <? b) = false -> (b <? a) = false ->
  (a =? a) = true -> (b =? b) = true -> (a =? b) = true.
Proof.
  intros H1 H2 Ha Hb.
  destruct (cmp a b) as [[]|] eqn:E.
  - now apply eqb_cmp.
  - apply ltb_cmp in E. congruence.
  - assert (E' : cmp b a = Some Lt) by now rewrite cmp_opp, E.
    apply ltb_cmp in E'. congruence.
  - exfalso. apply eqb_cmp in Ha, Hb. unfold cmp in *.
    destruct (Prim2SF a) as [[]|[]| |[] ? ?], (Prim2SF b) as [[]|[]| |[] ? ?];
      simpl in *; congruence.
Qed.

End DoubleOrder.

(** ** The sample map *)

Module SampleMapFacts.
Import SampleMap DoubleOrder.

Lemma sorted_tail e m : sorted (e :: m) = true -> sorted m = true.
Proof.
  destruct e as [k v], m as [|[k' v'] m']; simpl; auto.
  intros H. apply andb_prop in H. tauto.
Qed.

Lemma sorted_head_lt e m :
  sorted (e :: m) = true -> forall e', In e' m -> (fst e <? fst e') = true.
Proof.
  revert e. induction m as [|[k' v'] m' IH]; intros [k v] H e' Hin; [easy|].
  simpl in H. apply andb_prop in H. destruct H as [Hlt Hs].
  destruct Hin as [<-|Hin]; [exact Hlt|].
  simpl. eapply ltb_trans; [exact Hlt|]. apply (IH (k', v') Hs e' Hin).
Qed.

Lemma sorted_before_last m d e :
  sorted m = true -> In e m -> e = last m d \/ (fst e <? fst (last m d)) = true.
Proof.
  revert d. induction m as [|a m IH]; intros d Hs Hin; [easy|].
  destruct m as [|b m'].
  - destruct Hin as [<-|[]]. now left.
  - change (last (a :: b :: m') d) with (last (b :: m') d).
    destruct Hin as [<-|Hin].
    + right. apply (sorted_head_lt _ _ Hs).
      destruct (@exists_last _ (b :: m')) as [l' [z ->]]; [discriminate|].
      rewrite last_last. apply in_or_app. right. now left.
    + apply IH; [apply (sorted_tail _ _ Hs)|exact Hin].
Qed.

(** What [find] returns is an entry of the map, ordered neither way with
    the key looked up. *)
Lemma lower_bound_incl m k e : In e (lower_bound m k) -> In e m.
Proof.
  induction m as [|a m IH]; simpl; [easy|].
  destruct (fst a <? k); auto.
Qed.

Lemma lower_bound_head m k e l :
  lower_bound m k = e :: l -> (fst e <? k) = false.
Proof.
  induction m as [|a m IH]; simpl; [discriminate|].
  destruct (fst a <? k) eqn:E; [exact IH|].
  intros H. injection H as <- _. exact E.
Qed.

Lemma find_some m k e :
  find m k = Some e ->
  In e m /\ (fst e <? k) = false /\ (k <? fst e) = false.
Proof.
  unfold find. destruct (lower_bound m k) as [|a l] eqn:E; [discriminate|].
  destruct (k <? fst a) eqn:E'; [discriminate|].
  intros H. injection H as <-. repeat split; auto.
  - apply (lower_bound_incl m k). rewrite E. now left.
  - apply (lower_bound_head _ _ _ _ E).
Qed.

(** On a sorted map, [find] returns the entry whose key equals the key
    looked up. *)
Lemma find_exact m k e :
  sorted m = true -> In e m -> (fst e =? k) = true -> find m k = Some e.
Proof.
  induction m as [|a m IH]; intros Hs Hin Heq; [easy|].
  destruct Hin as [->|Hin].
  - unfold find. simpl. destruct (eqb_not_ltb _ _ Heq) as [-> ->]. reflexivity.
  - assert (Hlt : (fst a <? k) = true).
    { eapply ltb_eqb_trans; [apply (sorted_head_lt _ _ Hs _ Hin)|exact Heq]. }
    unfold find in *. simpl. rewrite Hlt.
    apply IH; auto. apply (sorted_tail _ _ Hs).
Qed.

Lemma find_first_of_le e m k :
  (k <=? fst e) = true -> find (e :: m) k = None \/ find (e :: m) k = Some e.
Proof.
  intros H. unfold find. simpl. rewrite (leb_not_gtb _ _ H).
  destruct (k <? fst e); auto.
Qed.

End SampleMapFacts.

(** ** Interpolation *)

Section InterpolationFacts.
Context {imath : Imath}.
Import SampleMap SampleMapFacts DoubleOrder.

Lemma min_entry_is_first first rest e :
  sorted (first :: rest) = true -> Spec.is_min_entry (first :: rest) e -> e = first.
Proof.
  intros Hs [Hin Hmin]. destruct Hin as [<-|Hin]; [reflexivity|].
  pose proof (sorted_head_lt _ _ Hs _ Hin) as Hlt.
  pose proof (Hmin first (or_introl eq_refl)) as Hle.
  rewrite (leb_not_gtb _ _ Hle) in Hlt. discriminate.
Qed.

Lemma max_entry_is_last samples d e :
  sorted samples = true -> Spec.is_max_entry samples e -> e = last samples d.
Proof.
  intros Hs [Hin Hmax].
  destruct (sorted_before_last samples d e Hs Hin) as [->|Hlt]; [reflexivity|].
  assert (Hl : In (last samples d) samples).
  { destruct samples as [|a l]; [easy|].
    destruct (@exists_last _ (a :: l)) as [l' [z E]]; [discriminate|].
    rewrite E, last_last. apply in_or_app. right. now left. }
  rewrite (leb_not_gtb _ _ (Hmax _ Hl)) in Hlt. discriminate.
Qed.

Lemma interpolated_exact samples time e :
  sorted samples = true -> In e samples -> (fst e =? time) = true ->
  get_interpolated_matrix_for_time samples time = snd e.
Proof.
  intros Hs Hin Heq. unfold get_interpolated_matrix_for_time.
  destruct samples as [|first rest]; [easy|].
  now rewrite (find_exact _ _ _ Hs Hin Heq).
Qed.

Lemma interpolated_single e time :
  get_interpolated_matrix_for_time [e] time = snd e.
Proof.
  unfold get_interpolated_matrix_for_time, find. simpl.
  destruct (fst e <? time); simpl; [reflexivity|].
  destruct (time <? fst e); reflexivity.
Qed.

Lemma interpolated_before_first first rest time :
  (time <=? fst first) = true ->
  get_interpolated_matrix_for_time (first :: rest) time = snd first.
Proof.
  intros Hle. unfold get_interpolated_matrix_for_time.
  destruct (find_first_of_le first rest time Hle) as [-> | ->]; [|reflexivity].
  rewrite Hle. destruct (Nat.eqb _ _); reflexivity.
Qed.

Lemma interpolated_after_last first rest time :
  sorted (first :: rest) = true ->
  (fst (last (first :: rest) first) <=? time) = true ->
  get_interpolated_matrix_for_time (first :: rest) time =
  snd (last (first :: rest) first).
Proof.
  intros Hs Hge. unfold get_interpolated_matrix_for_time.
  set (samples := first :: rest) in *.
  destruct (find samples time) as [iter|] eqn:Ef.
  - apply find_some in Ef. destruct Ef as (Hin & Hn1 & Hn2).
    destruct (sorted_before_last samples first iter Hs Hin) as [->|Hlt];
      [reflexivity|].
    rewrite (ltb_leb_trans _ _ _ Hlt Hge) in Hn1. discriminate.
  - destruct rest as [|second rest']; [reflexivity|].
    replace (Nat.eqb (List.length samples) 1) with false by reflexivity.
    destruct (time <=? fst first) eqn:Hle.
    + exfalso.
      assert (Hlt : (fst first <? fst (last samples first)) = true).
      { destruct (sorted_before_last samples first first Hs (or_introl eq_refl))
          as [E|H]; [|exact H].
        exfalso. subst samples.
        pose proof (sorted_head_lt _ _ Hs (last (second :: rest') first)) as H.
        change (last (first :: second :: rest') first)
          with (last (second :: rest') first) in E.
        rewrite <- E, ltb_irrefl in H.
        assert (In first (second :: rest')); [|intuition discriminate].
        rewrite E at 1.
        destruct (@exists_last _ (second :: rest')) as [l' [z E']]; [discriminate|].
        rewrite E', last_last. apply in_or_app. right. now left. }
      pose proof (leb_ltb_trans _ _ _ Hle Hlt) as H.
      rewrite (leb_not_gtb _ _ Hge) in H. discriminate.
    + unfold Double.geb. now rewrite Hge.
Qed.

End InterpolationFacts.





(** C10: on the empty sample set the interpolation returns the identity
    matrix for every time, and the exact-match lookup returns the identity
    matrix for every time at which [find] reaches [end()]; this is the case of
    every time (not a NaN) that equals no key of the set. *)
Theorem C10_identity_when_absent {imath : Imath} :
  (forall time, get_interpolated_matrix_for_time [] time = M44d_identity) /\
  (forall samples time,
      SampleMap.find samples time = None ->
      get_matrix_for_time samples time = M44d_identity) /\
  (forall samples time,
      (time =? time) = true ->
      (forall e, In e samples -> (fst e =? fst e) = true /\ (fst e =? time) = false) ->
      get_matrix_for_time samples time = M44d_identity).
Proof.
  split; [reflexivity|]. split.
  - intros samples time H. unfold get_matrix_for_time. now rewrite H.
  - intros samples time Ht Hk. unfold get_matrix_for_time.
    destruct (SampleMap.find samples time) as [e|] eqn:E; [|reflexivity].
    apply SampleMapFacts.find_some in E. destruct E as (Hin & H1 & H2).
    destruct (Hk e Hin) as [He Hne].
    rewrite (DoubleOrder.not_ltb_eqb _ _ H1 H2 He Ht) in Hne. discriminate.
Qed.

Lemma C10_identity_when_absent_witness :
  (1 =? 1) = true /\
  (forall imath : Imath,
      get_matrix_for_time [(0, M44d_fill 3); (2, M44d_fill 4)] 1 = M44d_identity).
Proof.
  split; [reflexivity|]. intros imath.
  apply (proj2 (proj2 (@C10_identity_when_absent imath))); [reflexivity|].
  intros e [<-|[<-|[]]]; split; reflexivity.
Defined.

(** C5: on a sample map, the interpolation returns the stored matrix when the
    time equals a key; a single-sample set gives its sample at every time; a
    time at or before the minimum key gives the sample at the minimum key, and
    a time at or after the maximum key gives the sample at the maximum key. *)
Theorem C5_interpolation_boundaries {imath : Imath}
    (samples : MatrixSampleMap) (T : chrono_t) :
  SampleMap.sorted samples = true ->
  (forall e, In e samples -> (fst e =? T) = true ->
             get_interpolated_matrix_for_time samples T = snd e) /\
  (forall e, samples = [e] ->
             get_interpolated_matrix_for_time samples T = snd e) /\
  (forall e, Spec.is_min_entry samples e -> (T <=? fst e) = true ->
             get_interpolated_matrix_for_time samples T = snd e) /\
  (forall e, Spec.is_max_entry samples e -> (fst e <=? T) = true ->
             get_interpolated_matrix_for_time samples T = snd e).
Proof.
  intros Hs. split; [|split; [|split]].
  - intros e Hin Heq. now apply interpolated_exact.
  - intros e ->. apply interpolated_single.
  - intros e Hmin Hle. destruct samples as [|first rest]; [destruct Hmin as [[] _]|].
    rewrite (min_entry_is_first _ _ _ Hs Hmin) in *.
    now apply interpolated_before_first.
  - intros e Hmax Hge. destruct samples as [|first rest]; [destruct Hmax as [[] _]|].
    rewrite (max_entry_is_last _ first _ Hs Hmax) in *.
    now apply interpolated_after_last.
Qed.

Lemma C5_interpolation_boundaries_witness :
  let samples := [(0, M44d_identity); (1, M44d_fill 2); (3, M44d_fill 5)] in
  SampleMap.sorted samples = true /\
  (forall imath : Imath,
      get_interpolated_matrix_for_time samples 1 = M44d_fill 2 /\
      get_interpolated_matrix_for_time samples (-1) = M44d_identity /\
      get_interpolated_matrix_for_time samples 7 = M44d_fill 5 /\
      get_interpolated_matrix_for_time [(4, M44d_fill 2)] 9 = M44d_fill 2).
Proof.
  split; [reflexivity|]. intros imath.
  pose proof (@C5_interpolation_boundaries imath
                [(0, M44d_identity); (1, M44d_fill 2); (3, M44d_fill 5)]) as H.
  split; [|split; [|split]].
  - apply (proj1 (H 1 eq_refl) (1, M44d_fill 2)); [right; now left|reflexivity].
  - apply (proj1 (proj2 (proj2 (H (-1) eq_refl))) (0, M44d_identity));
      [|reflexivity].
    split; [now left|]. intros e' [<-|[<-|[<-|[]]]]; reflexivity.
  - apply (proj2 (proj2 (proj2 (H 7 eq_refl))) (3, M44d_fill 5)); [|reflexivity].
    split; [right; right; now left|]. intros e' [<-|[<-|[<-|[]]]]; reflexivity.
  - apply (proj1 (proj2 (@C5_interpolation_boundaries imath
                           [(4, M44d_fill 2)] 9 eq_refl)) (4, M44d_fill 2)).
    reflexivity.
Defined.

(** C1: the sample set with the three times 0, 1 and 2, queried at 0.5. The
    tightest bracketing pair is (0, 1); the loop of the code returns (0, 2),
    and the matrix is blended from the samples at 0 and at 2, a quarter of
    the way, the later quaternion negated when its dot product with the
    earlier one is negative. *)
Theorem C1_bracket_takes_the_last_sample {imath : Imath} (A B C : M44d) :
  let samples := [(0, A); (1, B); (2, C)] in
  Spec.tightest_bracket samples 0.5 = (Some 0, Some 1) /\
  find_bracket samples 0.5 (0, A) (2, C) = (0, 2) /\
  get_interpolated_matrix_for_time samples 0.5 =
    interpolate_between samples 0 2 0.5 /\
  interpolate_between samples 0 2 0.5 =
    (let '(prev_scale, prev_shear, prev_rotation, prev_translation) :=
       transform_decompose A in
     let '(next_scale, next_shear, next_rotation, next_translation) :=
       transform_decompose C in
     let next_rotation :=
       if Quatd_dot prev_rotation next_rotation <? 0
       then Quatd_neg next_rotation else next_rotation in
     transform_compose (lerp prev_scale next_scale 0.25)
                       (lerp prev_shear next_shear 0.25)
                       (slerp prev_rotation next_rotation 0.25)
                       (lerp prev_translation next_translation 0.25)).
Proof.
  repeat split; reflexivity.
Qed.

(** ** The set of unified times *)

Module TimeSetFacts.
Import TimeSet DoubleOrder.

Lemma sorted_cons a s :
  sorted (a :: s) = true <->
  (forall b, In b s -> (a <? b) = true) /\ sorted s = true.
Proof.
  revert a. induction s as [|b s IH]; intros a; simpl.
  - split; [intros _; split; [intros ? []|reflexivity]|reflexivity].
  - rewrite andb_true_iff. change (match s with [] => true | k2 :: _ => (b <? k2) && sorted s end)
      with (sorted (b :: s)).
    split.
    + intros [Hab Hs]. split; [|exact Hs].
      intros c [<-|Hc]; [exact Hab|].
      apply IH in Hs. eapply ltb_trans; [exact Hab|]. now apply Hs.
    + intros [Hall Hs]. split; [apply Hall; now left|exact Hs].
Qed.

Lemma insert_in s k t : In t (insert s k) -> t = k \/ In t s.
Proof.
  induction s as [|a s IH]; simpl.
  - intros [<-|[]]. now left.
  - destruct (a <? k); [|destruct (k <? a)]; simpl; intuition.
Qed.


Lemma insert_sorted s k : sorted s = true -> sorted (insert s k) = true.
Proof.
  induction s as [|a s IH]; intros Hs; [reflexivity|].
  simpl. destruct (a <? k) eqn:E1; [|destruct (k <? a) eqn:E2; [|exact Hs]].
  - apply sorted_cons in Hs. destruct Hs as [Hall Hs]. apply sorted_cons.
    split; [|auto]. intros b Hb. apply insert_in in Hb.
    destruct Hb as [->|Hb]; auto.
  - apply sorted_cons. split; [|exact Hs].
    intros b [<-|Hb]; [exact E2|].
    apply sorted_cons in Hs. eapply ltb_trans; [exact E2|]. now apply Hs.
Qed.


Section Union.
Variable A : Type.
Variable key : A -> float.

Lemma insert_all_sorted m s : sorted s = true -> sorted (insert_all key m s) = true.
  Proof.
    revert s. induction m as [|a m IH]; intros s Hs; [exact Hs|].
    apply IH. now apply insert_sorted.
  Qed.



End Union.

End TimeSetFacts.

(** ** Concatenation of sample sets *)

Section ConcatenationFacts.
Context {imath : Imath}.
Import DoubleOrder.

Lemma assign_append out t v :
  (forall e, In e out -> (fst e <? t) = true) ->
  SampleMap.assign out t v = out ++ [(t, v)].
Proof.
  induction out as [|a out IH]; intros H; [reflexivity|].
  simpl. rewrite (H a (or_introl eq_refl)). f_equal.
  apply IH. intros e He. apply H. now right.
Qed.

Lemma assign_all_sorted (f : float -> M44d) U out :
  TimeSet.sorted U = true ->
  (forall e t, In e out -> In t U -> (fst e <? t) = true) ->
  fold_left (fun out time => SampleMap.assign out time (f time)) U out =
  out ++ map (fun t => (t, f t)) U.
Proof.
  revert out. induction U as [|t U IH]; intros out Hs H.
  - simpl. now rewrite app_nil_r.
  - simpl. apply TimeSetFacts.sorted_cons in Hs. destruct Hs as [Hall Hs].
    rewrite assign_append by (intros e He; apply (H e t He); now left).
    rewrite IH; [now rewrite <- app_assoc|exact Hs|].
    intros e t' He Ht'. apply in_app_or in He.
    destruct He as [He|[<-|[]]]; [apply (H e t' He); now right|].
    now apply Hall.
Qed.

Lemma sorted_map_keys (f : float -> M44d) U :
  SampleMap.sorted (map (fun t => (t, f t)) U) = TimeSet.sorted U.
Proof.
  induction U as [|a [|b U] IH]; try reflexivity.
  simpl in *. now rewrite IH.
Qed.

(** The output built from an empty map: one entry per unified time. *)
Lemma concatenate_from_empty parent_samples local_samples :
  concatenate_xform_samples parent_samples local_samples [] =
  map (fun time =>
         (time, M44d_mul (get_interpolated_matrix_for_time local_samples time)
                         (get_interpolated_matrix_for_time parent_samples time)))
      (TimeSet.insert_all fst local_samples
         (TimeSet.insert_all fst parent_samples [])).
Proof.
  unfold concatenate_xform_samples.
  rewrite (assign_all_sorted
             (fun time => M44d_mul (get_interpolated_matrix_for_time local_samples time)
                                   (get_interpolated_matrix_for_time parent_samples time))).
  - reflexivity.
  - now repeat apply TimeSetFacts.insert_all_sorted.
  - intros e t [].
Qed.

End ConcatenationFacts.



(** ** [int] arithmetic and array reads *)

Section IntFacts.
Local Open Scope Z_scope.

Lemma int_add_ok a b :
  INT_MIN <= a + b <= INT_MAX -> int_add a b = Some (a + b).
Proof.
  intros H. unfold int_add, in_int.
  destruct (Z.leb_spec INT_MIN (a + b)), (Z.leb_spec (a + b) INT_MAX);
    simpl; try reflexivity; lia.
Qed.

Lemma int_sub_ok a b :
  INT_MIN <= a - b <= INT_MAX -> int_sub a b = Some (a - b).
Proof.
  intros H. unfold int_sub, in_int.
  destruct (Z.leb_spec INT_MIN (a - b)), (Z.leb_spec (a - b) INT_MAX);
    simpl; try reflexivity; lia.
Qed.

Lemma array_get_ok {A : Type} (a : list A) (i : Z) (d : A) :
  0 <= i < Z.of_nat (List.length a) ->
  array_get a i = Some (nth (Z.to_nat i) a d).
Proof.
  intros H. unfold array_get.
  destruct (Z.ltb_spec i 0); [lia|].
  apply nth_error_nth'. lia.
Qed.

End IntFacts.

(** ** Fan triangulation *)

Section FanFacts.
Local Open Scope Z_scope.

Lemma fan_loop_spec fi off iters : forall j acc,
  Z.of_nat (off + j + iters + 1) < Z.of_nat (List.length fi) + Z.of_nat (Nat.b2n (Nat.eqb iters 0)) ->
  Z.of_nat (List.length fi) <= INT_MAX ->
  fan_loop iters (Z.of_nat j) fi (Z.of_nat off) acc =
  Some (fst acc ++ map (FanSpec.triangle_at fi off) (seq j iters),
        snd acc ++ map (FanSpec.loop_triple off) (seq j iters)).
Proof.
  unfold INT_MAX.
  induction iters as [|n IH]; intros j [T L] Hlen Hmax.
  - simpl. now rewrite !app_nil_r.
  - cbn [fan_loop]. cbn [Nat.eqb Nat.b2n] in Hlen.
    rewrite (array_get_ok fi (Z.of_nat off) 0) by lia.
    rewrite (int_add_ok (Z.of_nat off) (Z.of_nat j)) by (unfold INT_MIN, INT_MAX; lia).
    cbn [bind Monad_option].
    rewrite (int_add_ok _ 1) by (unfold INT_MIN, INT_MAX; lia).
    rewrite (int_add_ok _ 2) by (unfold INT_MIN, INT_MAX; lia).
    cbn [bind Monad_option].
    rewrite (array_get_ok fi (Z.of_nat off + Z.of_nat j + 1) 0) by lia.
    rewrite (array_get_ok fi (Z.of_nat off + Z.of_nat j + 2) 0) by lia.
    cbn [bind Monad_option].
    rewrite (int_add_ok (Z.of_nat j) 1) by (unfold INT_MIN, INT_MAX; lia).
    cbn [bind Monad_option].
    replace (Z.of_nat j + 1) with (Z.of_nat (S j)) by lia.
    rewrite IH; [|destruct n; cbn [Nat.eqb Nat.b2n]; lia|unfold INT_MAX; lia].
    cbn [fst snd seq map]. unfold push_back_reserved.
    rewrite <- !app_assoc. cbn [app]. unfold FanSpec.triangle_at, FanSpec.loop_triple.
    repeat f_equal; try lia.
    all: rewrite ?Nat2Z.id; f_equal; lia.
Qed.

Lemma polygon_nth fi off n k :
  (off + n <= List.length fi)%nat -> (k < n)%nat ->
  nth k (FanSpec.polygon fi off n) 0 = nth (off + k) fi 0.
Proof.
  intros Hlen Hk. unfold FanSpec.polygon.
  rewrite nth_firstn. destruct (Nat.ltb_spec k n); [|lia].
  now rewrite nth_skipn.
Qed.

Lemma polygon_length fi off n :
  (off + n <= List.length fi)%nat -> List.length (FanSpec.polygon fi off n) = n.
Proof.
  intros H. unfold FanSpec.polygon. rewrite length_firstn, length_skipn. lia.
Qed.

Lemma fan_polygon fi off n :
  (off + n <= List.length fi)%nat ->
  FanSpec.fan (FanSpec.polygon fi off n) = map (FanSpec.triangle_at fi off) (seq 0 (n - 2)).
Proof.
  intros H. unfold FanSpec.fan. rewrite (polygon_length _ _ _ H).
  apply map_ext_in. intros k Hk. apply in_seq in Hk.
  unfold FanSpec.triangle, FanSpec.triangle_at.
  rewrite (polygon_nth fi off n 0), (polygon_nth fi off n (k + 1)),
    (polygon_nth fi off n (k + 2)) by lia.
  rewrite Nat.add_0_r, !Nat.add_assoc. reflexivity.
Qed.

Lemma faces_loop_spec fi counts : forall off acc,
  Forall (fun N => 3 <= N) counts ->
  Z.of_nat off + fold_right Z.add 0 counts <= Z.of_nat (List.length fi) ->
  Z.of_nat (List.length fi) <= INT_MAX ->
  faces_loop counts fi (Z.of_nat off) acc =
  Some (fst acc ++ FanSpec.triangulation (map Z.to_nat counts) fi off,
        snd acc ++ FanSpec.loops (map Z.to_nat counts) off).
Proof.
  induction counts as [|c rest IH]; intros off acc Hall Hsum Hmax.
  - simpl. rewrite !app_nil_r. now destruct acc.
  - inversion Hall as [|? ? Hc Hrest]; subst. cbn [fold_right] in Hsum.
    assert (Hpos : 0 <= fold_right Z.add 0 rest).
    { clear -Hrest. induction Hrest; simpl; lia. }
    cbn [faces_loop].
    rewrite (int_sub_ok c 2) by (unfold INT_MIN, INT_MAX in *; lia).
    cbn [bind Monad_option].
    pose proof (fan_loop_spec fi off (Z.to_nat (c - 2)) 0%nat acc) as Efan.
    change (Z.of_nat 0) with 0 in Efan.
    rewrite Efan;
      [|destruct (Z.to_nat (c - 2)) eqn:E; cbn [Nat.eqb Nat.b2n]; lia|exact Hmax].
    cbn [bind Monad_option].
    rewrite (int_add_ok (Z.of_nat off) c) by (unfold INT_MIN, INT_MAX in *; lia).
    cbn [bind Monad_option].
    replace (Z.of_nat off + c) with (Z.of_nat (off + Z.to_nat c)) by lia.
    rewrite IH; [|exact Hrest|lia|exact Hmax].
    cbn [fst snd map FanSpec.triangulation FanSpec.loops].
    rewrite fan_polygon by lia. unfold FanSpec.loop_fan.
    replace (Z.to_nat (c - 2)) with (Z.to_nat c - 2)%nat by lia.
    now rewrite <- !app_assoc.
Qed.

Lemma count_triangles_spec counts : forall n,
  Forall (fun N => 3 <= N) counts ->
  0 <= n -> n + fold_right Z.add 0 counts <= INT_MAX ->
  count_triangles counts n = Some (n + fold_right (fun N s => (N - 2) + s) 0 counts).
Proof.
  induction counts as [|c rest IH]; intros n Hall Hn Hsum.
  - simpl. now rewrite Z.add_0_r.
  - inversion Hall as [|? ? Hc Hrest]; subst. cbn [fold_right] in *.
    assert (Hpos : 0 <= fold_right Z.add 0 rest).
    { clear -Hrest. induction Hrest; simpl; lia. }
    cbn [count_triangles].
    rewrite (int_sub_ok c 2) by (unfold INT_MIN, INT_MAX in *; lia).
    cbn [bind Monad_option].
    rewrite Z.mod_small by (unfold INT_MAX in *; lia).
    rewrite IH; [f_equal; lia|exact Hrest|lia|lia].
Qed.

Lemma triangle_at_corners fi off k :
  FanSpec.triangle_at fi off k = FanSpec.corners fi (FanSpec.loop_triple off k).
Proof.
  unfold FanSpec.triangle_at, FanSpec.corners, FanSpec.loop_triple. cbn [ix iy iz].
  now rewrite !Nat2Z.id.
Qed.

Lemma triangulation_corners fi counts : forall off,
  (off + list_sum counts <= List.length fi)%nat ->
  FanSpec.triangulation counts fi off =
  map (FanSpec.corners fi) (FanSpec.loops counts off).
Proof.
  induction counts as [|n rest IH]; intros off H; [reflexivity|].
  change (list_sum (n :: rest)) with (n + list_sum rest)%nat in H.
  cbn [FanSpec.triangulation FanSpec.loops].
  rewrite map_app, <- IH by lia. f_equal.
  rewrite fan_polygon by lia. unfold FanSpec.loop_fan. rewrite map_map.
  apply map_ext. intros k. apply triangle_at_corners.
Qed.

Lemma loops_in_range len counts : forall off,
  (off + list_sum counts <= len)%nat ->
  Forall (FanSpec.in_range len) (FanSpec.loops counts off).
Proof.
  induction counts as [|n rest IH]; intros off H; [constructor|].
  change (list_sum (n :: rest)) with (n + list_sum rest)%nat in H.
  cbn [FanSpec.loops].
  apply Forall_app. split; [|apply IH; lia].
  apply Forall_forall. intros l Hl. unfold FanSpec.loop_fan in Hl.
  apply in_map_iff in Hl. destruct Hl as [k [<- Hk]]. apply in_seq in Hk.
  unfold FanSpec.in_range, FanSpec.loop_triple. cbn [ix iy iz]. lia.
Qed.

Lemma loops_length counts : forall off,
  Z.of_nat (List.length (FanSpec.loops (map Z.to_nat counts) off)) =
  fold_right (fun N s => Z.max 0 (N - 2) + s) 0 counts.
Proof.
  induction counts as [|c rest IH]; intros off; [reflexivity|].
  cbn [map FanSpec.loops fold_right]. rewrite length_app, Nat2Z.inj_add, IH.
  unfold FanSpec.loop_fan. rewrite length_map, length_seq. lia.
Qed.

Lemma list_sum_to_nat counts :
  Forall (fun N => 0 <= N) counts ->
  Z.of_nat (list_sum (map Z.to_nat counts)) = fold_right Z.add 0 counts.
Proof.
  induction 1 as [|c rest Hc _ IH]; [reflexivity|].
  cbn [map fold_right].
  change (list_sum (Z.to_nat c :: map Z.to_nat rest))
    with (Z.to_nat c + list_sum (map Z.to_nat rest))%nat.
  lia.
Qed.

Lemma reserve_granted n :
  0 <= n <= INT_MAX -> reserve sizeof_int3 n = Some n.
Proof.
  intros H. unfold reserve, sizeof_int3, SIZE_MAX, PTRDIFF_MAX, INT_MAX in *.
  rewrite Z.mod_small by lia.
  destruct (Z.leb_spec (16 * n) (2 ^ 63 - 1)) as [_|Hgt]; [|lia].
  f_equal. rewrite Z.mul_comm. apply Z.div_mul. lia.
Qed.

Lemma fans_length counts :
  Forall (fun N => 3 <= N) counts ->
  fold_right (fun N s => Z.max 0 (N - 2) + s) 0 counts =
  fold_right (fun N s => (N - 2) + s) 0 counts.
Proof.
  induction 1 as [|c rest Hc _ IH]; [reflexivity|]. cbn [fold_right]. lia.
Qed.

Lemma fans_bounded counts :
  Forall (fun N => 3 <= N) counts ->
  0 <= fold_right (fun N s => (N - 2) + s) 0 counts <= fold_right Z.add 0 counts.
Proof.
  induction 1 as [|c rest Hc _ IH]; cbn [fold_right]; lia.
Qed.

(** With every polygon of three corners or more, all of them in the face
    list: the room reserved is the number of triangles pushed, and the two
    channels get the fans and their loop triples. *)
Lemma add_triangles_fans fc fi time c :
  Forall (fun N => 3 <= N) fc ->
  fold_right Z.add 0 fc <= Z.of_nat (List.length fi) <= INT_MAX ->
  add_triangles (Some fc) (Some fi) time c =
  Some (set_triangles_loops
          (set_triangles c
             (add_data (triangles c)
                       (FanSpec.triangulation (map Z.to_nat fc) fi 0) time))
          (add_data (triangles_loops c) (FanSpec.loops (map Z.to_nat fc) 0) time)).
Proof.
  intros Hall [Hsum Hmax].
  assert (Hpos : Forall (fun N => 0 <= N) fc).
  { eapply Forall_impl; [|exact Hall]. cbv beta. intros; lia. }
  pose proof (list_sum_to_nat _ Hpos) as Hnat.
  pose proof (fans_bounded fc Hall) as Hb.
  assert (HL : Z.of_nat (List.length (FanSpec.loops (map Z.to_nat fc) 0)) =
               fold_right (fun N s => (N - 2) + s) 0 fc).
  { now rewrite loops_length, fans_length. }
  assert (HT : Z.of_nat (List.length (FanSpec.triangulation (map Z.to_nat fc) fi 0)) =
               fold_right (fun N s => (N - 2) + s) 0 fc).
  { rewrite triangulation_corners by lia. now rewrite length_map. }
  unfold add_triangles.
  rewrite (count_triangles_spec fc 0 Hall) by lia.
  cbn [bind Monad_option]. rewrite Z.add_0_l.
  rewrite reserve_granted by lia. cbn [bind Monad_option].
  pose proof (faces_loop_spec fi fc 0 ([], []) Hall) as E.
  change (Z.of_nat 0) with 0 in E. rewrite E by (assumption || lia).
  cbn [bind Monad_option fst snd app]. unfold in_room.
  rewrite HT, HL, Z.leb_refl. reflexivity.
Qed.

End FanFacts.

(** C3: with every polygon of at least three vertices, all of them present
    in the flattened face list, [add_triangles] returns a cache whose
    triangle channel holds, after what it held, the fans of the polygons
    under the sample time, one fan after the other, and whose loop channel
    holds, after what it held, the triples of flattened corner indices of the
    same triangles; nothing else of the cache changes. A polygon of [N]
    vertices gives [N - 2] triangles, triangle [k] from its first vertex and
    its vertices [k + 1] and [k + 2]; the vertices of a triangle are those at
    the corners of its loop triple; the quad [0, 1, 2, 3] gives (0, 1, 2) and
    (0, 2, 3) in both channels. *)
Theorem C3_fan_triangulation (face_counts face_indices : list Z)
    (time : chrono_t) (cached_data : CachedData) :
  Forall (fun N => 3 <= N)%Z face_counts ->
  (fold_right Z.add 0 face_counts <= Z.of_nat (List.length face_indices) <= INT_MAX)%Z ->
  let T := FanSpec.triangulation (map Z.to_nat face_counts) face_indices 0 in
  let L := FanSpec.loops (map Z.to_nat face_counts) 0 in
  (exists c',
      add_triangles (Some face_counts) (Some face_indices) time cached_data = Some c' /\
      data (triangles c') = data (triangles cached_data) ++ [(time, T)] /\
      data (triangles_loops c') = data (triangles_loops cached_data) ++ [(time, L)] /\
      time_sampling (triangles c') = time_sampling (triangles cached_data) /\
      time_sampling (triangles_loops c') = time_sampling (triangles_loops cached_data) /\
      vertices c' = vertices cached_data /\
      transforms c' = transforms cached_data /\
      curve_keys c' = curve_keys cached_data /\
      curve_radius c' = curve_radius cached_data /\
      curve_first_key c' = curve_first_key cached_data /\
      curve_shader c' = curve_shader cached_data /\
      attributes c' = attributes cached_data) /\
  (forall poly, List.length (FanSpec.fan poly) = (List.length poly - 2)%nat) /\
  (forall poly k, (k < List.length poly - 2)%nat ->
                  nth_error (FanSpec.fan poly) k = Some (FanSpec.triangle poly k)) /\
  Z.of_nat (List.length T) = fold_right (fun N s => (N - 2) + s)%Z 0%Z face_counts /\
  List.length L = List.length T /\
  count_triangles face_counts 0 = Some (Z.of_nat (List.length T)) /\
  T = map (FanSpec.corners face_indices) L /\
  Forall (FanSpec.in_range (List.length face_indices)) L /\
  (exists c',
      add_triangles (Some [4]%Z) (Some [0; 1; 2; 3]%Z) time cached_data = Some c' /\
      data (triangles c') =
        data (triangles cached_data) ++ [(time, [make_int3 0 1 2; make_int3 0 2 3])] /\
      data (triangles_loops c') =
        data (triangles_loops cached_data) ++
        [(time, [make_int3 0 1 2; make_int3 0 2 3])]).
Proof.
  intros Hall [Hsum Hmax] T L.
  assert (Hpos : Forall (fun N => 0 <= N)%Z face_counts).
  { eapply Forall_impl; [|exact Hall]. cbv beta. intros; lia. }
  pose proof (list_sum_to_nat _ Hpos) as Hnat.
  assert (HTL : T = map (FanSpec.corners face_indices) L).
  { apply triangulation_corners. lia. }
  assert (Hlen : Z.of_nat (List.length T) =
                 fold_right (fun N s => (N - 2) + s)%Z 0%Z face_counts).
  { rewrite HTL, length_map. unfold L. now rewrite loops_length, fans_length. }
  split; [|split; [|split; [|split; [|split; [|split; [|split; [|split]]]]]]].
  - eexists. split; [apply add_triangles_fans; [exact Hall|split; assumption]|].
    cbn [triangles triangles_loops vertices transforms curve_keys curve_radius
         curve_first_key curve_shader attributes set_triangles set_triangles_loops
         add_data data time_sampling].
    repeat split.
  - intros poly. unfold FanSpec.fan. now rewrite length_map, length_seq.
  - intros poly k Hk. unfold FanSpec.fan.
    rewrite nth_error_map, nth_error_seq.
    destruct (Nat.ltb_spec k (List.length poly - 2)); [reflexivity|lia].
  - exact Hlen.
  - rewrite HTL. now rewrite length_map.
  - rewrite (count_triangles_spec face_counts 0 Hall) by lia. now rewrite Hlen.
  - exact HTL.
  - apply loops_in_range. lia.
  - eexists. split; [reflexivity|].
    cbn [triangles triangles_loops set_triangles set_triangles_loops add_data data].
    split; reflexivity.
Qed.

Lemma C3_fan_triangulation_witness :
  let cached_data := CachedData_empty (mkTimeSampling (fun _ => 0)) in
  Forall (fun N => 3 <= N)%Z [4; 3]%Z /\
  (fold_right Z.add 0 [4; 3] <= Z.of_nat (List.length [0; 1; 2; 3; 2; 3; 4]%Z) <= INT_MAX)%Z /\
  exists c',
    add_triangles (Some [4; 3]%Z) (Some [0; 1; 2; 3; 2; 3; 4]%Z) 0.5 cached_data = Some c' /\
    data (triangles c') =
      [(0.5, [make_int3 0 1 2; make_int3 0 2 3; make_int3 2 3 4])] /\
    data (triangles_loops c') =
      [(0.5, [make_int3 0 1 2; make_int3 0 2 3; make_int3 4 5 6])].
Proof.
  assert (H1 : Forall (fun N => 3 <= N)%Z [4; 3]%Z).
  { repeat constructor; lia. }
  assert (H2 : (fold_right Z.add 0 [4; 3] <=
                Z.of_nat (List.length [0; 1; 2; 3; 2; 3; 4]%Z) <= INT_MAX)%Z).
  { unfold INT_MAX. simpl. lia. }
  split; [exact H1|]. split; [exact H2|].
  destruct (proj1 (C3_fan_triangulation [4; 3]%Z [0; 1; 2; 3; 2; 3; 4]%Z 0.5
                     (CachedData_empty (mkTimeSampling (fun _ => 0))) H1 H2))
    as (c' & E & Ht & Hl & _).
  exists c'. split; [exact E|]. split; [exact Ht|exact Hl].
Defined.

(** ** The arrays of a curve sample *)

Section CurveFacts.
Local Open Scope Z_scope.

Lemma skipn_cons_nth {A : Type} (l : list A) (k : nat) (d : A) :
  (k < List.length l)%nat -> skipn k l = nth k l d :: skipn (S k) l.
Proof.
  revert k. induction l as [|a l IH]; intros k H; [simpl in H; lia|].
  destruct k as [|k]; [reflexivity|].
  cbn [skipn nth]. apply IH. simpl in H. lia.
Qed.

Lemma firstn_plus {A : Type} (l : list A) (a b : nat) :
  firstn (a + b) l = firstn a l ++ firstn b (skipn a l).
Proof.
  revert l. induction a as [|a IH]; intros l; [reflexivity|].
  destruct l as [|x l]; [now rewrite !firstn_nil|].
  cbn [Nat.add firstn skipn app]. now rewrite IH.
Qed.

Lemma keys_loop_spec position off iters : forall j acc,
  Z.of_nat (off + j + iters) <= Z.of_nat (List.length position) ->
  Z.of_nat (List.length position) <= INT_MAX ->
  keys_loop iters (Z.of_nat j) position (Z.of_nat off) acc =
  Some (fst acc ++ map make_float3_from_yup (firstn iters (skipn (off + j) position)),
        snd acc ++ repeat placeholder_radius iters).
Proof.
  induction iters as [|n IH]; intros j [K R] Hlen Hmax.
  - simpl. now rewrite !app_nil_r.
  - cbn [keys_loop].
    rewrite (int_add_ok (Z.of_nat off) (Z.of_nat j)) by (unfold INT_MIN, INT_MAX in *; lia).
    cbn [bind Monad_option].
    rewrite (array_get_ok position _ (make_float3 0 0 0)) by lia.
    cbn [bind Monad_option].
    rewrite (int_add_ok (Z.of_nat j) 1) by (unfold INT_MIN, INT_MAX in *; lia).
    cbn [bind Monad_option].
    replace (Z.of_nat j + 1) with (Z.of_nat (S j)) by lia.
    rewrite IH by lia. cbn [fst snd]. unfold push_back_reserved.
    rewrite <- !app_assoc. cbn [app repeat].
    rewrite (skipn_cons_nth position (off + j) (make_float3 0 0 0)) by lia.
    cbn [firstn map].
    replace (Z.to_nat (Z.of_nat off + Z.of_nat j)) with (off + j)%nat by lia.
    replace (off + S j)%nat with (S (off + j)) by lia.
    reflexivity.
Qed.

Lemma total_nonneg counts :
  Forall (fun n => 0 <= n) counts -> 0 <= CurveSpec.total counts.
Proof. induction 1; unfold CurveSpec.total in *; simpl; lia. Qed.

Lemma curves_loop_spec position counts : forall off acc,
  Forall (fun n => 0 <= n) counts ->
  Z.of_nat off + CurveSpec.total counts <= Z.of_nat (List.length position) ->
  Z.of_nat (List.length position) <= INT_MAX ->
  curves_loop counts position (Z.of_nat off) acc =
  Some (mkCurveArrays
          (keys acc ++ map make_float3_from_yup
                           (firstn (Z.to_nat (CurveSpec.total counts)) (skipn off position)))
          (radius acc ++ repeat placeholder_radius (Z.to_nat (CurveSpec.total counts)))
          (first_key acc ++
             map (fun i => Z.of_nat off + CurveSpec.running_offset counts i)
                 (seq 0 (List.length counts)))
          (shader acc ++ repeat 0 (List.length counts))).
Proof.
  induction counts as [|c rest IH]; intros off acc Hall Hsum Hmax.
  - simpl. rewrite !app_nil_r. now destruct acc.
  - inversion Hall as [|? ? Hc Hrest]; subst.
    pose proof (total_nonneg _ Hrest) as Hpos.
    change (CurveSpec.total (c :: rest)) with (c + CurveSpec.total rest) in *.
    cbn [curves_loop].
    pose proof (keys_loop_spec position off (Z.to_nat c) 0%nat (keys acc, radius acc)) as E.
    change (Z.of_nat 0) with 0 in E. rewrite E by lia. clear E.
    cbn [bind Monad_option fst snd].
    rewrite (int_add_ok (Z.of_nat off) c) by (unfold INT_MIN, INT_MAX in *; lia).
    cbn [bind Monad_option].
    replace (Z.of_nat off + c) with (Z.of_nat (off + Z.to_nat c)) by lia.
    rewrite IH by (assumption || lia).
    cbn [keys radius first_key shader]. unfold push_back_reserved.
    rewrite <- !app_assoc. f_equal. f_equal.
    + f_equal. rewrite <- map_app. f_equal.
      rewrite Z2Nat.inj_add by lia. rewrite firstn_plus, skipn_skipn.
      now rewrite Nat.add_0_r, (Nat.add_comm (Z.to_nat c) off).
    + f_equal. rewrite Z2Nat.inj_add by lia. now rewrite repeat_app.
    + f_equal. cbn [List.length app]. rewrite <- cons_seq. cbn [map].
      rewrite <- seq_shift, map_map. f_equal.
      * unfold CurveSpec.running_offset. simpl. lia.
      * apply map_ext. intros i. unfold CurveSpec.running_offset.
        cbn [firstn fold_right]. lia.
Qed.

(** With counts that are not negative and every key in the position array,
    no array is pushed past its room. *)
Lemma curve_arrays_in_room counts position :
  Forall (fun n => 0 <= n) counts ->
  CurveSpec.total counts <= Z.of_nat (List.length position) <= INT_MAX ->
  curve_arrays (Some counts) (Some position) =
  curves_loop counts position 0 (mkCurveArrays [] [] [] []).
Proof.
  intros Hall [Hsum Hmax].
  pose proof (total_nonneg _ Hall) as Hpos.
  pose proof (curves_loop_spec position counts 0 (mkCurveArrays [] [] [] []) Hall) as E.
  change (Z.of_nat 0) with 0 in E. cbn [keys radius first_key shader app skipn] in E.
  unfold curve_arrays. cbn [bind Monad_option]. rewrite E by lia.
  cbn [bind Monad_option keys radius first_key shader]. unfold in_room.
  rewrite length_map, length_firstn, !repeat_length, length_map, length_seq.
  destruct (Z.leb_spec (Z.of_nat (Nat.min (Z.to_nat (CurveSpec.total counts))
                                          (List.length position)))
                       (Z.of_nat (List.length position))) as [_|H]; [|lia].
  destruct (Z.leb_spec (Z.of_nat (Z.to_nat (CurveSpec.total counts)))
                       (Z.of_nat (List.length position))) as [_|H]; [|lia].
  rewrite Z.leb_refl. reflexivity.
Qed.

End CurveFacts.

(** C7: with every vertex count non-negative and all the keys present in the
    position array, the arrays built from a curve sample are: the keys, the
    positions in their order, each through the up-axis conversion; one
    placeholder radius per key; per curve, a first key equal to its running
    offset and a shader index zero. The keys of curve [i] are the
    [curves_num_vertices[i]] positions from its running offset. *)
Theorem C7_curve_arrays (curves_num_vertices : list Z) (position : list V3f) :
  Forall (fun n => 0 <= n)%Z curves_num_vertices ->
  (CurveSpec.total curves_num_vertices <= Z.of_nat (List.length position) <= INT_MAX)%Z ->
  exists a,
    curve_arrays (Some curves_num_vertices) (Some position) = Some a /\
    keys a = map make_float3_from_yup
                 (firstn (Z.to_nat (CurveSpec.total curves_num_vertices)) position) /\
    radius a = repeat placeholder_radius (List.length (keys a)) /\
    first_key a = map (CurveSpec.running_offset curves_num_vertices)
                      (seq 0 (List.length curves_num_vertices)) /\
    shader a = repeat 0%Z (List.length curves_num_vertices) /\
    (forall i j,
        (i < List.length curves_num_vertices)%nat ->
        (0 <= j < nth i curves_num_vertices 0)%Z ->
        let key := Z.to_nat (CurveSpec.running_offset curves_num_vertices i + j) in
        exists f, nth_error position key = Some f /\
                  nth_error (keys a) key = Some (make_float3_from_yup f)).
Proof.
  intros Hall [Hsum Hmax].
  pose proof (total_nonneg _ Hall) as Hpos.
  pose proof (curves_loop_spec position curves_num_vertices 0
                (mkCurveArrays [] [] [] []) Hall) as E.
  change (Z.of_nat 0) with 0%Z in E. cbn [keys radius first_key shader app skipn] in E.
  eexists. split; [rewrite curve_arrays_in_room by (assumption || lia); apply E; lia|].
  cbn [keys radius first_key shader].
  split; [reflexivity|]. split; [|split; [|split; [reflexivity|]]].
  - f_equal. rewrite length_map, length_firstn. lia.
  - apply map_ext. intros i. lia.
  - intros i j Hi Hj. cbv zeta.
    set (key := Z.to_nat (CurveSpec.running_offset curves_num_vertices i + j)).
    assert (Hkey : (key < Z.to_nat (CurveSpec.total curves_num_vertices))%nat).
    { subst key. clear -Hall Hi Hj. revert i Hi Hj.
      induction Hall as [|c rest Hc Hrest IH]; intros i Hi Hj; [simpl in Hi; lia|].
      pose proof (total_nonneg _ Hrest) as Hpos.
      change (CurveSpec.total (c :: rest)) with (c + CurveSpec.total rest)%Z.
      destruct i as [|i].
      - unfold CurveSpec.running_offset. simpl in *. lia.
      - specialize (IH i). cbn [List.length nth] in *.
        change (CurveSpec.running_offset (c :: rest) (S i))
          with (c + CurveSpec.running_offset rest i)%Z.
        assert (0 <= CurveSpec.running_offset rest i)%Z.
        { unfold CurveSpec.running_offset. apply total_nonneg.
          clear -Hrest. revert i. induction Hrest; intros [|i]; simpl; constructor; auto. }
        lia. }
    destruct (nth_error position key) as [f|] eqn:Ef.
    + exists f. split; [reflexivity|].
      rewrite nth_error_map, nth_error_firstn.
      destruct (Nat.ltb_spec key (Z.to_nat (CurveSpec.total curves_num_vertices)));
        [|lia].
      now rewrite Ef.
    + apply nth_error_None in Ef. lia.
Qed.

Lemma C7_curve_arrays_witness :
  let position :=
    [make_float3 0 0 0; make_float3 1 2 3; make_float3 4 5 6;
     make_float3 7 8 9; make_float3 1 0 1] in
  Forall (fun n => 0 <= n)%Z [2; 3]%Z /\
  (CurveSpec.total [2; 3] <= Z.of_nat (List.length position) <= INT_MAX)%Z /\
  exists a,
    curve_arrays (Some [2; 3]%Z) (Some position) = Some a /\
    first_key a = [0; 2]%Z /\ shader a = [0; 0]%Z /\
    nth_error (keys a) 3 = Some (make_float3 7 (-9) 8).
Proof.
  cbv zeta.
  assert (H1 : Forall (fun n => 0 <= n)%Z [2; 3]%Z).
  { repeat constructor; lia. }
  split; [exact H1|].
  match goal with |- ?P /\ _ => assert (H2 : P) end.
  { unfold INT_MAX, CurveSpec.total. simpl. lia. }
  split; [exact H2|].
  destruct (C7_curve_arrays [2; 3]%Z _ H1 H2) as (a & Ha & _ & _ & Hf & Hs & Hk).
  exists a. split; [exact Ha|]. split; [exact Hf|]. split; [exact Hs|].
  destruct (Hk 1%nat 1%Z) as (f & Hp & Hkey); [simpl; lia|simpl; lia|].
  simpl in Hp. injection Hp as <-. exact Hkey.
Defined.

(** ** Up-axis conversion *)

Lemma opp_involutive (a : float) : (- - a)%float = a.
Proof.
  apply Prim2SF_inj. rewrite !opp_spec.
  destruct (Prim2SF a) as [s|s| |s m e]; simpl; now rewrite ?negb_involutive.
Qed.

Lemma add_positions_map (positions : list V3f) (time : chrono_t) (cached_data : CachedData) :
  add_positions (Some positions) time cached_data =
  set_vertices cached_data
    (add_data (vertices cached_data) (map make_float3_from_yup positions) time).
Proof.
  unfold add_positions. do 2 f_equal.
  change (map make_float3_from_yup positions)
    with ([] ++ map make_float3_from_yup positions).
  generalize (@nil Vec3) as acc.
  induction positions as [|f l IH]; intros acc; simpl.
  - now rewrite app_nil_r.
  - rewrite IH. unfold push_back_reserved. now rewrite <- app_assoc.
Qed.

(** C6: the vector remap is [(x, y, z) -> (x, -z, y)]; the positions of a
    mesh sample enter the vertex channel through it, in their order; the
    matrix conversion recomposes scale * rotation * translation from the
    decomposed scale remapped to [(x, z, y)] and the decomposed rotation and
    translation remapped to [(x, -z, y)], and has no result on a matrix that
    the decomposition refuses; and the inverse remap applied after the remap
    gives the vector back. *)
Theorem C6_up_axis_conversion {imath : Imath} :
  (forall vx vy vz,
      make_float3_from_yup (make_float3 vx vy vz) = make_float3 vx (- vz) vy) /\
  (forall positions time cached_data,
      vertices (add_positions (Some positions) time cached_data) =
      add_data (vertices cached_data) (map make_float3_from_yup positions) time) /\
  (forall mtx,
      convert_yup_zup mtx =
      match extractSHRT mtx with
      | Some (scale, shear, rotation, translation) =>
          Some (M44d_mul
                  (M44d_mul (setScale (make_float3 (x scale) (z scale) (y scale)))
                            (setEulerAngles
                               (make_float3 (x rotation) (- z rotation) (y rotation))))
                  (setTranslation
                     (make_float3 (x translation) (- z translation) (y translation))))
      | None => None
      end) /\
  (forall v, UpAxisSpec.make_float3_to_yup (make_float3_from_yup v) = v).
Proof.
  split; [reflexivity|]. split; [|split].
  - intros. now rewrite add_positions_map.
  - intros mtx. unfold convert_yup_zup.
    now destruct (extractSHRT mtx) as [[[[scale shear] rotation] translation]|].
  - intros [vx vy vz]. unfold UpAxisSpec.make_float3_to_yup, make_float3_from_yup.
    cbn [x y z]. now rewrite opp_involutive.
Qed.

(** ** Transform finalization *)

Section TransformCacheFacts.
Context {imath : Imath}.

(** The loop over the samples adds the converted samples, when they all
    convert. *)
Lemma add_all_transforms samples : forall tr,
  foldM (fun tr pair => tfm <- make_transform (snd pair) ;;
                        ret (add_data tr tfm (fst pair))) samples tr =
  (l <- TransformSpec.make_transforms samples ;;
   ret (mkDataStore (data tr ++ l) (time_sampling tr))).
Proof.
  induction samples as [|pair samples IH]; intros tr.
  - cbn. rewrite app_nil_r. now destruct tr.
  - cbn [foldM TransformSpec.make_transforms bind Monad_option ret].
    destruct (make_transform (snd pair)) as [tfm|]; [|reflexivity].
    rewrite IH. cbn [bind Monad_option ret].
    destruct (TransformSpec.make_transforms samples) as [l|]; [|reflexivity].
    cbn [add_data data time_sampling]. now rewrite <- app_assoc.
Qed.

(** The finalization adds the entries of [added_transforms] to the transform
    channel and gives it the time sampling of the vertices; it has a result
    exactly when every conversion it makes has one. *)
Lemma setup_transform_cache_added o :
  setup_transform_cache o =
  (added <- TransformSpec.added_transforms (xform_samples o) ;;
   ret (set_cached_data o
          (set_transforms (cached_data o)
             (mkDataStore (data (transforms (cached_data o)) ++ added)
                          (time_sampling (vertices (cached_data o))))))).
Proof.
  unfold setup_transform_cache, TransformSpec.added_transforms, TransformSpec.animated,
    TransformSpec.compared_matrix.
  destruct (xform_samples o) as [|first rest]; [reflexivity|].
  destruct (existsb _ (first :: rest)); cbn [negb].
  - rewrite add_all_transforms. cbn [bind Monad_option ret].
    now destruct (TransformSpec.make_transforms (first :: rest)).
  - cbn [bind Monad_option ret].
    now destruct (make_transform (M44d_fill (fst first))).
Qed.

(** Without transform samples, one identity transform at time zero. *)
Lemma setup_transform_cache_no_samples o :
  xform_samples o = [] ->
  option_map (fun o' => data (transforms (cached_data o'))) (setup_transform_cache o) =
  Some (data (transforms (cached_data o)) ++ [(0, transform_identity)]).
Proof. intros H. rewrite setup_transform_cache_added, H. reflexivity. Qed.

(** With a sample that differs from the matrix filled with the first sample
    time, every sample is kept under its own time. *)
Lemma setup_transform_cache_animated o first rest :
  xform_samples o = first :: rest ->
  existsb (fun pair => M44d_neq (snd pair) (M44d_fill (fst first))) (first :: rest) = true ->
  option_map (fun o' => data (transforms (cached_data o'))) (setup_transform_cache o) =
  option_map (fun l => data (transforms (cached_data o)) ++ l)
             (TransformSpec.make_transforms (first :: rest)).
Proof.
  intros H Hany. rewrite setup_transform_cache_added, H.
  unfold TransformSpec.added_transforms, TransformSpec.animated,
    TransformSpec.compared_matrix.
  rewrite Hany.
  now destruct (TransformSpec.make_transforms (first :: rest)).
Qed.

End TransformCacheFacts.

(** C2: an object with the two transform samples (0, identity) and
    (1, identity). No sample differs from the first one, and the transform
    channel of the finalized cache still gets the two samples, each under its
    own time: the samples are compared with the matrix filled with the first
    sample time, not with the first sample matrix. (The finalization has a
    result when the identity converts to a transform, and this transform is
    stored twice.) *)
Theorem C2_equal_samples_are_not_collapsed {imath : Imath}
    (node : IObject) (requests : list (list string)) (cd : CachedData) (loaded : bool) :
  let samples := [(0, M44d_identity); (1, M44d_identity)] in
  let o := mkAlembicObject node requests samples cd loaded in
  existsb (fun pair => M44d_neq (snd pair) M44d_identity) samples = false /\
  option_map (fun o' => data (transforms (cached_data o'))) (setup_transform_cache o) =
  option_map (fun tfm => data (transforms cd) ++ [(0, tfm); (1, tfm)])
             (make_transform M44d_identity).
Proof.
  split; [reflexivity|].
  unfold setup_transform_cache. cbn.
  destruct (make_transform M44d_identity) as [tfm|]; [|reflexivity].
  cbn. now rewrite <- app_assoc.
Qed.

(** ** The per-sample loop and its polls *)

Section LoopFacts.
Context {imath : Imath} {util : CyclesUtil}.

Lemma set_cached_data_same o : set_cached_data o (cached_data o) = o.
Proof. now destruct o. Qed.

Lemma foldM_app {A B : Type} (f : B -> A -> option B) (l1 l2 : list A) (b : B) :
  foldM f (l1 ++ l2) b = (b' <- foldM f l1 b ;; foldM f l2 b').
Proof.
  revert b. induction l1 as [|a l1 IH]; intros b; [reflexivity|].
  cbn [app foldM]. destruct (f b a) as [b'|]; [apply IH|reflexivity].
Qed.

(** The loop, when the flag is found set at its poll [c]: the bodies of the
    first [c] indices have run, and the routine returns. *)
Lemma sample_loop_cancelled body progress : forall iters i r c,
  (c < iters)%nat ->
  (forall k, (k < c)%nat -> get_cancel progress (polls r + k) = false) ->
  get_cancel progress (polls r + c) = true ->
  sample_loop body progress iters i r =
  (cd <- foldM (fun cd k => body k cd) (seq i c) (cached_data (object r)) ;;
   ret (mkRun (set_cached_data (object r) cd) (S (polls r + c)) (processed r ++ seq i c),
        Cancelled)).
Proof.
  induction iters as [|n IH]; intros i r c Hc Hfalse Htrue; [lia|].
  cbn [sample_loop]. destruct c as [|c].
  - rewrite Nat.add_0_r in Htrue. rewrite Htrue. cbn [seq foldM bind Monad_option ret].
    now rewrite set_cached_data_same, app_nil_r, Nat.add_0_r.
  - pose proof (Hfalse 0%nat ltac:(lia)) as H0. rewrite Nat.add_0_r in H0.
    rewrite H0. cbn [seq foldM object polls processed].
    destruct (body i (cached_data (object r))) as [cd|]; [|reflexivity].
    cbn [bind Monad_option].
    rewrite (IH (S i) _ c); cbn [object polls processed].
    + destruct (object r); cbn [set_cached_data cached_data shader_requests
                                 xform_samples data_loaded iobject].
      destruct (foldM _ _ cd); [|reflexivity]. cbn [bind Monad_option ret].
      now rewrite <- app_assoc, Nat.add_succ_r.
    + lia.
    + intros k Hk. rewrite <- (Hfalse (S k)) by lia. f_equal. lia.
    + rewrite <- Htrue. f_equal. lia.
Qed.

End LoopFacts.

(** ** The sizes of the channels *)

Section SizeFacts.
Context {imath : Imath} {util : CyclesUtil}.

Import CacheSpec.

Lemma attrs_bounded_weaken n extra name l :
  attrs_bounded n extra l -> attrs_bounded n (name :: extra) l.
Proof.
  unfold attrs_bounded. apply Forall_impl. intros a H. cbn [existsb].
  destruct (String.eqb (attr_name a) name); cbn [orb]; [|exact H].
  destruct (existsb _ extra); lia.
Qed.

Lemma update_attribute_same n extra name f c :
  (forall a, attr_name (f a) = attr_name a /\ attr_data (f a) = attr_data a) ->
  attrs_bounded n extra (attributes c) ->
  attrs_bounded n extra (attributes (update_attribute c name f)).
Proof.
  intros Hf H. unfold update_attribute. cbn [attributes set_attributes].
  unfold attrs_bounded in *. rewrite Forall_map.
  eapply Forall_impl; [|exact H]. cbv beta. intros a Ha.
  destruct (String.eqb (attr_name a) name); [|exact Ha].
  destruct (Hf a) as [-> ->]. exact Ha.
Qed.

Lemma update_attribute_add n extra name f c :
  (forall a, attr_name (f a) = attr_name a /\
             size (attr_data (f a)) <= S (size (attr_data a))) ->
  existsb (String.eqb name) extra = false ->
  attrs_bounded n extra (attributes c) ->
  attrs_bounded n (name :: extra) (attributes (update_attribute c name f)).
Proof.
  intros Hf Hnew H. unfold update_attribute. cbn [attributes set_attributes].
  unfold attrs_bounded in *. rewrite Forall_map.
  eapply Forall_impl; [|exact H]. cbv beta. intros a Ha.
  destruct (String.eqb_spec (attr_name a) name) as [E|E].
  - destruct (Hf a) as [-> Hs]. cbn [existsb]. rewrite E, String.eqb_refl. cbn [orb].
    rewrite E, Hnew in Ha. lia.
  - cbn [existsb]. apply String.eqb_neq in E. rewrite E. exact Ha.
Qed.

Lemma stores_add_attribute c name : stores (add_attribute c name) = stores c.
Proof. unfold add_attribute. now destruct (existsb _ _). Qed.

Lemma add_attribute_bounded n extra name c :
  attrs_bounded n extra (attributes c) ->
  attrs_bounded n extra (attributes (add_attribute c name)).
Proof.
  intros H. unfold add_attribute. destruct (existsb _ _); [exact H|].
  cbn [attributes set_attributes]. apply Forall_app. split; [exact H|].
  constructor; [|constructor]. cbn. lia.
Qed.

Ltac metadata_only :=
  let a := fresh "a" in intros a; destruct a; split; reflexivity.

Ltac one_more_entry :=
  let a := fresh "a" in
  intros a; destruct a; split; [reflexivity|];
  cbn; unfold size; cbn; rewrite length_app; cbn; lia.

(** A property adds at most one entry, to the attribute it is read for, and
    only when it bears the name of that attribute. *)
Lemma read_property_bounded n extra index name c prop c' :
  read_property index name c prop = Some c' ->
  existsb (String.eqb name) extra = false ->
  attrs_bounded n extra (attributes c) ->
  stores c' = stores c /\
  attrs_bounded n (name :: extra) (attributes c') /\
  (String.eqb (prop_getName prop) name = false -> c' = c).
Proof.
  unfold read_property. intros H Hnew Hb.
  destruct (String.eqb (prop_getName prop) name) eqn:En; cbn [negb] in H.
  2:{ injection H as <-. repeat split; auto using attrs_bounded_weaken. }
  assert (Hw : forall c0, attrs_bounded n extra (attributes c0) ->
                          attrs_bounded n (name :: extra) (attributes c0))
    by (intros; now apply attrs_bounded_weaken).
  destruct (prop_data prop) as [gi|gi|gi|].
  - destruct (GeometryScope_eqb _ _).
    2:{ injection H as <-. repeat split; auto; discriminate. }
    match type of H with context [update_attribute c name ?f] =>
      set (c1 := update_attribute c name f) in *;
      assert (H1 : attrs_bounded n extra (attributes c1))
        by (apply update_attribute_same; [metadata_only|exact Hb])
    end.
    destruct (data_for_time _ (triangles c1) _) as [tris|];
      [destruct (data_for_time _ (triangles_loops c1) _) as [loops|]|];
      try (injection H as <-; repeat split; auto; discriminate).
    destruct (float2_corners _ _ _ _) as [d|]; [|discriminate].
    cbn [bind Monad_option ret] in H. injection H as <-.
    repeat split; try discriminate.
    apply update_attribute_add; [one_more_entry|exact Hnew|exact H1].
  - match type of H with context [update_attribute c name ?f] =>
      set (c1 := update_attribute c name f) in *;
      assert (H1 : attrs_bounded n extra (attributes c1))
        by (apply update_attribute_same; [metadata_only|exact Hb])
    end.
    destruct (GeometryScope_eqb _ _).
    2:{ injection H as <-. repeat split; auto; discriminate. }
    match type of H with context [update_attribute c1 name ?f] =>
      set (c2 := update_attribute c1 name f) in *;
      assert (H2 : attrs_bounded n extra (attributes c2))
        by (apply update_attribute_same; [metadata_only|exact H1])
    end.
    destruct (data_for_time _ (triangles c2) _) as [tris|];
      try (injection H as <-; repeat split; auto; discriminate).
    destruct (uchar4_corners _ _ _) as [d|]; [|discriminate].
    cbn [bind Monad_option ret] in H. injection H as <-.
    repeat split; try discriminate.
    apply update_attribute_add; [one_more_entry|exact Hnew|exact H2].
  - match type of H with context [update_attribute c name ?f] =>
      set (c1 := update_attribute c name f) in *;
      assert (H1 : attrs_bounded n extra (attributes c1))
        by (apply update_attribute_same; [metadata_only|exact Hb])
    end.
    destruct (GeometryScope_eqb _ _).
    2:{ injection H as <-. repeat split; auto; discriminate. }
    match type of H with context [update_attribute c1 name ?f] =>
      set (c2 := update_attribute c1 name f) in *;
      assert (H2 : attrs_bounded n extra (attributes c2))
        by (apply update_attribute_same; [metadata_only|exact H1])
    end.
    destruct (data_for_time _ (triangles c2) _) as [tris|];
      try (injection H as <-; repeat split; auto; discriminate).
    destruct (uchar4_corners _ _ _) as [d|]; [|discriminate].
    cbn [bind Monad_option ret] in H. injection H as <-.
    repeat split; try discriminate.
    apply update_attribute_add; [one_more_entry|exact Hnew|exact H2].
  - injection H as <-. repeat split; auto; discriminate.
Qed.

Lemma read_properties_unmatched index name props : forall c,
  (forall p, In p props -> String.eqb (prop_getName p) name = false) ->
  foldM (read_property index name) props c = Some c.
Proof.
  induction props as [|p props IH]; intros c H; [reflexivity|].
  cbn [foldM]. unfold read_property at 1.
  rewrite (H p (or_introl eq_refl)). cbn [negb bind Monad_option ret].
  apply IH. intros q Hq. apply H. now right.
Qed.

Lemma read_properties_bounded n extra index name props : forall c c',
  NoDup (map prop_getName props) ->
  foldM (read_property index name) props c = Some c' ->
  existsb (String.eqb name) extra = false ->
  attrs_bounded n extra (attributes c) ->
  stores c' = stores c /\ attrs_bounded n (name :: extra) (attributes c').
Proof.
  induction props as [|p props IH]; intros c c' Hnd H Hnew Hb.
  - injection H as <-. split; [reflexivity|now apply attrs_bounded_weaken].
  - cbn [foldM] in H. inversion Hnd as [|? ? Hnotin Hnd']; subst.
    destruct (read_property index name c p) as [c1|] eqn:E1; [|discriminate].
    cbn [bind Monad_option] in H.
    destruct (read_property_bounded n extra _ _ _ _ _ E1 Hnew Hb) as (Hs1 & Hb1 & Hsame).
    destruct (String.eqb (prop_getName p) name) eqn:En.
    + rewrite read_properties_unmatched in H.
      * injection H as <-. split; assumption.
      * intros q Hq. destruct (String.eqb_spec (prop_getName q) name) as [Eq|]; [|reflexivity].
        exfalso. apply Hnotin. apply String.eqb_eq in En. rewrite En, <- Eq.
        now apply in_map.
    + rewrite (Hsame eq_refl) in H. now apply (IH c c').
Qed.

Lemma read_attribute_bounded n extra props index name c c' :
  NoDup (map prop_getName props) ->
  read_attribute props index name c = Some c' ->
  existsb (String.eqb name) extra = false ->
  attrs_bounded n extra (attributes c) ->
  stores c' = stores c /\ attrs_bounded n (name :: extra) (attributes c').
Proof.
  unfold read_attribute. intros Hnd H Hnew Hb.
  destruct (read_properties_bounded n extra _ _ _ _ _ Hnd H Hnew) as [Hs Hb'].
  - now apply add_attribute_bounded.
  - split; [|exact Hb']. now rewrite Hs, stores_add_attribute.
Qed.

Lemma read_attributes_bounded n props index requested : forall extra c c',
  NoDup (map prop_getName props) ->
  NoDup requested ->
  (forall name, In name requested -> existsb (String.eqb name) extra = false) ->
  foldM (fun cd attr => read_attribute props index attr cd) requested c = Some c' ->
  attrs_bounded n extra (attributes c) ->
  stores c' = stores c /\ attrs_bounded n (rev requested ++ extra) (attributes c').
Proof.
  induction requested as [|name requested IH]; intros extra c c' Hp Hnd Hnew H Hb.
  - injection H as <-. split; [reflexivity|exact Hb].
  - cbn [foldM] in H. inversion Hnd as [|? ? Hnotin Hnd']; subst.
    destruct (read_attribute props index name c) as [c1|] eqn:E1; [|discriminate].
    cbn [bind Monad_option] in H.
    destruct (read_attribute_bounded n extra _ _ _ _ _ Hp E1) as [Hs1 Hb1];
      [apply Hnew; now left|exact Hb|].
    destruct (IH (name :: extra) c1 c' Hp Hnd') as [Hs Hb']; auto.
    + intros nm Hnm. cbn [existsb].
      rewrite (Hnew nm (or_intror Hnm)), orb_false_r.
      apply String.eqb_neq. intros ->. contradiction.
    + split; [congruence|]. cbn [rev]. now rewrite <- app_assoc.
Qed.

Lemma attrs_bounded_S n extra l :
  attrs_bounded n extra l -> Forall (fun a => size (attr_data a) <= S n) l.
Proof.
  apply Forall_impl. intros a H. destruct (existsb _ extra); lia.
Qed.

Lemma AttributeRequestSet_add_NoDup requests name :
  NoDup requests -> NoDup (AttributeRequestSet_add requests name).
Proof.
  intros H. unfold AttributeRequestSet_add.
  destruct (existsb (String.eqb name) requests) eqn:E; [exact H|].
  apply NoDup_app; [exact H|repeat constructor; intros []|].
  intros a Ha [Heq|[]]. subst a.
  assert (existsb (String.eqb name) requests = true); [|congruence].
  apply existsb_exists. exists name. split; [exact Ha|apply String.eqb_refl].
Qed.

Lemma get_requested_attributes_NoDup o : NoDup (get_requested_attributes o).
Proof.
  unfold get_requested_attributes.
  assert (H : NoDup (@nil string)) by constructor.
  revert H. generalize (@nil string) as acc.
  induction (shader_requests o) as [|shader l IH]; intros acc H; [exact H|].
  cbn [fold_left]. apply IH. clear IH. revert acc H.
  induction shader as [|name shader IH]; intros acc H; [exact H|].
  cbn [fold_left]. apply IH.
  destruct (negb (String.eqb name EmptyString)); [|exact H].
  now apply AttributeRequestSet_add_NoDup.
Qed.

Lemma size_add_data {T : Type} (s : DataStore T) d time :
  size (add_data s d time) = S (size s).
Proof. unfold size, add_data. cbn. rewrite length_app. cbn. lia. Qed.

Lemma load_curves_sample_sizes schema i n c c' :
  load_curves_sample schema i c = Some c' ->
  CacheSpec.sizes_at_most n c -> CacheSpec.sizes_at_most (S n) c'.
Proof.
  unfold load_curves_sample. destruct (curve_arrays _ _) as [a|]; [|discriminate].
  cbn [bind Monad_option ret]. intros H. injection H as <-.
  unfold CacheSpec.sizes_at_most, add_curve_arrays.
  cbn [vertices triangles triangles_loops transforms curve_keys curve_radius
       curve_first_key curve_shader attributes set_curve_keys set_curve_radius
       set_curve_first_key set_curve_shader].
  rewrite !size_add_data. intros (? & ? & ? & ? & ? & ? & ? & ? & Ha).
  repeat split; try lia. eapply Forall_impl; [|exact Ha]. cbv beta. intros; lia.
Qed.

Lemma add_triangles_sizes fc fi time c c' :
  add_triangles fc fi time c = Some c' ->
  (vertices c', transforms c', curve_keys c', curve_radius c', curve_first_key c',
   curve_shader c', attributes c') =
  (vertices c, transforms c, curve_keys c, curve_radius c, curve_first_key c,
   curve_shader c, attributes c) /\
  size (triangles c') <= S (size (triangles c)) /\
  size (triangles_loops c') <= S (size (triangles_loops c)).
Proof.
  unfold add_triangles. destruct fc as [fc|], fi as [fi|];
    try (intros H; injection H as <-; repeat split; lia).
  destruct (count_triangles fc 0) as [n|]; [|discriminate]. cbn [bind Monad_option].
  destruct (reserve sizeof_int3 n) as [room|]; [|discriminate]. cbn [bind Monad_option].
  destruct (faces_loop fc fi 0 ([], [])) as [[T L]|]; [|discriminate].
  cbn [bind Monad_option ret].
  destruct (in_room room T && in_room room L); [|discriminate].
  intros H. injection H as <-.
  cbn [vertices triangles triangles_loops transforms curve_keys curve_radius
       curve_first_key curve_shader attributes set_triangles set_triangles_loops].
  rewrite !size_add_data. repeat split; lia.
Qed.

Lemma load_mesh_sample_sizes schema requested i n c c' :
  NoDup (map prop_getName (PolyMesh.getArbGeomParams schema)) ->
  NoDup requested ->
  load_mesh_sample schema requested i c = Some c' ->
  CacheSpec.sizes_at_most n c -> CacheSpec.sizes_at_most (S n) c'.
Proof.
  intros Hp Hr. unfold load_mesh_sample.
  set (time := getSampleTime _ i).
  set (c1 := add_positions _ time c).
  destruct (add_triangles _ _ time c1) as [c2|] eqn:E2; [|discriminate].
  cbn [bind Monad_option]. intros H (Hv & Ht & Hl & Hx & Hk & Hcr & Hf & Hs & Ha).
  destruct (add_triangles_sizes _ _ _ _ _ E2) as (Hsame & Ht2 & Hl2).
  assert (H1 : size (vertices c1) <= S n /\ triangles c1 = triangles c /\
               triangles_loops c1 = triangles_loops c /\
               (transforms c1, curve_keys c1, curve_radius c1, curve_first_key c1,
                curve_shader c1, attributes c1) =
               (transforms c, curve_keys c, curve_radius c, curve_first_key c,
                curve_shader c, attributes c)).
  { subst c1. unfold add_positions. destruct (PolyMesh.getPositions _).
    - cbn [vertices set_vertices]. rewrite size_add_data. repeat split. lia.
    - repeat split. lia. }
  destruct H1 as (Hv1 & Et & El & Erest).
  injection Hsame as Ev2 Ex2 Ek2 Er2 Ef2 Es2 Ea2.
  injection Erest as Ex1 Ek1 Er1 Ef1 Es1 Ea1.
  destruct (read_attributes_bounded n _ i requested [] c2 c' Hp Hr) as [Hst Hb]; auto.
  { rewrite Ea2, Ea1. eapply Forall_impl; [|exact Ha]. cbv beta. cbn [existsb]. intros; lia. }
  unfold stores in Hst. injection Hst as Ev Et' El' Ex Ek Er Ef Es.
  unfold CacheSpec.sizes_at_most.
  rewrite Ev, Et', El', Ex, Ek, Er, Ef, Es, Ev2, Ex2, Ek2, Er2, Ef2, Es2,
    Ex1, Ek1, Er1, Ef1, Es1.
  rewrite Et in Ht2. rewrite El in Hl2.
  repeat split; try lia.
  now apply attrs_bounded_S in Hb.
Qed.

Lemma after_samples_sizes (body : nat -> CachedData -> option CachedData) :
  (forall i n c c', body i c = Some c' ->
                    CacheSpec.sizes_at_most n c -> CacheSpec.sizes_at_most (S n) c') ->
  forall m c c', CacheSpec.after_samples body m c = Some c' ->
                 CacheSpec.sizes_at_most 0 c -> CacheSpec.sizes_at_most m c'.
Proof.
  intros Hbody. unfold CacheSpec.after_samples. induction m as [|m IH]; intros c c' H H0.
  - injection H as <-. exact H0.
  - rewrite seq_S, foldM_app in H. cbn [Nat.add] in H.
    destruct (foldM _ (seq 0 m) c) as [c1|] eqn:E1; [|discriminate].
    cbn [bind Monad_option foldM] in H.
    destruct (body m c1) as [c2|] eqn:E2; [|discriminate].
    cbn [bind Monad_option ret] in H. injection H as <-.
    eapply Hbody; [exact E2|]. now apply (IH c).
Qed.

End SizeFacts.

(** C9: the flag is found set at poll [c] of a load routine whose schema has
    more than [c] samples. The routine (curves or mesh) returns from that
    poll: the sample indices processed are [0 .. c-1], the last index is not
    among them, the loaded flag is as it was, and the cache is the cache
    left by the bodies of those [c] indices, in which no channel holds more
    than [c] entries. For a mesh, the names of the arbitrary geometry
    parameters are distinct, as they are in an archive. *)
Theorem C9_cancellation_mid_loop {imath : Imath} {util : CyclesUtil}
    (progress : Progress) (o : AlembicObject) (c : nat) :
  (forall k, (k < c)%nat -> get_cancel progress k = false) ->
  get_cancel progress c = true ->
  (forall schema : Curves.Schema,
      (c < Curves.getNumSamples schema)%nat ->
      let o0 := clear_and_set_curves_sampling schema o in
      let written :=
        CacheSpec.after_samples (load_curves_sample schema) c (cached_data o0) in
      load_all_data_curves schema progress o =
        option_map (fun cd => mkRun (set_cached_data o0 cd) (S c) (seq 0 c)) written /\
      forall r, load_all_data_curves schema progress o = Some r ->
                polls r = S c /\ processed r = seq 0 c /\
                ~ In (Curves.getNumSamples schema - 1)%nat (processed r) /\
                data_loaded (object r) = data_loaded o /\
                written = Some (cached_data (object r)) /\
                CacheSpec.sizes_at_most c (cached_data (object r))) /\
  (forall schema : PolyMesh.Schema,
      (c < PolyMesh.getNumSamples schema)%nat ->
      NoDup (map prop_getName (PolyMesh.getArbGeomParams schema)) ->
      let o0 := clear_and_set_mesh_sampling schema o in
      let written :=
        CacheSpec.after_samples
          (load_mesh_sample schema (get_requested_attributes o0)) c (cached_data o0) in
      load_all_data_mesh schema progress o =
        option_map (fun cd => mkRun (set_cached_data o0 cd) (S c) (seq 0 c)) written /\
      forall r, load_all_data_mesh schema progress o = Some r ->
                polls r = S c /\ processed r = seq 0 c /\
                ~ In (PolyMesh.getNumSamples schema - 1)%nat (processed r) /\
                data_loaded (object r) = data_loaded o /\
                written = Some (cached_data (object r)) /\
                CacheSpec.sizes_at_most c (cached_data (object r))).
Proof.
  intros Hfalse Htrue. split.
  - intros schema Hc o0 written.
    assert (E : load_all_data_curves schema progress o =
                option_map (fun cd => mkRun (set_cached_data o0 cd) (S c) (seq 0 c))
                           written).
    { unfold load_all_data_curves. fold o0.
      rewrite (sample_loop_cancelled _ progress _ 0 (mkRun o0 0 []) c Hc Hfalse Htrue).
      cbn [object polls processed Nat.add app]. unfold written, CacheSpec.after_samples.
      destruct (foldM _ (seq 0 c) (cached_data o0)); reflexivity. }
    split; [exact E|]. intros r Hr. rewrite E in Hr.
    destruct written as [cd|] eqn:Ew; [|discriminate]. cbn [option_map] in Hr.
    injection Hr as <-.
    cbn [object polls processed cached_data set_cached_data data_loaded].
    split; [reflexivity|].
    split; [reflexivity|]. split; [rewrite in_seq; lia|]. split; [reflexivity|].
    split; [reflexivity|].
    apply (after_samples_sizes (load_curves_sample schema)
             (load_curves_sample_sizes schema) c (cached_data o0) cd Ew).
    unfold o0, clear_and_set_curves_sampling. cbn [cached_data set_cached_data].
    unfold CacheSpec.sizes_at_most. cbn. repeat split; auto.
  - intros schema Hc Hnd o0 written.
    assert (E : load_all_data_mesh schema progress o =
                option_map (fun cd => mkRun (set_cached_data o0 cd) (S c) (seq 0 c))
                           written).
    { unfold load_all_data_mesh. fold o0.
      rewrite (sample_loop_cancelled _ progress _ 0 (mkRun o0 0 []) c Hc Hfalse Htrue).
      cbn [object polls processed Nat.add app]. unfold written, CacheSpec.after_samples.
      destruct (foldM _ (seq 0 c) (cached_data o0)); reflexivity. }
    split; [exact E|]. intros r Hr. rewrite E in Hr.
    destruct written as [cd|] eqn:Ew; [|discriminate]. cbn [option_map] in Hr.
    injection Hr as <-.
    cbn [object polls processed cached_data set_cached_data data_loaded].
    split; [reflexivity|].
    split; [reflexivity|]. split; [rewrite in_seq; lia|]. split; [reflexivity|].
    split; [reflexivity|].
    apply (after_samples_sizes (load_mesh_sample schema (get_requested_attributes o0))
             (fun i n c c' =>
                load_mesh_sample_sizes schema _ i n c c' Hnd
                  (get_requested_attributes_NoDup o0))
             c (cached_data o0) cd Ew).
    unfold o0, clear_and_set_mesh_sampling. cbn [cached_data set_cached_data].
    unfold CacheSpec.sizes_at_most. cbn. repeat split; auto.
Qed.

Lemma C9_cancellation_mid_loop_witness :
  let progress := mkProgress (fun k => Nat.leb 1 k) in
  let curves :=
    Curves.mkSchema 3 TimeSampling_default
      (fun _ => Curves.mkSample (Some [2%Z])
                                (Some [make_float3 0 0 0; make_float3 1 2 3])) in
  let mesh :=
    PolyMesh.mkSchema 3 TimeSampling_default
      (fun _ => PolyMesh.mkSample (Some [make_float3 0 0 0; make_float3 1 0 0;
                                         make_float3 1 1 0; make_float3 0 1 0])
                                  (Some [4%Z]) (Some [0; 1; 2; 3]%Z))
      [] (mkIV2fGeomParam false EmptyString 0 kUnknownScope TimeSampling_default
                          (fun _ => mkV2fSample None None)) in
  let o := mkAlembicObject IObject_none [] [] (CachedData_empty TimeSampling_default) false in
  (forall k, (k < 1)%nat -> get_cancel progress k = false) /\
  get_cancel progress 1 = true /\
  (1 < Curves.getNumSamples curves)%nat /\
  (1 < PolyMesh.getNumSamples mesh)%nat /\
  NoDup (map prop_getName (PolyMesh.getArbGeomParams mesh)) /\
  (forall (imath : Imath) (util : CyclesUtil),
      (exists r, load_all_data_curves curves progress o = Some r /\
                 processed r = [0%nat] /\ data_loaded (object r) = false /\
                 CacheSpec.sizes_at_most 1 (cached_data (object r)) /\
                 size (curve_first_key (cached_data (object r))) = 1%nat) /\
      (exists r, load_all_data_mesh mesh progress o = Some r /\
                 processed r = [0%nat] /\ data_loaded (object r) = false /\
                 CacheSpec.sizes_at_most 1 (cached_data (object r)) /\
                 map snd (data (triangles (cached_data (object r)))) =
                 [[make_int3 0 1 2; make_int3 0 2 3]])).
Proof.
  cbv zeta.
  assert (H1 : forall k, (k < 1)%nat ->
                         get_cancel (mkProgress (fun k => Nat.leb 1 k)) k = false).
  { intros [|k] Hk; [reflexivity|lia]. }
  split; [exact H1|]. split; [reflexivity|]. split; [simpl; lia|].
  split; [simpl; lia|]. split; [constructor|].
  intros imath util.
  destruct (@C9_cancellation_mid_loop imath util _
              (mkAlembicObject IObject_none [] [] (CachedData_empty TimeSampling_default) false)
              1%nat H1 eq_refl) as [Hcurves Hmesh].
  split.
  - match goal with |- exists r, load_all_data_curves ?s _ _ = _ /\ _ =>
      destruct (Hcurves s ltac:(simpl; lia)) as [E Hr]
    end.
    eexists. split; [rewrite E; reflexivity|].
    match type of E with _ = ?rhs =>
      destruct (Hr _ (eq_trans E (eq_refl : rhs = Some _))) as (_ & Hp & _ & Hd & _ & Hs)
    end.
    split; [reflexivity|]. split; [reflexivity|]. split; [exact Hs|reflexivity].
  - match goal with |- exists r, load_all_data_mesh ?s _ _ = _ /\ _ =>
      destruct (Hmesh s ltac:(simpl; lia) ltac:(constructor)) as [E Hr]
    end.
    eexists. split; [rewrite E; reflexivity|].
    match type of E with _ = ?rhs =>
      destruct (Hr _ (eq_trans E (eq_refl : rhs = Some _))) as (_ & Hp & _ & Hd & _ & Hs)
    end.
    split; [reflexivity|]. split; [reflexivity|]. split; [exact Hs|reflexivity].
Defined.

(** ** The driver when the archive does not open *)

Section DriverFacts.
Context {world : World}.

Lemma generate_unmodified scene progress p :
  is_modified p = false -> generate scene progress p = (scene, p).
Proof. intros H. unfold generate. now rewrite H. Qed.

Lemma generate_times_unmodified n scene progress p :
  is_modified p = false -> generate_times n scene progress p = (scene, p).
Proof.
  intros H. induction n as [|n IH]; [reflexivity|].
  cbn [generate_times]. now rewrite generate_unmodified.
Qed.

(** An invocation with a modified input and no valid archive gives the
    current path to the archive factory. *)
Lemma generate_attempts scene progress p :
  is_modified p = true -> archive p = None ->
  open_attempts (snd (generate scene progress p)) = open_attempts p ++ [filepath p].
Proof.
  intros Hm Ha. unfold generate. rewrite Hm, Ha. cbn [negb].
  destruct (getArchive (filepath p)) as [a|]; [|reflexivity].
  destruct (if negb _ then _ else _) as [objs polls].
  cbn [frame frame_rate].
  destruct (objects_loop _ _ _ _ _ _) as [[[scene' objs'] polls'] []]; reflexivity.
Qed.

End DriverFacts.

(** C8, as the code has it: when the archive at the configured path does not
    open, the invocation clears the path, leaves the objects as they are
    (none is loaded) and returns; as long as no input is set to a new value,
    the invocations that follow make no open attempt; after an input is set
    to a new value, the next invocation attempts the open again, at the path
    set in the meantime or, when another input was set (the frame, the frame
    rate), at the cleared path. *)
Theorem C8_open_failure {world : World} (scene : Scene) (progress : Progress)
    (p : AlembicProcedural) :
  is_modified p = true -> archive p = None -> getArchive (filepath p) = None ->
  let p1 := snd (generate scene progress p) in
  generate scene progress p = (scene, p1) /\
  filepath p1 = EmptyString /\ archive p1 = None /\ is_modified p1 = false /\
  objects p1 = objects p /\ objects_loaded p1 = objects_loaded p /\
  open_attempts p1 = open_attempts p ++ [filepath p] /\
  (forall n progress', generate_times n scene progress' p1 = (scene, p1)) /\
  (forall path progress',
      path <> EmptyString ->
      open_attempts (snd (generate scene progress' (set_filepath path p1))) =
      open_attempts p1 ++ [path]) /\
  (forall value progress',
      (frame p1 =? value) = false ->
      open_attempts (snd (generate scene progress' (set_frame value p1))) =
      open_attempts p1 ++ [EmptyString]) /\
  (forall value progress',
      (frame_rate p1 =? value) = false ->
      open_attempts (snd (generate scene progress' (set_frame_rate value p1))) =
      open_attempts p1 ++ [EmptyString]).
Proof.
  intros Hm Ha Hopen.
  assert (E : generate scene progress p =
              (scene, clear_modified
                        (mkAlembicProcedural EmptyString (frame p) (frame_rate p)
                           (objects p) None (objects_loaded p) (modified p)
                           (open_attempts p ++ [filepath p])))).
  { unfold generate. rewrite Hm, Ha. cbn [negb]. now rewrite Hopen. }
  rewrite E. cbn [snd].
  set (p1 := clear_modified _).
  repeat (split; [reflexivity|]). split; [|split; [|split]].
  - intros n progress'. now apply generate_times_unmodified.
  - intros path progress' Hpath.
    assert (Es : set_filepath path p1 =
                 mkAlembicProcedural path (frame p1) (frame_rate p1) (objects p1)
                   (archive p1) (objects_loaded p1) true (open_attempts p1)).
    { unfold set_filepath. cbn [filepath p1 clear_modified].
      destruct path; [contradiction|reflexivity]. }
    rewrite Es. now rewrite generate_attempts.
  - intros value progress' Hv.
    assert (Es : set_frame value p1 =
                 mkAlembicProcedural (filepath p1) value (frame_rate p1) (objects p1)
                   (archive p1) (objects_loaded p1) true (open_attempts p1)).
    { unfold set_frame. now rewrite Hv. }
    rewrite Es. now rewrite generate_attempts.
  - intros value progress' Hv.
    assert (Es : set_frame_rate value p1 =
                 mkAlembicProcedural (filepath p1) (frame p1) value (objects p1)
                   (archive p1) (objects_loaded p1) true (open_attempts p1)).
    { unfold set_frame_rate. now rewrite Hv. }
    rewrite Es. now rewrite generate_attempts.
Qed.

Lemma C8_open_failure_witness :
  let progress := mkProgress (fun _ => false) in
  let p := unopened "missing.abc" in
  let p1 := snd (@generate closed_world tt progress p) in
  @is_modified closed_world p = true /\ archive p = None /\
  @getArchive closed_world (filepath p) = None /\
  filepath p1 = EmptyString /\
  open_attempts p1 = ["missing.abc"%string] /\
  @generate_times closed_world 3 tt progress p1 = (tt, p1) /\
  open_attempts (snd (@generate closed_world tt progress (set_filepath "other.abc" p1))) =
    ["missing.abc"%string; "other.abc"%string].
Proof.
  cbv zeta.
  pose proof (@C8_open_failure closed_world tt (mkProgress (fun _ => false))
                (unopened "missing.abc") eq_refl eq_refl eq_refl) as H.
  cbv zeta in H.
  destruct H as (_ & Hpath & _ & _ & _ & _ & Hatt & Hno & Hset & _ & _).
  split; [reflexivity|]. split; [reflexivity|]. split; [reflexivity|].
  split; [exact Hpath|]. split; [exact Hatt|]. split; [apply Hno|].
  rewrite (Hset "other.abc"%string (mkProgress (fun _ => false))) by discriminate.
  now rewrite Hatt.
Defined.

(** C8, as the specification has it, fails: the path at which no archive
    opens is cleared, the frame is then set to 2 and the path is left alone;
    the invocation that follows gives the cleared path to the archive
    factory, a second open attempt. *)
Lemma C8_attempt_after_frame_change :
  let progress := mkProgress (fun _ => false) in
  let p1 := snd (@generate closed_world tt progress (unopened "missing.abc")) in
  let p2 := snd (@generate closed_world tt progress (set_frame 2 p1)) in
  filepath p1 = EmptyString /\
  open_attempts p1 = ["missing.abc"%string] /\
  filepath (set_frame 2 p1) = EmptyString /\
  open_attempts p2 = ["missing.abc"%string; EmptyString].
Proof.
  cbv zeta. repeat split; reflexivity.
Qed.

(** * Further properties of the importer *)

(** ** The hierarchy walk *)

Module HierarchyFacts.
Import Hierarchy.

(** Induction on an object of the archive, with the property of its
    children. *)
Lemma ArchiveObject_children_ind (P : ArchiveObject -> Prop) :
  (forall name header children,
      Forall P children -> P (mkArchiveObject name header children)) ->
  forall node, P node.
Proof.
  intros H. fix IH 1. intros [name header children]. apply H.
  induction children as [|c l IHl]; constructor; [apply IH|exact IHl].
Qed.

Lemma update_found_paths objs name f :
  map fst (update_found objs name f) = map fst objs.
Proof.
  induction objs as [|[path o] rest IH]; [reflexivity|].
  cbn [update_found]. destruct (String.eqb path name); cbn [map fst]; [reflexivity|].
  now rewrite IH.
Qed.

Lemma update_found_kept objs name f :
  (forall o, kept (f o) = kept o) ->
  map (fun po => kept (snd po)) (update_found objs name f) =
  map (fun po => kept (snd po)) objs.
Proof.
  intros Hf. induction objs as [|[path o] rest IH]; [reflexivity|].
  cbn [update_found]. destruct (String.eqb path name); cbn [map snd].
  - now rewrite Hf.
  - now rewrite IH.
Qed.

Lemma bind_object_kept node X o : kept (bind_object node X o) = kept o.
Proof. destruct X; reflexivity. Qed.

Lemma bind_object_iobject node X o : iobject (bind_object node X o) = node.
Proof. destruct X; reflexivity. Qed.

(** An object of another path is not the object found. *)
Lemma update_found_other objs name f : forall i path o,
  nth_error objs i = Some (path, o) -> String.eqb path name = false ->
  nth_error (update_found objs name f) i = Some (path, o).
Proof.
  induction objs as [|[p0 o0] rest IH]; intros i path o Hi Hne; [destruct i; discriminate|].
  cbn [update_found]. destruct i as [|i]; cbn [nth_error] in *.
  - injection Hi as -> ->. now rewrite Hne.
  - destruct (String.eqb p0 name); cbn [nth_error]; [exact Hi|now apply IH].
Qed.

(** An object that comes after another one of its path is not found. *)
Lemma update_found_later objs name f : forall i j path o o1,
  (j < i)%nat -> nth_error objs j = Some (path, o1) ->
  nth_error objs i = Some (path, o) ->
  nth_error (update_found objs name f) i = Some (path, o).
Proof.
  induction objs as [|[p0 o0] rest IH]; intros i j path o o1 Hlt Hj Hi;
    [destruct i; discriminate|].
  destruct i as [|i]; [lia|]. cbn [update_found nth_error] in *.
  destruct (String.eqb p0 name) eqn:E; cbn [nth_error]; [exact Hi|].
  destruct j as [|j]; cbn [nth_error] in Hj.
  - injection Hj as -> ->. now apply update_found_other.
  - apply (IH i j path o o1); [lia|exact Hj|exact Hi].
Qed.

(** The first object of the path looked up is the object found. *)
Lemma update_found_first objs name f : forall i o,
  nth_error objs i = Some (name, o) -> first_of_path objs i name ->
  nth_error (update_found objs name f) i = Some (name, f o).
Proof.
  induction objs as [|[p0 o0] rest IH]; intros i o Hi [_ Hfirst];
    [destruct i; discriminate|].
  cbn [update_found]. destruct i as [|i]; cbn [nth_error] in *.
  - injection Hi as -> ->. now rewrite String.eqb_refl.
  - destruct (String.eqb_spec p0 name) as [->|Hne].
    + exfalso. apply (Hfirst 0%nat); [lia|reflexivity].
    + cbn [nth_error]. apply IH; [exact Hi|]. split.
      * now rewrite nth_error_map, Hi.
      * intros j Hj. apply (Hfirst (S j)). lia.
Qed.

Lemma keeps_refl objs : keeps objs objs.
Proof. split; [reflexivity|]. split; [reflexivity|]. intros; assumption. Qed.

Lemma keeps_trans a b c : keeps a b -> keeps b c -> keeps a c.
Proof.
  intros (Hp1 & Hk1 & Hl1) (Hp2 & Hk2 & Hl2).
  split; [congruence|]. split; [congruence|].
  intros i j path o o1 Hlt Hj Hi.
  assert (Hjb : nth_error (map fst b) j = Some path).
  { rewrite Hp1, nth_error_map, Hj. reflexivity. }
  rewrite nth_error_map in Hjb.
  destruct (nth_error b j) as [[pj oj]|] eqn:Ej; [|discriminate].
  cbn in Hjb. injection Hjb as ->.
  apply (Hl2 i j path o oj Hlt Ej). now apply (Hl1 i j path o o1).
Qed.

Lemma keeps_update_found objs name node X :
  keeps objs (update_found objs name (bind_object node X)).
Proof.
  split; [apply update_found_paths|].
  split; [apply update_found_kept; intros; apply bind_object_kept|].
  intros i j path o o1. apply update_found_later.
Qed.

Lemma first_of_path_keeps a b i path :
  keeps a b -> first_of_path a i path -> first_of_path b i path.
Proof. intros (Hp & _) H. unfold first_of_path in *. now rewrite Hp. Qed.

Section WalkFacts.
Context {imath : Imath}.

Lemma walk_hierarchy_eq name header children X progress w :
  walk_hierarchy (mkArchiveObject name header children) X progress w =
  if get_cancel progress (polls w) then mkWalk (objects w) (S (polls w))
  else
    let w := mkWalk (objects w) (S (polls w)) in
    let walk_children X w :=
      fold_left (fun w child => walk_hierarchy child X progress w) children w in
    match header with
    | IXform xs => walk_children (concatenated_xform_samples xs X) w
    | ISubD => w
    | IPolyMesh schema =>
        walk_children X
          (mkWalk (update_found (objects w) name (bind_object (IObject_PolyMesh schema) X))
                  (polls w))
    | ICurves schema =>
        walk_children X
          (mkWalk (update_found (objects w) name (bind_object (IObject_Curves schema) X))
                  (polls w))
    | IFaceSet => w
    | Unsupported => walk_children X w
    end.
Proof. reflexivity. Qed.

Lemma walk_children_keeps progress children :
  Forall (fun c => forall X w, keeps (objects w) (objects (walk_hierarchy c X progress w)))
         children ->
  forall X w,
    keeps (objects w)
          (objects (fold_left (fun w child => walk_hierarchy child X progress w) children w)).
Proof.
  induction 1 as [|c l Hc _ IH]; intros X w; [apply keeps_refl|].
  cbn [fold_left]. eapply keeps_trans; [apply Hc|apply IH].
Qed.

Lemma walk_hierarchy_keeps progress node : forall X w,
  keeps (objects w) (objects (walk_hierarchy node X progress w)).
Proof.
  induction node as [name header children IH] using ArchiveObject_children_ind.
  intros X w. rewrite walk_hierarchy_eq.
  destruct (get_cancel progress (polls w)); [apply keeps_refl|]. cbv zeta.
  pose proof (walk_children_keeps progress children IH) as Hc.
  destruct header as [xs| |schema|schema| |]; try apply keeps_refl.
  - apply (Hc _ (mkWalk (objects w) (S (polls w)))).
  - eapply keeps_trans; [|apply Hc]. apply keeps_update_found.
  - eapply keeps_trans; [|apply Hc]. apply keeps_update_found.
  - apply (Hc _ (mkWalk (objects w) (S (polls w)))).
Qed.

Lemma load_objects_keeps progress top w :
  keeps (objects w) (objects (load_objects top progress w)).
Proof.
  unfold load_objects. apply walk_children_keeps.
  apply Forall_forall. intros c _. apply walk_hierarchy_keeps.
Qed.

Lemma binds_app path l1 l2 : binds path (l1 ++ l2) = binds path l1 || binds path l2.
Proof. apply existsb_app. Qed.

Lemma binds_found path nodes :
  binds path nodes = true ->
  exists n g, In n nodes /\ getFullName n = path /\ geometry n = Some g.
Proof.
  unfold binds. intros H. apply existsb_exists in H. destruct H as (n & Hin & H).
  apply andb_prop in H. destruct H as [Hn Hg]. apply String.eqb_eq in Hn.
  destruct (geometry n) as [g|] eqn:E; [|discriminate]. now exists n, g.
Qed.

(** What a walk without cancellation leaves in the first object of a path:
    the object as it was when no reached mesh or curves object has the path
    as its full name, and else an object bound to such a one. *)
Lemma walk_children_binds progress i path children :
  (forall k, get_cancel progress k = false) ->
  Forall (fun c => forall X w o,
            nth_error (objects w) i = Some (path, o) ->
            first_of_path (objects w) i path ->
            exists o', nth_error (objects (walk_hierarchy c X progress w)) i =
                       Some (path, o') /\
                       if binds path (reached c)
                       then exists n, In n (reached c) /\ getFullName n = path /\
                                      geometry n = Some (iobject o')
                       else o' = o)
         children ->
  forall X w o,
    nth_error (objects w) i = Some (path, o) ->
    first_of_path (objects w) i path ->
    exists o',
      nth_error (objects (fold_left (fun w child => walk_hierarchy child X progress w)
                                    children w)) i = Some (path, o') /\
      if binds path (flat_map reached children)
      then exists n, In n (flat_map reached children) /\ getFullName n = path /\
                     geometry n = Some (iobject o')
      else o' = o.
Proof.
  intros Hrun. induction 1 as [|c l Hc _ IH]; intros X w o Hi Hfirst.
  - exists o. split; [exact Hi|reflexivity].
  - cbn [fold_left flat_map]. rewrite binds_app.
    destruct (Hc X w o Hi Hfirst) as (o1 & Hi1 & H1).
    destruct (IH X (walk_hierarchy c X progress w) o1 Hi1) as (o' & Hi' & H').
    { eapply first_of_path_keeps; [apply walk_hierarchy_keeps|exact Hfirst]. }
    exists o'. split; [exact Hi'|].
    destruct (binds path (flat_map reached l)).
    + rewrite orb_true_r. destruct H' as (n & Hn & Hname & Hg).
      exists n. split; [apply in_or_app; now right|now split].
    + rewrite orb_false_r. subst o'. destruct (binds path (reached c)); [|exact H1].
      destruct H1 as (n & Hn & Hname & Hg).
      exists n. split; [apply in_or_app; now left|now split].
Qed.

Lemma walk_hierarchy_binds progress i path node :
  (forall k, get_cancel progress k = false) ->
  forall X w o,
    nth_error (objects w) i = Some (path, o) ->
    first_of_path (objects w) i path ->
    exists o', nth_error (objects (walk_hierarchy node X progress w)) i = Some (path, o') /\
               if binds path (reached node)
               then exists n, In n (reached node) /\ getFullName n = path /\
                              geometry n = Some (iobject o')
               else o' = o.
Proof.
  intros Hrun.
  induction node as [name header children IH] using ArchiveObject_children_ind.
  intros X w o Hi Hfirst. rewrite walk_hierarchy_eq, Hrun. cbv zeta.
  pose proof (walk_children_binds progress i path children Hrun IH) as Hc.
  set (node := mkArchiveObject name header children).
  assert (Hplain :
    geometry node = None ->
    reached node = node :: flat_map reached children ->
    forall X',
    exists o',
      nth_error (objects (fold_left (fun w child => walk_hierarchy child X' progress w)
                                    children (mkWalk (objects w) (S (polls w))))) i =
      Some (path, o') /\
      if binds path (reached node)
      then exists n, In n (reached node) /\ getFullName n = path /\
                     geometry n = Some (iobject o')
      else o' = o).
  { intros Hg Hr X'. rewrite Hr.
    destruct (Hc X' (mkWalk (objects w) (S (polls w))) o Hi Hfirst) as (o' & Hi' & H').
    exists o'. split; [exact Hi'|].
    unfold binds at 1. cbn [existsb]. rewrite Hg, andb_false_r. cbn [orb].
    fold (binds path (flat_map reached children)).
    destruct (binds path (flat_map reached children)); [|exact H'].
    destruct H' as (n & Hn & Hname & Hgn). exists n. split; [now right|now split]. }
  assert (Hleaf :
    geometry node = None -> reached node = [node] ->
    exists o', nth_error (objects w) i = Some (path, o') /\
               if binds path (reached node)
               then exists n, In n (reached node) /\ getFullName n = path /\
                              geometry n = Some (iobject o')
               else o' = o).
  { intros Hg Hr. exists o. split; [exact Hi|]. rewrite Hr.
    unfold binds. cbn [existsb]. now rewrite Hg, andb_false_r. }
  assert (Hgeom :
    forall g, geometry node = Some g ->
    reached node = node :: flat_map reached children ->
    exists o',
      nth_error (objects (fold_left (fun w child => walk_hierarchy child X progress w)
                                    children
                                    (mkWalk (update_found (objects w) name (bind_object g X))
                                            (S (polls w))))) i = Some (path, o') /\
      if binds path (reached node)
      then exists n, In n (reached node) /\ getFullName n = path /\
                     geometry n = Some (iobject o')
      else o' = o).
  { intros g Hg Hr. rewrite Hr.
    set (w1 := mkWalk (update_found (objects w) name (bind_object g X)) (S (polls w))).
    assert (Hk : keeps (objects w) (objects w1)) by apply keeps_update_found.
    pose proof (first_of_path_keeps _ _ _ _ Hk Hfirst) as Hfirst1.
    unfold binds at 1. cbn [existsb]. rewrite Hg, andb_true_r.
    fold (binds path (flat_map reached children)).
    change (getFullName node) with name.
    destruct (String.eqb_spec name path) as [->|Hne]; cbn [orb].
    - destruct (Hc X w1 (bind_object g X o)) as (o' & Hi' & H'); [|exact Hfirst1|].
      { now apply update_found_first. }
      exists o'. split; [exact Hi'|].
      destruct (binds path (flat_map reached children)).
      + destruct H' as (n & Hn & Hname & Hgn). exists n. split; [now right|now split].
      + subst o'. exists node. split; [now left|]. split; [reflexivity|].
        now rewrite bind_object_iobject.
    - destruct (Hc X w1 o) as (o' & Hi' & H'); [|exact Hfirst1|].
      { apply update_found_other; [exact Hi|].
        apply String.eqb_neq. intros ->. now apply Hne. }
      exists o'. split; [exact Hi'|].
      destruct (binds path (flat_map reached children)); [|exact H'].
      destruct H' as (n & Hn & Hname & Hgn). exists n. split; [now right|now split]. }
  destruct header as [xs| |schema|schema| |].
  - now apply Hplain.
  - now apply Hleaf.
  - now apply (Hgeom (IObject_PolyMesh schema)).
  - now apply (Hgeom (IObject_Curves schema)).
  - now apply Hleaf.
  - now apply Hplain.
Qed.

Lemma walk_children_cancelled progress children : forall X w,
  (forall k, (polls w <= k)%nat -> get_cancel progress k = true) ->
  fold_left (fun w child => walk_hierarchy child X progress w) children w =
  mkWalk (objects w) (polls w + List.length children).
Proof.
  induction children as [|[name header l] children IH]; intros X w Hc.
  - cbn. rewrite Nat.add_0_r. now destruct w.
  - cbn [fold_left]. rewrite walk_hierarchy_eq, (Hc (polls w)) by lia.
    rewrite IH; cbn [objects polls List.length].
    + f_equal. lia.
    + intros k Hk. apply Hc. lia.
Qed.


Lemma insert_append m k v :
  (forall e, In e m -> (fst e <? k) = true) ->
  MatrixSampleMap_insert m k v = m ++ [(k, v)].
Proof.
  induction m as [|a m IH]; intros H; [reflexivity|].
  cbn [MatrixSampleMap_insert]. rewrite (H a (or_introl eq_refl)). cbn [app]. f_equal.
  apply IH. intros e He. apply H. now right.
Qed.

End WalkFacts.

(** X1: whatever the cancellation flag does, loading the objects leaves as
    many objects, in the same order and under the same paths; it keeps the
    shader requests, the cache and the loaded flag of each; and an object
    that comes after another object of the same path is left as it was, for
    the object map keeps the first object inserted under a path. *)
Theorem load_objects_keeps_the_objects {imath : Imath} (top : ArchiveObject)
    (progress : Progress) (w : Walk) :
  let after := objects (load_objects top progress w) in
  List.length after = List.length (objects w) /\
  forall i path o',
    nth_error after i = Some (path, o') ->
    exists o,
      nth_error (objects w) i = Some (path, o) /\
      shader_requests o' = shader_requests o /\ cached_data o' = cached_data o /\
      data_loaded o' = data_loaded o /\
      ((exists j o1, (j < i)%nat /\ nth_error (objects w) j = Some (path, o1)) -> o' = o).
Proof.
  cbv zeta. destruct (load_objects_keeps progress top w) as (Hp & Hk & Hl).
  set (after := objects (load_objects top progress w)) in *.
  split.
  - now rewrite <- (length_map fst after), Hp, length_map.
  - intros i path o' Hi.
    assert (Hpi : nth_error (map fst (objects w)) i = Some path).
    { rewrite <- Hp, nth_error_map, Hi. reflexivity. }
    assert (Hki : nth_error (map (fun po => kept (snd po)) (objects w)) i = Some (kept o')).
    { rewrite <- Hk, nth_error_map, Hi. reflexivity. }
    rewrite nth_error_map in Hpi, Hki.
    destruct (nth_error (objects w) i) as [[p o]|] eqn:E; [|discriminate].
    cbn in Hpi, Hki. injection Hpi as ->. injection Hki as H1 H2 H3.
    exists o. repeat (split; [congruence|]).
    intros (j & o1 & Hlt & Hj).
    pose proof (Hl i j path o o1 Hlt Hj E) as H. congruence.
Qed.

(** X2: when the flag is never set, loading the objects leaves the first
    object of a path as it was if no mesh or curves object reached from the
    top of the archive has the path as its full name, and binds it to such an
    object if there is one. The objects below a subdivision surface or a face
    set are not reached. *)
Theorem load_objects_binds_reached_geometry {imath : Imath} (top : ArchiveObject)
    (progress : Progress) (w : Walk) (i : nat) (path : string) (o : AlembicObject) :
  (forall k, get_cancel progress k = false) ->
  nth_error (objects w) i = Some (path, o) ->
  (forall j o1, (j < i)%nat -> nth_error (objects w) j <> Some (path, o1)) ->
  let below := flat_map reached (getChildren top) in
  exists o',
    nth_error (objects (load_objects top progress w)) i = Some (path, o') /\
    ((forall n, In n below -> getFullName n = path -> geometry n = None) -> o' = o) /\
    (forall n g, In n below -> getFullName n = path -> geometry n = Some g ->
                 exists n', In n' below /\ getFullName n' = path /\
                            geometry n' = Some (iobject o')).
Proof.
  intros Hrun Hi Hfirst below.
  assert (Hf : first_of_path (objects w) i path).
  { split; [now rewrite nth_error_map, Hi|].
    intros j Hj Hn. rewrite nth_error_map in Hn.
    destruct (nth_error (objects w) j) as [[p o1]|] eqn:E; [|discriminate].
    cbn in Hn. injection Hn as ->. now apply (Hfirst j o1 Hj). }
  destruct (walk_children_binds progress i path (getChildren top) Hrun) with
    (X := @None MatrixSampleMap) (w := w) (o := o) as (o' & Hi' & H'); auto.
  { apply Forall_forall. intros c _. now apply walk_hierarchy_binds. }
  exists o'. split; [exact Hi'|]. fold below in H'.
  destruct (binds path below) eqn:Eb.
  - split.
    + intros Hnone. apply binds_found in Eb. destruct Eb as (n & g & Hn & Hname & Hg).
      rewrite (Hnone n Hn Hname) in Hg. discriminate.
    + intros _ _ _ _ _. exact H'.
  - split; [intros _; exact H'|].
    intros n g Hn Hname Hg. exfalso.
    assert (binds path below = true); [|congruence].
    unfold binds. apply existsb_exists. exists n. split; [exact Hn|].
    now rewrite Hname, String.eqb_refl, Hg.
Qed.

Lemma load_objects_binds_reached_geometry_witness :
  let progress := mkProgress (fun _ => false) in
  let schema :=
    PolyMesh.mkSchema 0 TimeSampling_default (fun _ => PolyMesh.mkSample None None None) []
      (mkIV2fGeomParam false EmptyString 0 kUnknownScope TimeSampling_default
                       (fun _ => mkV2fSample None None)) in
  let xs := Xform.mkSchema 0 0 TimeSampling_default (fun _ => M44d_identity) in
  let top :=
    mkArchiveObject "/" Unsupported
      [mkArchiveObject "/a" (IXform xs) [mkArchiveObject "/a/m" (IPolyMesh schema) []]] in
  let o := mkAlembicObject IObject_none [] [] (CachedData_empty TimeSampling_default) false in
  let w := mkWalk [("/a/m"%string, o)] 0 in
  (forall k, get_cancel progress k = false) /\
  nth_error (objects w) 0 = Some ("/a/m"%string, o) /\
  (forall j o1, (j < 0)%nat -> nth_error (objects w) j <> Some ("/a/m"%string, o1)) /\
  (forall imath : Imath,
      exists o', nth_error (objects (load_objects top progress w)) 0 =
                 Some ("/a/m"%string, o') /\
                 iobject o' = IObject_PolyMesh schema).
Proof.
  cbv zeta.
  split; [reflexivity|]. split; [reflexivity|]. split; [intros j o1 Hj; lia|].
  intros imath.
  match goal with |- exists o', nth_error (objects (load_objects ?top ?pr ?w)) _ = _ /\ _ =>
    destruct (@load_objects_binds_reached_geometry imath top pr w 0 "/a/m"%string
                (mkAlembicObject IObject_none [] [] (CachedData_empty TimeSampling_default)
                                 false))
      as (o' & Hi & _ & Hb); [reflexivity|reflexivity|intros j o1 Hj; lia|]
  end.
  exists o'. split; [exact Hi|].
  edestruct Hb as (n' & Hn' & Hname & Hg); [right; left; reflexivity|reflexivity|reflexivity|].
  destruct Hn' as [<-|[<-|[]]]; [discriminate|].
  cbn in Hg. now injection Hg as <-.
Defined.



(** X4: once the flag is set and stays set, loading the objects binds
    nothing: every child of the top object is still visited, polls the flag
    once and returns, and the objects are left as they were. *)
Theorem load_objects_cancelled {imath : Imath} (top : ArchiveObject)
    (progress : Progress) (w : Walk) :
  (forall k, (polls w <= k)%nat -> get_cancel progress k = true) ->
  load_objects top progress w =
  mkWalk (objects w) (polls w + List.length (getChildren top)).
Proof. intros H. unfold load_objects. now apply walk_children_cancelled. Qed.

Lemma load_objects_cancelled_witness :
  let progress := mkProgress (fun k => Nat.leb 2 k) in
  let schema :=
    Curves.mkSchema 0 TimeSampling_default (fun _ => Curves.mkSample None None) in
  let top :=
    mkArchiveObject "/" Unsupported
      [mkArchiveObject "/h" (ICurves schema) []; mkArchiveObject "/g" (ICurves schema) []] in
  let o := mkAlembicObject IObject_none [] [] (CachedData_empty TimeSampling_default) false in
  let w := mkWalk [("/h"%string, o)] 2 in
  (forall k, (polls w <= k)%nat -> get_cancel progress k = true) /\
  (forall imath : Imath, load_objects top progress w = mkWalk [("/h"%string, o)] 4).
Proof.
  cbv zeta.
  match goal with |- ?P /\ _ => assert (H : P) end.
  { intros k Hk. cbn in Hk. destruct k as [|[|k]]; [lia|lia|reflexivity]. }
  split; [exact H|]. intros imath.
  match goal with |- load_objects ?top ?pr ?w = _ =>
    exact (@load_objects_cancelled imath top pr w H)
  end.
Defined.

(** X5: the samples read from a transform node whose sample times increase:
    one entry per sample, in the order of the samples, the matrix of each
    being the one that the selector built from its time picks. *)
Theorem read_xform_samples_increasing {imath : Imath} (xs : Xform.Schema) :
  (forall i j, (i < j < Xform.getNumSamples xs)%nat ->
               (getSampleTime (Xform.getTimeSampling xs) i <?
                getSampleTime (Xform.getTimeSampling xs) j) = true) ->
  read_xform_samples xs [] =
  map (fun i => let sample_time := getSampleTime (Xform.getTimeSampling xs) i in
                (sample_time, Xform.getValue xs sample_time))
      (seq 0 (Xform.getNumSamples xs)).
Proof.
  unfold read_xform_samples. intros Hinc.
  induction (Xform.getNumSamples xs) as [|n IH]; [reflexivity|].
  rewrite seq_S, fold_left_app, map_app. cbn [Nat.add fold_left map].
  rewrite IH by (intros i j Hij; apply Hinc; lia).
  apply insert_append. intros e He. apply in_map_iff in He.
  destruct He as (i & <- & Hi). apply in_seq in Hi. cbn [fst]. apply Hinc. lia.
Qed.

Lemma read_xform_samples_increasing_witness :
  let xs := Xform.mkSchema 1 3 TimeSampling_default (fun t => M44d_fill t) in
  (forall i j, (i < j < Xform.getNumSamples xs)%nat ->
               (getSampleTime (Xform.getTimeSampling xs) i <?
                getSampleTime (Xform.getTimeSampling xs) j) = true) /\
  (forall imath : Imath,
      read_xform_samples xs [] = [(0, M44d_fill 0); (1, M44d_fill 1); (2, M44d_fill 2)]).
Proof.
  cbv zeta.
  match goal with |- ?P /\ _ => assert (H : P) end.
  { intros i j Hij. cbn in Hij.
    destruct i as [|[|[|i]]], j as [|[|[|j]]]; try lia; reflexivity. }
  split; [exact H|]. intros imath.
  match goal with |- read_xform_samples ?xs [] = _ =>
    rewrite (@read_xform_samples_increasing imath xs H)
  end.
  reflexivity.
Defined.

End HierarchyFacts.

(** ** Interpolation inside the range of the keys *)

Module InterpolationInside.
Import Double DoubleOrder.







End InterpolationInside.





(** ** Concatenation with a map without samples *)

Section ConcatenationEdges.
Context {imath : Imath}.

Lemma TimeSet_insert_append s k :
  (forall t, In t s -> (t <? k) = true) -> TimeSet.insert s k = s ++ [k].
Proof.
  induction s as [|a s IH]; intros H; [reflexivity|].
  cbn [TimeSet.insert]. rewrite (H a (or_introl eq_refl)). cbn [app]. f_equal.
  apply IH. intros t Ht. apply H. now right.
Qed.

Lemma insert_all_sorted_map m : forall acc,
  SampleMap.sorted m = true ->
  (forall t e, In t acc -> In e m -> (t <? fst e) = true) ->
  TimeSet.insert_all fst m acc = acc ++ map fst m.
Proof.
  induction m as [|e m IH]; intros acc Hs Hlt.
  - cbn. now rewrite app_nil_r.
  - unfold TimeSet.insert_all. cbn [fold_left map].
    rewrite TimeSet_insert_append by (intros t Ht; apply (Hlt t e Ht); now left).
    fold (TimeSet.insert_all fst m (acc ++ [fst e])).
    rewrite IH; [now rewrite <- app_assoc| apply (SampleMapFacts.sorted_tail _ _ Hs)|].
    intros t e' Ht He'. apply in_app_or in Ht. destruct Ht as [Ht|[<-|[]]].
    + apply (Hlt t e' Ht). now right.
    + now apply (SampleMapFacts.sorted_head_lt _ _ Hs).
Qed.

Lemma unified_times_of_one_map m :
  SampleMap.sorted m = true -> TimeSet.insert_all fst m [] = map fst m.
Proof. intros Hs. apply (insert_all_sorted_map m [] Hs). intros t e []. Qed.

End ConcatenationEdges.

(** X8: the concatenation of a sample map, none of its keys a NaN, with a
    map without samples has the keys of the map, and under each key the
    stored matrix multiplied by the identity matrix, on the right when the
    parent has no samples and on the left when the local transform has
    none; two maps without samples give a map without samples. *)
Theorem concatenate_with_no_samples {imath : Imath} (samples : MatrixSampleMap) :
  SampleMap.sorted samples = true ->
  (forall e, In e samples -> (fst e =? fst e) = true) ->
  concatenate_xform_samples [] samples [] =
    map (fun e => (fst e, M44d_mul (snd e) M44d_identity)) samples /\
  concatenate_xform_samples samples [] [] =
    map (fun e => (fst e, M44d_mul M44d_identity (snd e))) samples /\
  concatenate_xform_samples [] [] [] = [].
Proof.
  intros Hs Hnum. rewrite !concatenate_from_empty.
  change (TimeSet.insert_all fst (@nil (float * M44d)) []) with (@nil float).
  change (TimeSet.insert_all fst [] (TimeSet.insert_all fst samples []))
    with (TimeSet.insert_all fst samples []).
  rewrite (unified_times_of_one_map samples Hs), !map_map.
  split; [|split; [|reflexivity]]; apply map_ext_in; intros e He; f_equal;
    now rewrite (interpolated_exact samples (fst e) e Hs He (Hnum e He)).
Qed.

Lemma concatenate_with_no_samples_witness :
  let samples := [(0, M44d_fill 2); (1, M44d_fill 3)] in
  SampleMap.sorted samples = true /\
  (forall e, In e samples -> (fst e =? fst e) = true) /\
  (forall imath : Imath,
      concatenate_xform_samples [] samples [] =
      [(0, M44d_mul (M44d_fill 2) M44d_identity); (1, M44d_mul (M44d_fill 3) M44d_identity)]).
Proof.
  cbv zeta.
  match goal with |- _ /\ ?P /\ _ => assert (H : P) end.
  { intros e [<-|[<-|[]]]; reflexivity. }
  split; [reflexivity|]. split; [exact H|]. intros imath.
  exact (proj1 (@concatenate_with_no_samples imath [(0, M44d_fill 2); (1, M44d_fill 3)]
                  eq_refl H)).
Defined.

(** ** Reads past the end of the arrays of a sample *)

Section Overruns.
Local Open Scope Z_scope.

Lemma int_add_some a b v : int_add a b = Some v -> v = a + b.
Proof. unfold int_add. destruct (in_int (a + b)); congruence. Qed.

Lemma int_sub_some a b v : int_sub a b = Some v -> v = a - b.
Proof. unfold int_sub. destruct (in_int (a - b)); congruence. Qed.

Lemma array_get_past {A : Type} (a : list A) (i : Z) :
  Z.of_nat (List.length a) <= i -> array_get a i = None.
Proof.
  intros H. unfold array_get. destruct (i <? 0); [reflexivity|].
  apply nth_error_None. lia.
Qed.

(** A fan whose last corner is not in the face list is not built. *)
Lemma fan_loop_overrun fi off iters : forall j acc,
  (0 < iters)%nat -> 0 <= off -> 0 <= j ->
  Z.of_nat (List.length fi) <= off + j + Z.of_nat iters + 1 ->
  fan_loop iters j fi off acc = None.
Proof.
  induction iters as [|n IH]; intros j [T L] Hpos Hoff Hj Hlen; [lia|].
  cbn [fan_loop].
  destruct (array_get fi off) as [v0|]; [|reflexivity]. cbn [bind Monad_option].
  destruct (int_add off j) as [s|] eqn:Es; [|reflexivity]. cbn [bind Monad_option].
  apply int_add_some in Es. subst s.
  destruct (int_add (off + j) 1) as [l1|] eqn:E1; [|reflexivity]. cbn [bind Monad_option].
  apply int_add_some in E1. subst l1.
  destruct (array_get fi (off + j + 1)) as [v1|]; [|reflexivity]. cbn [bind Monad_option].
  destruct (int_add (off + j) 2) as [l2|] eqn:E2; [|reflexivity]. cbn [bind Monad_option].
  apply int_add_some in E2. subst l2.
  destruct (array_get fi (off + j + 2)) as [v2|] eqn:Ev2; [|reflexivity].
  cbn [bind Monad_option].
  destruct (int_add j 1) as [j'|] eqn:Ej; [|reflexivity]. cbn [bind Monad_option].
  apply int_add_some in Ej. subst j'.
  destruct n as [|n].
  - rewrite array_get_past in Ev2 by lia. discriminate.
  - apply IH; lia.
Qed.

Lemma faces_loop_overrun fi counts : forall off acc,
  Forall (fun N => 3 <= N) counts -> 0 <= off <= Z.of_nat (List.length fi) ->
  Z.of_nat (List.length fi) < off + fold_right Z.add 0 counts ->
  faces_loop counts fi off acc = None.
Proof.
  induction counts as [|c rest IH]; intros off acc Hall Hoff Hlen.
  - cbn in Hlen. lia.
  - inversion Hall as [|? ? Hc Hrest]; subst. cbn [fold_right] in Hlen.
    cbn [faces_loop].
    destruct (int_sub c 2) as [n|] eqn:En; [|reflexivity]. cbn [bind Monad_option].
    apply int_sub_some in En. subst n.
    destruct (Z.le_gt_cases (off + c) (Z.of_nat (List.length fi))) as [Hfit|Hover].
    + destruct (fan_loop _ 0 fi off acc) as [acc'|]; [|reflexivity].
      cbn [bind Monad_option].
      destruct (int_add off c) as [off'|] eqn:Eo; [|reflexivity]. cbn [bind Monad_option].
      apply int_add_some in Eo. subst off'. apply IH; [exact Hrest|lia|lia].
    + rewrite fan_loop_overrun; [reflexivity|lia|lia|lia|lia].
Qed.

(** The keys of a curve that are not all in the position array are not
    read. *)
Lemma keys_loop_overrun position off iters : forall j acc,
  0 <= off -> 0 <= j ->
  off + j <= Z.of_nat (List.length position) < off + j + Z.of_nat iters ->
  keys_loop iters j position off acc = None.
Proof.
  induction iters as [|n IH]; intros j [K R] Hoff Hj Hlen; [lia|].
  cbn [keys_loop].
  destruct (int_add off j) as [i|] eqn:Ei; [|reflexivity]. cbn [bind Monad_option].
  apply int_add_some in Ei. subst i.
  destruct (array_get position (off + j)) as [f|] eqn:Ef; [|reflexivity].
  cbn [bind Monad_option].
  destruct (int_add j 1) as [j'|] eqn:Ej; [|reflexivity]. cbn [bind Monad_option].
  apply int_add_some in Ej. subst j'.
  destruct (Z.eq_dec (off + j) (Z.of_nat (List.length position))) as [Heq|Hne].
  - rewrite array_get_past in Ef by lia. discriminate.
  - apply IH; lia.
Qed.

Lemma curves_loop_overrun position counts : forall off acc,
  Forall (fun n => 0 <= n) counts ->
  0 <= off <= Z.of_nat (List.length position) ->
  Z.of_nat (List.length position) < off + CurveSpec.total counts ->
  curves_loop counts position off acc = None.
Proof.
  induction counts as [|c rest IH]; intros off acc Hall Hoff Hlen.
  - unfold CurveSpec.total in Hlen. cbn in Hlen. lia.
  - inversion Hall as [|? ? Hc Hrest]; subst.
    change (CurveSpec.total (c :: rest)) with (c + CurveSpec.total rest) in Hlen.
    cbn [curves_loop].
    destruct (Z.le_gt_cases (off + c) (Z.of_nat (List.length position))) as [Hfit|Hover].
    + destruct (keys_loop _ 0 position off _) as [[K R]|]; [|reflexivity].
      cbn [bind Monad_option].
      destruct (int_add off c) as [off'|] eqn:Eo; [|reflexivity]. cbn [bind Monad_option].
      apply int_add_some in Eo. subst off'. apply IH; [exact Hrest|lia|lia].
    + rewrite keys_loop_overrun; [reflexivity|lia|lia|lia].
Qed.

End Overruns.

(** X9: a mesh sample whose polygons have three corners or more each: the
    triangles are built exactly when the flattened face list holds every
    corner that the face counts announce; with fewer indices the fan of some
    polygon reads past the end of the list, and the sample is undefined. *)
Theorem add_triangles_needs_every_corner (face_counts face_indices : list Z)
    (time : chrono_t) (cached_data : CachedData) :
  Forall (fun N => 3 <= N)%Z face_counts ->
  (Z.of_nat (List.length face_indices) <= INT_MAX)%Z ->
  add_triangles (Some face_counts) (Some face_indices) time cached_data = None <->
  (Z.of_nat (List.length face_indices) < fold_right Z.add 0 face_counts)%Z.
Proof.
  intros Hall Hmax. split.
  - intros Hnone.
    destruct (Z.lt_ge_cases (Z.of_nat (List.length face_indices))
                            (fold_right Z.add 0%Z face_counts)) as [H|H]; [exact H|].
    exfalso. rewrite add_triangles_fans in Hnone by (assumption || lia).
    discriminate.
  - intros Hlen. unfold add_triangles.
    destruct (count_triangles face_counts 0) as [n|]; [|reflexivity].
    cbn [bind Monad_option].
    destruct (reserve sizeof_int3 n) as [room|]; [|reflexivity].
    cbn [bind Monad_option].
    rewrite faces_loop_overrun; [reflexivity|exact Hall|lia|lia].
Qed.

Lemma add_triangles_needs_every_corner_witness :
  let cached_data := CachedData_empty TimeSampling_default in
  Forall (fun N => 3 <= N)%Z [3; 4]%Z /\
  (Z.of_nat (List.length [0; 1; 2; 2; 1; 3]%Z) <= INT_MAX)%Z /\
  (Z.of_nat (List.length [0; 1; 2; 2; 1; 3]%Z) < fold_right Z.add 0 [3; 4])%Z /\
  add_triangles (Some [3; 4]%Z) (Some [0; 1; 2; 2; 1; 3]%Z) 0 cached_data = None.
Proof.
  cbv zeta.
  assert (H1 : Forall (fun N => 3 <= N)%Z [3; 4]%Z) by (repeat constructor; lia).
  assert (H2 : (Z.of_nat (List.length [0; 1; 2; 2; 1; 3]%Z) <= INT_MAX)%Z)
    by (unfold INT_MAX; cbn; lia).
  assert (H3 : (Z.of_nat (List.length [0; 1; 2; 2; 1; 3]%Z) < fold_right Z.add 0 [3; 4])%Z)
    by (cbn; lia).
  split; [exact H1|]. split; [exact H2|]. split; [exact H3|].
  exact (proj2 (add_triangles_needs_every_corner [3; 4]%Z [0; 1; 2; 2; 1; 3]%Z 0
                  (CachedData_empty TimeSampling_default) H1 H2) H3).
Defined.

(** X10: a curve sample whose vertex counts are not negative: the arrays of
    the sample are built exactly when the position array holds every key
    that the counts announce; with fewer positions some key is read past the
    end of the array, and with a null array the pointer is dereferenced: the
    sample is undefined. *)
Theorem curve_arrays_needs_every_key (curves_num_vertices : list Z) (position : list V3f) :
  Forall (fun n => 0 <= n)%Z curves_num_vertices ->
  (Z.of_nat (List.length position) <= INT_MAX)%Z ->
  (curve_arrays (Some curves_num_vertices) (Some position) = None <->
   (Z.of_nat (List.length position) < CurveSpec.total curves_num_vertices)%Z) /\
  curve_arrays None (Some position) = None /\
  curve_arrays (Some curves_num_vertices) None = None.
Proof.
  intros Hall Hmax. split; [|split; reflexivity]. split.
  - intros Hnone.
    destruct (Z.lt_ge_cases (Z.of_nat (List.length position))
                            (CurveSpec.total curves_num_vertices)) as [H|H]; [exact H|].
    exfalso. rewrite curve_arrays_in_room in Hnone by (assumption || lia).
    pose proof (curves_loop_spec position curves_num_vertices 0
                  (mkCurveArrays [] [] [] []) Hall) as E.
    change (Z.of_nat 0) with 0%Z in E. rewrite E in Hnone by (assumption || lia).
    discriminate.
  - intros Hlen. unfold curve_arrays. cbn [bind Monad_option].
    rewrite curves_loop_overrun; [reflexivity|exact Hall|lia|lia].
Qed.

Lemma curve_arrays_needs_every_key_witness :
  let position := [make_float3 0 0 0; make_float3 1 2 3; make_float3 4 5 6] in
  Forall (fun n => 0 <= n)%Z [2; 2]%Z /\
  (Z.of_nat (List.length position) <= INT_MAX)%Z /\
  (Z.of_nat (List.length position) < CurveSpec.total [2; 2])%Z /\
  curve_arrays (Some [2; 2]%Z) (Some position) = None.
Proof.
  cbv zeta.
  assert (H1 : Forall (fun n => 0 <= n)%Z [2; 2]%Z) by (repeat constructor; lia).
  set (position := [make_float3 0 0 0; make_float3 1 2 3; make_float3 4 5 6]).
  assert (H2 : (Z.of_nat (List.length position) <= INT_MAX)%Z)
    by (unfold INT_MAX; cbn; lia).
  assert (H3 : (Z.of_nat (List.length position) < CurveSpec.total [2; 2])%Z)
    by (unfold CurveSpec.total; cbn; lia).
  split; [exact H1|]. split; [exact H2|]. split; [exact H3|].
  exact (proj2 (proj1 (curve_arrays_needs_every_key [2; 2]%Z position H1 H2)) H3).
Defined.

(** ** The attributes requested and read *)

Section RequestFacts.

Lemma AttributeRequestSet_add_in requests name n :
  In n (AttributeRequestSet_add requests name) <-> In n requests \/ n = name.
Proof.
  unfold AttributeRequestSet_add.
  destruct (existsb (String.eqb name) requests) eqn:E.
  - split; [now left|]. intros [H| ->]; [exact H|].
    apply existsb_exists in E. destruct E as (x & Hx & Heq).
    apply String.eqb_eq in Heq. now subst x.
  - rewrite in_app_iff. cbn [In]. intuition congruence.
Qed.

Lemma requested_of_a_shader shader n : forall acc,
  In n (fold_left
          (fun requested name =>
             if negb (String.eqb name EmptyString) then AttributeRequestSet_add requested name
             else requested)
          shader acc) <->
  In n acc \/ (n <> EmptyString /\ In n shader).
Proof.
  induction shader as [|name shader IH]; intros acc; cbn [fold_left].
  - cbn [In]. tauto.
  - rewrite IH. destruct (String.eqb_spec name EmptyString) as [->|Hne]; cbn [negb In].
    + intuition congruence.
    + rewrite AttributeRequestSet_add_in. intuition congruence.
Qed.

Lemma requested_of_the_shaders shaders n : forall acc,
  In n (fold_left
          (fun requested shader =>
             fold_left
               (fun requested name =>
                  if negb (String.eqb name EmptyString)
                  then AttributeRequestSet_add requested name else requested)
               shader requested)
          shaders acc) <->
  In n acc \/ (n <> EmptyString /\ exists shader, In shader shaders /\ In n shader).
Proof.
  induction shaders as [|shader shaders IH]; intros acc; cbn [fold_left].
  - cbn [In]. split; [now left|]. intros [H|(_ & s & [] & _)]. exact H.
  - rewrite IH, requested_of_a_shader. cbn [In]. split.
    + intros [[H|[Hne Hin]]|(Hne & s & Hs & Hin)]; [now left| |].
      * right. split; [exact Hne|]. exists shader. auto.
      * right. split; [exact Hne|]. exists s. auto.
    + intros [H|(Hne & s & [<-|Hs] & Hin)]; [now left; left| |].
      * left. right. now split.
      * right. split; [exact Hne|]. now exists s.
Qed.

End RequestFacts.

(** X11: the attributes requested for an object are the names, other than
    the empty name, that a shader of its geometry requests, each of them
    once. *)
Theorem requested_attributes_are_the_named_ones (o : AlembicObject) :
  (forall name,
      In name (get_requested_attributes o) <->
      name <> EmptyString /\
      exists shader, In shader (shader_requests o) /\ In name shader) /\
  NoDup (get_requested_attributes o).
Proof.
  split; [|apply get_requested_attributes_NoDup].
  intros name. unfold get_requested_attributes.
  rewrite requested_of_the_shaders. cbn [In]. tauto.
Qed.

Section ReadFacts.
Context {util : CyclesUtil}.

(** A parameter that [read_attribute] does not read for an attribute: one
    of another name, one whose type is none of the three, or a UV parameter
    that is not face-varying. *)
Lemma read_property_skipped index name c prop :
  prop_getName prop <> name \/ prop_data prop = PropOther \/
  ((exists getIndexed, prop_data prop = PropV2fUV getIndexed) /\
   prop_getScope prop <> kFacevaryingScope) ->
  read_property index name c prop = Some c.
Proof.
  intros H. unfold read_property.
  destruct (String.eqb_spec (prop_getName prop) name) as [Heq|Hne]; [|reflexivity].
  cbn [negb]. destruct H as [H|[H|[[gi H] Hscope]]]; [contradiction| |]; rewrite H;
    [reflexivity|].
  destruct (prop_getScope prop); try reflexivity. contradiction.
Qed.

Lemma read_properties_skipped index name props : forall c,
  (forall prop, In prop props ->
     prop_getName prop <> name \/ prop_data prop = PropOther \/
     ((exists getIndexed, prop_data prop = PropV2fUV getIndexed) /\
      prop_getScope prop <> kFacevaryingScope)) ->
  foldM (read_property index name) props c = Some c.
Proof.
  induction props as [|p props IH]; intros c H; [reflexivity|].
  cbn [foldM]. rewrite read_property_skipped by (apply H; now left).
  cbn [bind Monad_option]. apply IH. intros q Hq. apply H. now right.
Qed.

End ReadFacts.

(** X12: an attribute requested for a sample when the archive has no
    parameter to read for it (each parameter has another name, or a type
    that is none of the three read, or is a UV parameter that is not
    face-varying): the attribute is registered in the cache, where it is not
    yet, and nothing else is written; the geometry channels are left as
    they are. *)
Theorem read_attribute_without_parameter {util : CyclesUtil}
    (arb_geom_params : list PropertyHeader) (index : nat) (name : string)
    (cached_data : CachedData) :
  (forall prop, In prop arb_geom_params ->
     prop_getName prop <> name \/ prop_data prop = PropOther \/
     ((exists getIndexed, prop_data prop = PropV2fUV getIndexed) /\
      prop_getScope prop <> kFacevaryingScope)) ->
  read_attribute arb_geom_params index name cached_data =
    Some (add_attribute cached_data name) /\
  CacheSpec.stores (add_attribute cached_data name) = CacheSpec.stores cached_data /\
  (In name (map attr_name (attributes cached_data)) ->
   add_attribute cached_data name = cached_data) /\
  (~ In name (map attr_name (attributes cached_data)) ->
   exists a,
     attributes (add_attribute cached_data name) = attributes cached_data ++ [a] /\
     attr_name a = name /\ data (attr_data a) = []).
Proof.
  intros H. split; [|split; [|split]].
  - unfold read_attribute. now apply read_properties_skipped.
  - apply stores_add_attribute.
  - intros Hin. unfold add_attribute.
    replace (existsb _ (attributes cached_data)) with true; [reflexivity|].
    symmetry. apply existsb_exists. apply in_map_iff in Hin.
    destruct Hin as (a & Ha & Hin). exists a. split; [exact Hin|].
    rewrite Ha. apply String.eqb_refl.
  - intros Hnot. unfold add_attribute.
    replace (existsb _ (attributes cached_data)) with false.
    + eexists. cbn [attributes set_attributes]. split; [reflexivity|]. split; reflexivity.
    + symmetry. apply Bool.not_true_is_false. intros Hex. apply Hnot.
      apply existsb_exists in Hex. destruct Hex as (a & Hin & Ha).
      apply String.eqb_eq in Ha. apply in_map_iff. now exists a.
Qed.

Lemma read_attribute_without_parameter_witness :
  let params := [mkPropertyHeader "Cd" kVaryingScope TimeSampling_default PropOther;
                 mkPropertyHeader "st" kVertexScope TimeSampling_default
                                  (PropV2fUV (fun _ => mkV2fSample None None))] in
  let cached_data := CachedData_empty TimeSampling_default in
  (forall prop, In prop params ->
     prop_getName prop <> "Cd"%string \/ prop_data prop = PropOther \/
     ((exists getIndexed, prop_data prop = PropV2fUV getIndexed) /\
      prop_getScope prop <> kFacevaryingScope)) /\
  (forall util : CyclesUtil,
      read_attribute params 3 "Cd" cached_data =
      Some (set_attributes cached_data
              [mkCachedAttribute "Cd" ATTR_STD_NONE ATTR_ELEMENT_NONE TypeUnknown
                                 (mkDataStore [] TimeSampling_default)])).
Proof.
  cbv zeta.
  match goal with |- ?P /\ _ => assert (H : P) end.
  { intros prop [<-|[<-|[]]].
    - right. now left.
    - left. discriminate. }
  split; [exact H|]. intros util.
  exact (proj1 (@read_attribute_without_parameter util _ 3 "Cd"%string
                  (CachedData_empty TimeSampling_default) H)).
Defined.

Section FrameFacts.
Context {util : CyclesUtil}.

Lemma writes_only_refl name c : writes_only_attribute name c c.
Proof. split; [reflexivity|]. split; [reflexivity|]. auto. Qed.

Lemma writes_only_trans name a b c :
  writes_only_attribute name a b -> writes_only_attribute name b c ->
  writes_only_attribute name a c.
Proof.
  intros (Hs1 & Hn1 & Ha1) (Hs2 & Hn2 & Ha2).
  split; [congruence|]. split; [congruence|]. auto.
Qed.

Lemma writes_only_update name f c :
  (forall a, attr_name (f a) = attr_name a) ->
  writes_only_attribute name c (update_attribute c name f).
Proof.
  intros Hf. unfold update_attribute. split; [reflexivity|].
  cbn [attributes set_attributes]. split.
  - rewrite map_map. apply map_ext. intros a.
    destruct (String.eqb (attr_name a) name); [apply Hf|reflexivity].
  - intros a Hin Hne. apply in_map_iff. exists a. split; [|exact Hin].
    apply String.eqb_neq in Hne. now rewrite Hne.
Qed.

Ltac keeps_name := let a := fresh "a" in intros a; destruct a; reflexivity.

Lemma read_property_writes_only index name c prop c' :
  read_property index name c prop = Some c' -> writes_only_attribute name c c'.
Proof.
  unfold read_property.
  destruct (negb (String.eqb (prop_getName prop) name));
    [intros H; injection H as <-; apply writes_only_refl|].
  destruct (prop_data prop) as [gi|gi|gi|].
  - destruct (GeometryScope_eqb _ _);
      [|intros H; injection H as <-; apply writes_only_refl].
    match goal with |- context [update_attribute c name ?f] =>
      set (c1 := update_attribute c name f);
      assert (H1 : writes_only_attribute name c c1)
        by (apply writes_only_update; keeps_name)
    end.
    destruct (data_for_time _ (triangles c1) _) as [tris|];
      [destruct (data_for_time _ (triangles_loops c1) _) as [loops|]|];
      try (intros H; injection H as <-; exact H1).
    destruct (float2_corners _ _ _ _) as [d|]; [|discriminate].
    cbn [bind Monad_option ret]. intros H. injection H as <-.
    eapply writes_only_trans; [exact H1|]. apply writes_only_update. keeps_name.
  - match goal with |- context [update_attribute c name ?f] =>
      set (c1 := update_attribute c name f);
      assert (H1 : writes_only_attribute name c c1)
        by (apply writes_only_update; keeps_name)
    end.
    destruct (GeometryScope_eqb _ _); [|intros H; injection H as <-; exact H1].
    match goal with |- context [update_attribute c1 name ?f] =>
      set (c2 := update_attribute c1 name f);
      assert (H2 : writes_only_attribute name c c2)
        by (eapply writes_only_trans; [exact H1|apply writes_only_update; keeps_name])
    end.
    destruct (data_for_time _ (triangles c2) _) as [tris|];
      [|intros H; injection H as <-; exact H2].
    destruct (uchar4_corners _ _ _) as [d|]; [|discriminate].
    cbn [bind Monad_option ret]. intros H. injection H as <-.
    eapply writes_only_trans; [exact H2|]. apply writes_only_update. keeps_name.
  - match goal with |- context [update_attribute c name ?f] =>
      set (c1 := update_attribute c name f);
      assert (H1 : writes_only_attribute name c c1)
        by (apply writes_only_update; keeps_name)
    end.
    destruct (GeometryScope_eqb _ _); [|intros H; injection H as <-; exact H1].
    match goal with |- context [update_attribute c1 name ?f] =>
      set (c2 := update_attribute c1 name f);
      assert (H2 : writes_only_attribute name c c2)
        by (eapply writes_only_trans; [exact H1|apply writes_only_update; keeps_name])
    end.
    destruct (data_for_time _ (triangles c2) _) as [tris|];
      [|intros H; injection H as <-; exact H2].
    destruct (uchar4_corners _ _ _) as [d|]; [|discriminate].
    cbn [bind Monad_option ret]. intros H. injection H as <-.
    eapply writes_only_trans; [exact H2|]. apply writes_only_update. keeps_name.
  - intros H. injection H as <-. apply writes_only_refl.
Qed.

Lemma read_properties_writes_only index name props : forall c c',
  foldM (read_property index name) props c = Some c' -> writes_only_attribute name c c'.
Proof.
  induction props as [|p props IH]; intros c c' H.
  - injection H as <-. apply writes_only_refl.
  - cbn [foldM] in H.
    destruct (read_property index name c p) as [c1|] eqn:E1; [|discriminate].
    cbn [bind Monad_option] in H.
    eapply writes_only_trans; [apply (read_property_writes_only _ _ _ _ _ E1)|].
    now apply IH.
Qed.

End FrameFacts.

(** X13: reading an attribute for a sample, when it is defined, writes to
    that attribute only: the eight geometry channels are as they were, the
    attributes are those of the cache in which the attribute is registered,
    in the same order and under the same names, and an attribute of another
    name is as it was. *)
Theorem read_attribute_writes_one_attribute {util : CyclesUtil}
    (arb_geom_params : list PropertyHeader) (index : nat) (name : string)
    (cached_data cached_data' : CachedData) :
  read_attribute arb_geom_params index name cached_data = Some cached_data' ->
  CacheSpec.stores cached_data' = CacheSpec.stores cached_data /\
  map attr_name (attributes cached_data') =
    map attr_name (attributes (add_attribute cached_data name)) /\
  In name (map attr_name (attributes cached_data')) /\
  forall a, In a (attributes cached_data) -> attr_name a <> name ->
            In a (attributes cached_data').
Proof.
  unfold read_attribute. intros H.
  apply read_properties_writes_only in H. destruct H as (Hs & Hn & Ha).
  split; [now rewrite Hs, stores_add_attribute|]. split; [exact Hn|]. split.
  - rewrite Hn. unfold add_attribute.
    destruct (existsb _ (attributes cached_data)) eqn:E.
    + apply existsb_exists in E. destruct E as (a & Hin & Heq).
      apply String.eqb_eq in Heq. apply in_map_iff. now exists a.
    + cbn [attributes set_attributes]. rewrite map_app. apply in_or_app. right. now left.
  - intros a Hin Hne. apply Ha; [|exact Hne].
    unfold add_attribute. destruct (existsb _ _); [exact Hin|].
    cbn [attributes set_attributes]. apply in_or_app. now left.
Qed.

Lemma read_attribute_writes_one_attribute_witness :
  let util :=
    Build_CyclesUtil (fun T s _ => option_map snd (hd_error (data s)))
                     (fun _ => make_uchar4 Byte.x00 Byte.x00 Byte.x00 Byte.xff)
                     (fun _ => make_uchar4 Byte.x00 Byte.x00 Byte.x00 Byte.xff) in
  let params :=
    [mkPropertyHeader "Cd" kVaryingScope TimeSampling_default
       (PropC3f (fun _ => Some [make_float3 1 0 0; make_float3 0 1 0; make_float3 0 0 1]))] in
  let empty := CachedData_empty TimeSampling_default in
  let cached_data :=
    set_attributes
      (set_triangles empty (add_data (triangles empty) [make_int3 0 1 2] 0))
      [mkCachedAttribute "N" ATTR_STD_VERTEX_NORMAL ATTR_ELEMENT_NONE TypeUnknown
                         (mkDataStore [] TimeSampling_default)] in
  exists cached_data',
    @read_attribute util params 0 "Cd" cached_data = Some cached_data' /\
    CacheSpec.stores cached_data' = CacheSpec.stores cached_data /\
    map attr_name (attributes cached_data') = ["N"%string; "Cd"%string] /\
    map (fun a => size (attr_data a)) (attributes cached_data') = [0%nat; 1%nat].
Proof.
  cbv zeta.
  match goal with |- exists c', @read_attribute ?util ?params 0 ?name ?c = Some c' /\ _ =>
    set (u := util); set (l := params); set (cd := c)
  end.
  eexists. split; [reflexivity|].
  match goal with |- CacheSpec.stores ?t = _ /\ _ =>
    destruct (@read_attribute_writes_one_attribute u l 0 "Cd"%string cd t eq_refl)
      as (Hs & Hn & _)
  end.
  split; [exact Hs|]. split; [rewrite Hn; reflexivity|reflexivity].
Defined.

Section CornerFacts.
Local Open Scope Z_scope.

Lemma float2_corners_fold values indices (corner : Z -> float2) loops : forall acc,
  (forall loop k, In loop loops -> In k [ix loop; iy loop; iz loop] ->
     exists i, array_get indices k = Some i /\ array_get values i = Some (corner k)) ->
  foldM
    (fun data loop =>
       indices <- Some indices ;;
       values <- Some values ;;
       v0 <- array_get indices (ix loop) ;;
       v1 <- array_get indices (iy loop) ;;
       v2 <- array_get indices (iz loop) ;;
       a <- array_get values v0 ;;
       b <- array_get values v1 ;;
       c <- array_get values v2 ;;
       ret (data ++ [a; b; c]))
    loops acc =
  Some (acc ++ flat_map (fun loop => [corner (ix loop); corner (iy loop); corner (iz loop)])
                        loops).
Proof.
  induction loops as [|loop loops IH]; intros acc H.
  - cbn. now rewrite app_nil_r.
  - cbn [foldM flat_map bind Monad_option].
    destruct (H loop (ix loop)) as (i0 & -> & E0); [now left|now left|].
    destruct (H loop (iy loop)) as (i1 & -> & E1); [now left|right; now left|].
    destruct (H loop (iz loop)) as (i2 & -> & E2); [now left|right; right; now left|].
    cbn [bind Monad_option]. rewrite E0, E1, E2. cbn [bind Monad_option ret].
    rewrite IH by (intros l k Hl; apply H; now right).
    now rewrite <- app_assoc.
Qed.

End CornerFacts.

(** X14: the buffer of a face-varying UV attribute, for as many loop triples
    as triangles, each corner of which is in the index array and indexes a
    value: three entries per triangle, in the order of the triangles, the
    entry of a corner being the value at the index stored for that corner of
    the flattened face list. *)
Theorem float2_corners_reads_the_corners (values : list float2) (indices : list Z)
    (new_triangles new_triangles_loops : list int3) :
  List.length new_triangles_loops = List.length new_triangles ->
  (forall loop k, In loop new_triangles_loops -> In k [ix loop; iy loop; iz loop] ->
     (0 <= k < Z.of_nat (List.length indices))%Z /\
     (0 <= nth (Z.to_nat k) indices 0 < Z.of_nat (List.length values))%Z) ->
  let corner k :=
    nth (Z.to_nat (nth (Z.to_nat k) indices 0%Z)) values (make_float2 0 0) in
  let buffer :=
    flat_map (fun loop => [corner (ix loop); corner (iy loop); corner (iz loop)])
             new_triangles_loops in
  float2_corners (Some values) (Some indices) new_triangles new_triangles_loops =
    Some buffer /\
  List.length buffer = (3 * List.length new_triangles)%nat.
Proof.
  intros Hlen Hin corner buffer. split.
  - unfold float2_corners. rewrite Hlen, Nat.eqb_refl. cbn [negb].
    rewrite (float2_corners_fold values indices corner); [reflexivity|].
    intros loop k Hl Hk. destruct (Hin loop k Hl Hk) as [H1 H2].
    exists (nth (Z.to_nat k) indices 0%Z).
    split; apply array_get_ok; assumption.
  - rewrite <- Hlen. unfold buffer. clear.
    induction new_triangles_loops as [|l ls IH]; [reflexivity|].
    cbn [flat_map List.length app]. rewrite IH. lia.
Qed.

Lemma float2_corners_reads_the_corners_witness :
  let values := [make_float2 0 0; make_float2 1 0; make_float2 1 1; make_float2 0 1] in
  let indices := [0; 1; 2; 3; 2; 1]%Z in
  let new_triangles := [make_int3 10 11 12; make_int3 13 12 11] in
  let new_triangles_loops := [make_int3 0 1 2; make_int3 3 4 5] in
  List.length new_triangles_loops = List.length new_triangles /\
  (forall loop k, In loop new_triangles_loops -> In k [ix loop; iy loop; iz loop] ->
     (0 <= k < Z.of_nat (List.length indices))%Z /\
     (0 <= nth (Z.to_nat k) indices 0 < Z.of_nat (List.length values))%Z) /\
  float2_corners (Some values) (Some indices) new_triangles new_triangles_loops =
    Some [make_float2 0 0; make_float2 1 0; make_float2 1 1;
          make_float2 0 1; make_float2 1 1; make_float2 1 0].
Proof.
  cbv zeta.
  match goal with |- _ /\ ?P /\ _ => assert (H : P) end.
  { intros loop k [<-|[<-|[]]] [<-|[<-|[<-|[]]]]; vm_compute; intuition discriminate. }
  split; [reflexivity|]. split; [exact H|].
  exact (proj1 (float2_corners_reads_the_corners _ _ _ _ eq_refl H)).
Defined.

Lemma foldM_skips {A B : Type} (f : B -> A -> option B) (l : list A) (b : B) :
  (forall a, In a l -> f b a = Some b) -> foldM f l b = Some b.
Proof.
  induction l as [|a l IH]; intros H; [reflexivity|].
  cbn [foldM]. rewrite (H a (or_introl eq_refl)). cbn [bind Monad_option].
  apply IH. intros a' Ha'. apply H. now right.
Qed.

(** X15: the default UV set of a mesh, when no sample of it can be stored:
    its scope is not face-varying, or each sample is invalid or falls at a
    time for which the cache has no triangles or no loop triples. The
    attribute is registered under the name of the set, and nothing else is
    written: it is not tagged as the UV attribute and holds no sample. *)
Theorem read_default_uvs_stores_nothing {util : CyclesUtil}
    (uvs : IV2fGeomParam) (cached_data : CachedData) :
  (forall i, (i < uvs_getNumSamples uvs)%nat ->
     uvs_getScope uvs <> kFacevaryingScope \/
     V2fSample_valid (uvs_getIndexedValue uvs i) = false \/
     data_for_time _ (triangles cached_data)
                   (getSampleTime (uvs_getTimeSampling uvs) i) = None \/
     data_for_time _ (triangles_loops cached_data)
                   (getSampleTime (uvs_getTimeSampling uvs) i) = None) ->
  read_default_uvs uvs cached_data = Some (add_attribute cached_data (uvs_getName uvs)).
Proof.
  intros H. unfold read_default_uvs. apply foldM_skips.
  intros i Hi. apply in_seq in Hi. unfold read_default_uvs_sample.
  assert (Ht : triangles (add_attribute cached_data (uvs_getName uvs)) =
               triangles cached_data /\
               triangles_loops (add_attribute cached_data (uvs_getName uvs)) =
               triangles_loops cached_data).
  { unfold add_attribute. now destruct (existsb _ _). }
  destruct Ht as [-> ->].
  destruct (H i ltac:(lia)) as [Hscope|[Hvalid|[Htri|Hloops]]].
  - destruct (uvs_getScope uvs); try reflexivity. contradiction.
  - destruct (GeometryScope_eqb _ _); [|reflexivity]. now rewrite Hvalid.
  - destruct (GeometryScope_eqb _ _); [|reflexivity].
    destruct (negb _); [reflexivity|]. now rewrite Htri.
  - destruct (GeometryScope_eqb _ _); [|reflexivity].
    destruct (negb _); [reflexivity|].
    destruct (data_for_time _ (triangles cached_data) _); [rewrite Hloops|]; reflexivity.
Qed.

Lemma read_default_uvs_stores_nothing_witness :
  let util :=
    Build_CyclesUtil (fun T s _ => option_map snd (hd_error (data s)))
                     (fun _ => make_uchar4 Byte.x00 Byte.x00 Byte.x00 Byte.xff)
                     (fun _ => make_uchar4 Byte.x00 Byte.x00 Byte.x00 Byte.xff) in
  let uvs :=
    mkIV2fGeomParam true "uv" 2 kFacevaryingScope TimeSampling_default
      (fun _ => mkV2fSample (Some [make_float2 0 0]) (Some [0%Z])) in
  let cached_data := CachedData_empty TimeSampling_default in
  (forall i, (i < uvs_getNumSamples uvs)%nat ->
     uvs_getScope uvs <> kFacevaryingScope \/
     V2fSample_valid (uvs_getIndexedValue uvs i) = false \/
     @data_for_time util _ (triangles cached_data)
                    (getSampleTime (uvs_getTimeSampling uvs) i) = None \/
     @data_for_time util _ (triangles_loops cached_data)
                    (getSampleTime (uvs_getTimeSampling uvs) i) = None) /\
  @read_default_uvs util uvs cached_data =
    Some (set_attributes cached_data
            [mkCachedAttribute "uv" ATTR_STD_NONE ATTR_ELEMENT_NONE TypeUnknown
                               (mkDataStore [] TimeSampling_default)]).
Proof.
  cbv zeta.
  match goal with |- ?P /\ _ =>
    assert (H : P) by (intros i _; right; right; left; reflexivity)
  end.
  split; [exact H|].
  match goal with |- @read_default_uvs ?util ?uvs ?c = _ =>
    exact (@read_default_uvs_stores_nothing util uvs c H)
  end.
Defined.

(** ** The transform channel of a finalized cache *)

Section FinalizationFacts.
Context {imath : Imath}.

Lemma make_transform_refused m :
  make_transform m = None <-> extractSHRT m = None.
Proof.
  unfold make_transform, convert_yup_zup.
  destruct (extractSHRT m) as [[[[scale shear] rotation] translation]|].
  - split; discriminate.
  - split; reflexivity.
Qed.

Lemma make_transforms_length samples : forall l,
  TransformSpec.make_transforms samples = Some l ->
  List.length l = List.length samples.
Proof.
  induction samples as [|sample samples IH]; intros l H.
  - injection H as <-. reflexivity.
  - cbn [TransformSpec.make_transforms bind Monad_option ret] in H.
    destruct (make_transform (snd sample)) as [tfm|]; [|discriminate].
    destruct (TransformSpec.make_transforms samples) as [l'|]; [|discriminate].
    injection H as <-. cbn [List.length]. now rewrite (IH l').
Qed.

Lemma make_transforms_refused samples :
  TransformSpec.make_transforms samples = None <->
  exists m, In m (map snd samples) /\ extractSHRT m = None.
Proof.
  induction samples as [|sample samples IH].
  - split; [discriminate|]. intros (m & [] & _).
  - cbn [TransformSpec.make_transforms bind Monad_option ret map].
    destruct (make_transform (snd sample)) as [tfm|] eqn:E.
    + destruct (TransformSpec.make_transforms samples) as [l|].
      * split; [discriminate|]. intros (m & [<-|Hin] & Hm).
        -- apply make_transform_refused in Hm. congruence.
        -- assert (H : Some l = None) by (apply IH; now exists m). discriminate.
      * split; [|reflexivity]. intros _.
        destruct (proj1 IH eq_refl) as (m & Hin & Hm). exists m. split; [now right|exact Hm].
    + split; [|reflexivity]. intros _. exists (snd sample).
      split; [now left|]. now apply make_transform_refused.
Qed.

(** The converted samples: entry by entry, the time of the sample and the
    transform of its matrix. *)
Lemma make_transforms_entries samples : forall l,
  TransformSpec.make_transforms samples = Some l <->
  Forall2 (fun sample entry =>
             fst entry = fst sample /\ make_transform (snd sample) = Some (snd entry))
          samples l.
Proof.
  induction samples as [|sample samples IH]; intros l.
  - split.
    + intros H. injection H as <-. constructor.
    + intros H. inversion H. reflexivity.
  - cbn [TransformSpec.make_transforms bind Monad_option ret]. split.
    + destruct (make_transform (snd sample)) as [tfm|] eqn:E; [|discriminate].
      destruct (TransformSpec.make_transforms samples) as [l'|] eqn:El; [|discriminate].
      intros H. injection H as <-. constructor; [now split|]. now apply IH.
    + intros H. inversion H as [|? entry ? l' [Ht Hm] Hrest]; subst.
      rewrite Hm. apply IH in Hrest. rewrite Hrest.
      destruct entry as [t tfm]. cbn [fst snd] in *. now subst t.
Qed.

(** The finalization adds one entry, or one entry per sample. *)
Lemma added_transforms_length samples added :
  TransformSpec.added_transforms samples = Some added ->
  List.length added = 1%nat \/
  (samples <> [] /\ List.length added = List.length samples).
Proof.
  unfold TransformSpec.added_transforms.
  destruct samples as [|first rest]; [intros H; injection H as <-; now left|].
  destruct (TransformSpec.animated (first :: rest)).
  - intros H. right. split; [discriminate|]. now apply make_transforms_length.
  - cbn [bind Monad_option ret].
    destruct (make_transform _); [|discriminate]. intros H. injection H as <-. now left.
Qed.

(** The finalization has no entries to add exactly when the decomposition
    refuses one of the matrices that it converts. *)
Lemma added_transforms_refused samples :
  TransformSpec.added_transforms samples = None <->
  exists m, In m (TransformSpec.converted samples) /\ extractSHRT m = None.
Proof.
  unfold TransformSpec.added_transforms, TransformSpec.converted.
  destruct samples as [|first rest].
  - split; [discriminate|]. intros (m & [] & _).
  - destruct (TransformSpec.animated (first :: rest)).
    + apply make_transforms_refused.
    + cbn [bind Monad_option ret].
      destruct (make_transform (TransformSpec.compared_matrix first)) as [tfm|] eqn:E.
      * split; [discriminate|]. intros (m & [<-|[]] & Hm).
        apply make_transform_refused in Hm. congruence.
      * split; [|reflexivity]. intros _. eexists. split; [now left|].
        now apply make_transform_refused.
Qed.

Lemma setup_transform_cache_refused o :
  setup_transform_cache o = None <->
  exists m, In m (TransformSpec.converted (xform_samples o)) /\ extractSHRT m = None.
Proof.
  rewrite <- added_transforms_refused, setup_transform_cache_added.
  destruct (TransformSpec.added_transforms (xform_samples o)); split;
    try discriminate; reflexivity.
Qed.

End FinalizationFacts.

(** X16: the finalization of an object has no result exactly when the
    decomposition refuses (throws on) one of the matrices that it converts.
    When it has a result, it has written to the transform channel only: it
    added one sample, or as many samples as the object has transform
    samples, so that the channel is not left without a sample; it gave the
    channel the time sampling of the vertex channel; and it left the other
    channels, the attributes and the rest of the object as they were. *)
Theorem setup_transform_cache_writes_the_transforms {imath : Imath} (o : AlembicObject) :
  let cd := cached_data o in
  (setup_transform_cache o = None <->
   exists m, In m (TransformSpec.converted (xform_samples o)) /\ extractSHRT m = None) /\
  forall o', setup_transform_cache o = Some o' ->
    let cd' := cached_data o' in
    (iobject o', shader_requests o', xform_samples o', data_loaded o') =
      (iobject o, shader_requests o, xform_samples o, data_loaded o) /\
    (vertices cd', triangles cd', triangles_loops cd', curve_keys cd', curve_radius cd',
     curve_first_key cd', curve_shader cd', attributes cd') =
      (vertices cd, triangles cd, triangles_loops cd, curve_keys cd, curve_radius cd,
       curve_first_key cd, curve_shader cd, attributes cd) /\
    time_sampling (transforms cd') = time_sampling (vertices cd) /\
    (exists added,
        data (transforms cd') = data (transforms cd) ++ added /\
        (List.length added = 1%nat \/
         (xform_samples o <> [] /\ List.length added = List.length (xform_samples o)))) /\
    (1 <= size (transforms cd'))%nat.
Proof.
  cbv zeta. split; [apply setup_transform_cache_refused|].
  intros o' H. rewrite setup_transform_cache_added in H.
  destruct (TransformSpec.added_transforms (xform_samples o)) as [added|] eqn:E;
    [|discriminate].
  cbn [bind Monad_option ret] in H. injection H as <-.
  cbn [iobject shader_requests xform_samples data_loaded cached_data set_cached_data
       vertices triangles triangles_loops curve_keys curve_radius curve_first_key
       curve_shader attributes transforms set_transforms data time_sampling].
  split; [reflexivity|]. split; [reflexivity|]. split; [reflexivity|].
  pose proof (added_transforms_length _ _ E) as Hlen.
  split; [exists added; split; [reflexivity|exact Hlen]|].
  unfold size. cbn [data]. rewrite length_app.
  destruct Hlen as [H|[Hne H]]; [lia|].
  destruct (xform_samples o); [contradiction|]. cbn in H. lia.
Qed.

Lemma setup_transform_cache_writes_the_transforms_witness :
  let empty := CachedData_empty TimeSampling_default in
  let o := mkAlembicObject IObject_none [] [] empty false in
  let flat := mkAlembicObject IObject_none [] [(0, M44d_fill 0)] empty false in
  (forall imath : Imath,
      exists o',
        setup_transform_cache o = Some o' /\
        data (transforms (cached_data o')) = [(0, transform_identity)] /\
        attributes (cached_data o') = []) /\
  @setup_transform_cache Imath_example flat = None.
Proof.
  cbv zeta. split.
  - intros imath. eexists. split; [reflexivity|].
    match goal with |- data (transforms (cached_data ?o')) = _ /\ _ =>
      destruct (proj2 (@setup_transform_cache_writes_the_transforms imath
                         (mkAlembicObject IObject_none [] []
                            (CachedData_empty TimeSampling_default) false)) o' eq_refl)
        as (_ & Hsame & _ & _ & _)
    end.
    split; [reflexivity|]. exact (f_equal snd Hsame).
  - apply (proj1 (@setup_transform_cache_writes_the_transforms Imath_example _)).
    exists (M44d_fill 0). split; [now left|reflexivity].
Defined.

(** ** Loads that run to their end, or are cancelled after the samples *)

Section CompletedLoads.
Context {imath : Imath} {util : CyclesUtil}.

(** The loop, when no poll finds the flag set: the bodies of all the indices
    have run. *)
Lemma sample_loop_completed body progress : forall iters i r,
  (forall k, (k < iters)%nat -> get_cancel progress (polls r + k) = false) ->
  sample_loop body progress iters i r =
  (cd <- foldM (fun cd k => body k cd) (seq i iters) (cached_data (object r)) ;;
   ret (mkRun (set_cached_data (object r) cd) (polls r + iters) (processed r ++ seq i iters),
        Completed)).
Proof.
  induction iters as [|n IH]; intros i r Hrun.
  - cbn [sample_loop seq foldM bind Monad_option ret].
    rewrite set_cached_data_same, app_nil_r, Nat.add_0_r. now destruct r.
  - cbn [sample_loop seq foldM].
    pose proof (Hrun 0%nat ltac:(lia)) as H0. rewrite Nat.add_0_r in H0. rewrite H0.
    cbn [object polls processed].
    destruct (body i (cached_data (object r))) as [cd|]; [|reflexivity].
    cbn [bind Monad_option]. rewrite IH; cbn [object polls processed].
    + destruct (object r); cbn [set_cached_data cached_data shader_requests
                                 xform_samples data_loaded iobject].
      destruct (foldM _ _ cd); [|reflexivity]. cbn [bind Monad_option ret].
      now rewrite <- app_assoc, Nat.add_succ_r.
    + intros k Hk. rewrite <- (Hrun (S k)) by lia. f_equal. lia.
Qed.

(** The curve channels after the first [m] samples of a schema, each of
    which gives its arrays. *)
Lemma after_curves_samples schema (arr : nat -> CurveArrays) : forall m c,
  (forall i, (i < m)%nat ->
     curve_arrays (Curves.getCurvesNumVertices (Curves.getValue schema i))
                  (Curves.getPositions (Curves.getValue schema i)) = Some (arr i)) ->
  exists cd,
    CacheSpec.after_samples (load_curves_sample schema) m c = Some cd /\
    (vertices cd, triangles cd, triangles_loops cd, transforms cd, attributes cd) =
      (vertices c, triangles c, triangles_loops c, transforms c, attributes c) /\
    let time i := getSampleTime (Curves.getTimeSampling schema) i in
    data (curve_keys cd) =
      data (curve_keys c) ++ map (fun i => (time i, keys (arr i))) (seq 0 m) /\
    data (curve_radius cd) =
      data (curve_radius c) ++ map (fun i => (time i, radius (arr i))) (seq 0 m) /\
    data (curve_first_key cd) =
      data (curve_first_key c) ++ map (fun i => (time i, first_key (arr i))) (seq 0 m) /\
    data (curve_shader cd) =
      data (curve_shader c) ++ map (fun i => (time i, shader (arr i))) (seq 0 m).
Proof.
  unfold CacheSpec.after_samples.
  induction m as [|m IH]; intros c Harr.
  - exists c. cbn. rewrite !app_nil_r. repeat split; reflexivity.
  - destruct (IH c) as (cd & E & Hsame & Hk & Hr & Hf & Hs);
      [intros i Hi; apply Harr; lia|].
    rewrite seq_S, foldM_app, E. cbn [Nat.add bind Monad_option foldM].
    unfold load_curves_sample at 1. rewrite (Harr m) by lia.
    cbn [bind Monad_option ret]. eexists. split; [reflexivity|].
    split; [exact Hsame|]. cbv zeta in *. unfold add_curve_arrays.
    cbn [curve_keys curve_radius curve_first_key curve_shader set_curve_keys
         set_curve_radius set_curve_first_key set_curve_shader add_data data].
    rewrite Hk, Hr, Hf, Hs, !map_app, <- !app_assoc. repeat split; reflexivity.
Qed.

End CompletedLoads.

(** X17: a curve load whose polls never find the flag set, on a schema each
    sample of which gives its arrays. The load has no result exactly when the
    decomposition refuses (throws on) one of the matrices that the
    finalization converts: the exception leaves the load before the object
    is marked as loaded. Otherwise the load polls once per sample and
    processes every sample index in order, it marks the object as loaded,
    each of the four curve channels holds one entry per sample, that of
    sample [i] being the array built from the sample, under the time of the
    sample, and the transform channel holds the entries of the finalization
    and no other. *)
Theorem load_all_data_curves_completed {imath : Imath} {util : CyclesUtil}
    (schema : Curves.Schema) (progress : Progress) (o : AlembicObject) :
  let n := Curves.getNumSamples schema in
  let time i := getSampleTime (Curves.getTimeSampling schema) i in
  let arrays i :=
    curve_arrays (Curves.getCurvesNumVertices (Curves.getValue schema i))
                 (Curves.getPositions (Curves.getValue schema i)) in
  (forall k, (k < n)%nat -> get_cancel progress k = false) ->
  (forall i, (i < n)%nat -> arrays i <> None) ->
  (load_all_data_curves schema progress o = None <->
   exists m, In m (TransformSpec.converted (xform_samples o)) /\ extractSHRT m = None) /\
  ((forall m, In m (TransformSpec.converted (xform_samples o)) -> extractSHRT m <> None) ->
    exists r,
      load_all_data_curves schema progress o = Some r /\
      data_loaded (object r) = true /\ polls r = n /\ processed r = seq 0 n /\
      TransformSpec.added_transforms (xform_samples o) =
        Some (data (transforms (cached_data (object r)))) /\
      (1 <= size (transforms (cached_data (object r))))%nat /\
      let cd := cached_data (object r) in
      (size (curve_keys cd), size (curve_radius cd),
       size (curve_first_key cd), size (curve_shader cd)) = (n, n, n, n) /\
      forall i, (i < n)%nat ->
        exists a,
          arrays i = Some a /\
          nth_error (data (curve_keys cd)) i = Some (time i, keys a) /\
          nth_error (data (curve_radius cd)) i = Some (time i, radius a) /\
          nth_error (data (curve_first_key cd)) i = Some (time i, first_key a) /\
          nth_error (data (curve_shader cd)) i = Some (time i, shader a)).
Proof.
  intros n time arrays Hrun Hdef.
  set (arr i := match arrays i with Some a => a | None => mkCurveArrays [] [] [] [] end).
  assert (Harr : forall i, (i < n)%nat -> arrays i = Some (arr i)).
  { intros i Hi. unfold arr. specialize (Hdef i Hi). now destruct (arrays i). }
  set (o0 := clear_and_set_curves_sampling schema o).
  destruct (after_curves_samples schema arr n (cached_data o0) Harr)
    as (cd & E & Hsame & Hk & Hr & Hf & Hs).
  assert (Hx : data (transforms cd) = []) by now injection Hsame as _ _ _ -> _.
  assert (Eload :
            load_all_data_curves schema progress o =
            (added <- TransformSpec.added_transforms (xform_samples o) ;;
             ret (mkRun
                    (set_data_loaded
                       (set_cached_data o0
                          (set_transforms cd
                             (mkDataStore added (time_sampling (vertices cd))))) true)
                    n (seq 0 n)))).
  { unfold load_all_data_curves. fold o0.
    rewrite (sample_loop_completed _ progress n 0 (mkRun o0 0 [])) by exact Hrun.
    cbn [object polls processed Nat.add app].
    unfold CacheSpec.after_samples in E. rewrite E. cbn [bind Monad_option ret].
    cbn [object polls processed]. rewrite setup_transform_cache_added.
    change (xform_samples (set_cached_data o0 cd)) with (xform_samples o).
    destruct (TransformSpec.added_transforms (xform_samples o)) as [added|];
      [|reflexivity].
    cbn [bind Monad_option ret cached_data set_cached_data]. rewrite Hx.
    reflexivity. }
  split.
  - rewrite <- added_transforms_refused, Eload.
    destruct (TransformSpec.added_transforms (xform_samples o)); split;
      try discriminate; reflexivity.
  - intros Haccepted.
    destruct (TransformSpec.added_transforms (xform_samples o)) as [added|] eqn:Hadded.
    2: { destruct (proj1 (added_transforms_refused _) Hadded) as (m & Hin & Hm).
         now destruct (Haccepted m Hin). }
    rewrite Eload. cbn [bind Monad_option ret].
    eexists. split; [reflexivity|]. cbn [object polls processed].
    split; [reflexivity|]. split; [reflexivity|]. split; [reflexivity|].
    cbn [cached_data set_data_loaded set_cached_data curve_keys curve_radius
         curve_first_key curve_shader transforms set_transforms data].
    split; [reflexivity|].
    split.
    { unfold size. cbn [data].
      destruct (added_transforms_length _ _ Hadded) as [H|[Hne H]]; [lia|].
      destruct (xform_samples o); [contradiction|]. cbn in H. lia. }
    cbv zeta in *. unfold size. rewrite Hk, Hr, Hf, Hs.
    replace (data (curve_keys (cached_data o0))) with (@nil (float * list Vec3))
      by reflexivity.
    replace (data (curve_radius (cached_data o0))) with (@nil (float * list float))
      by reflexivity.
    replace (data (curve_first_key (cached_data o0))) with (@nil (float * list Z))
      by reflexivity.
    replace (data (curve_shader (cached_data o0))) with (@nil (float * list Z))
      by reflexivity.
    cbn [app]. rewrite !length_map, !length_seq. split; [reflexivity|].
    intros i Hi. exists (arr i). split; [now apply Harr|].
    rewrite !nth_error_map, nth_error_seq.
    destruct (Nat.ltb_spec i n) as [_|Hge]; [|lia]. cbn [option_map Nat.add].
    repeat split; reflexivity.
Qed.

Lemma load_all_data_curves_completed_witness :
  let progress := mkProgress (fun _ => false) in
  let schema :=
    Curves.mkSchema 2 TimeSampling_default
      (fun _ => Curves.mkSample (Some [2%Z])
                                (Some [make_float3 5 6 7; make_float3 1 2 3])) in
  let empty := CachedData_empty TimeSampling_default in
  let o := mkAlembicObject IObject_none [] [] empty false in
  let flat := mkAlembicObject IObject_none [] [(0, M44d_fill 0)] empty false in
  (forall k, (k < Curves.getNumSamples schema)%nat -> get_cancel progress k = false) /\
  (forall i, (i < Curves.getNumSamples schema)%nat ->
     curve_arrays (Curves.getCurvesNumVertices (Curves.getValue schema i))
                  (Curves.getPositions (Curves.getValue schema i)) <> None) /\
  (forall (imath : Imath) (m : M44d),
      In m (TransformSpec.converted (xform_samples o)) -> extractSHRT m <> None) /\
  (forall (imath : Imath) (util : CyclesUtil),
      exists r, load_all_data_curves schema progress o = Some r /\
                data_loaded (object r) = true /\ polls r = 2%nat /\
                data (transforms (cached_data (object r))) = [(0, transform_identity)] /\
                nth_error (data (curve_keys (cached_data (object r)))) 1 =
                Some (1, [make_float3 5 (-7) 6; make_float3 1 (-3) 2])) /\
  (forall util : CyclesUtil,
      @load_all_data_curves Imath_example schema progress flat = None).
Proof.
  cbv zeta.
  match goal with |- _ /\ ?P /\ _ => assert (H : P) by (intros i _; discriminate) end.
  split; [reflexivity|]. split; [exact H|].
  split; [intros imath m []|]. split.
  - intros imath util.
    match goal with |- exists r, load_all_data_curves ?s ?p ?o = _ /\ _ =>
      destruct (proj2 (@load_all_data_curves_completed imath util s p o
                         (fun _ _ => eq_refl) H) (fun m (Hin : False) => match Hin with end))
        as (r & Hr & Hl & Hp & _ & Hx & _ & _ & Hd)
    end.
    exists r. split; [exact Hr|]. split; [exact Hl|]. split; [exact Hp|].
    split; [now injection Hx as <-|].
    destruct (Hd 1%nat ltac:(cbn; lia)) as (a & Ha & Hk & _).
    rewrite Hk. cbn in Ha. injection Ha as <-. vm_compute. reflexivity.
  - intros util.
    match goal with |- @load_all_data_curves _ ?s ?p ?o = _ =>
      apply (proj1 (@load_all_data_curves_completed Imath_example util s p o
                      (fun _ _ => eq_refl) H))
    end.
    exists (M44d_fill 0). split; [now left|reflexivity].
Defined.

Section MeshLoads.
Context {imath : Imath} {util : CyclesUtil}.

(** The mesh load after its sample loop: the three polls, the default UV
    set between the first and the second, the finalization after the third. *)
Lemma load_all_data_mesh_after_loop schema progress o :
  let n := PolyMesh.getNumSamples schema in
  let o0 := clear_and_set_mesh_sampling schema o in
  let uvs := PolyMesh.getUVsParam schema in
  (forall k, (k < n)%nat -> get_cancel progress k = false) ->
  load_all_data_mesh schema progress o =
  (cd <- CacheSpec.after_samples (load_mesh_sample schema (get_requested_attributes o0))
                                 n (cached_data o0) ;;
   if get_cancel progress n then ret (mkRun (set_cached_data o0 cd) (n + 1) (seq 0 n))
   else
     cd <- (if uvs_valid uvs then read_default_uvs uvs cd else ret cd) ;;
     if get_cancel progress (n + 1)
     then ret (mkRun (set_cached_data o0 cd) (n + 2) (seq 0 n))
     else if get_cancel progress (n + 2)
     then ret (mkRun (set_cached_data o0 cd) (n + 3) (seq 0 n))
     else
       o1 <- setup_transform_cache (set_cached_data o0 cd) ;;
       ret (mkRun (set_data_loaded o1 true) (n + 3) (seq 0 n))).
Proof.
  intros n o0 uvs Hrun. unfold load_all_data_mesh. fold o0. fold n.
  rewrite (sample_loop_completed _ progress n 0 (mkRun o0 0 [])) by exact Hrun.
  cbn [object polls processed Nat.add app]. unfold CacheSpec.after_samples.
  destruct (foldM _ (seq 0 n) (cached_data o0)) as [cd|]; [|reflexivity].
  cbn [bind Monad_option ret]. unfold poll. cbn [object polls processed].
  replace (S n) with (n + 1)%nat by lia.
  destruct (get_cancel progress n); [reflexivity|].
  cbn [cached_data set_cached_data]. fold uvs.
  replace (cached_data (set_cached_data o0 cd)) with cd by now destruct o0.
  cbn [bind Monad_option ret].
  destruct (if uvs_valid uvs then _ else _) as [cd'|]; [|reflexivity].
  cbn [bind Monad_option ret object polls processed].
  replace (set_cached_data (set_cached_data o0 cd) cd') with (set_cached_data o0 cd')
    by now destruct o0.
  replace (S (n + 1)) with (n + 2)%nat by lia.
  destruct (get_cancel progress (n + 1)); [reflexivity|].
  replace (S (n + 2)) with (n + 3)%nat by lia.
  destruct (get_cancel progress (n + 2)); reflexivity.
Qed.

(** The default UV set leaves the transform channel as it is. *)
Lemma default_uvs_keep_transforms (uvs : IV2fGeomParam) cd cd' :
  (if uvs_valid uvs then read_default_uvs uvs cd else ret cd) = Some cd' ->
  transforms cd' = transforms cd.
Proof.
  intros H. destruct (uvs_valid uvs); [|now injection H as <-].
  unfold read_default_uvs in H.
  assert (Hsame : forall l c1 c2,
             foldM (read_default_uvs_sample uvs) l c1 = Some c2 ->
             transforms c2 = transforms c1).
  { induction l as [|i l IH]; intros c1 c2 Hl; [now injection Hl as <-|].
    cbn [foldM] in Hl.
    destruct (read_default_uvs_sample _ c1 i) as [c3|] eqn:E3; [|discriminate].
    cbn [bind Monad_option] in Hl. rewrite (IH _ _ Hl).
    unfold read_default_uvs_sample in E3.
    destruct (GeometryScope_eqb _ _); [|now injection E3 as <-].
    destruct (negb _); [now injection E3 as <-|].
    destruct (data_for_time _ (triangles c1) _);
      [destruct (data_for_time _ (triangles_loops c1) _)|];
      try (now injection E3 as <-).
    destruct (float2_corners _ _ _ _); [|discriminate].
    cbn [bind Monad_option ret] in E3. now injection E3 as <-. }
  rewrite (Hsame _ _ _ H). unfold add_attribute. now destruct (existsb _ _).
Qed.

(** The bodies of the sample loop leave the transform channel as it is. *)
Lemma mesh_samples_keep_transforms schema requested : forall m c cd,
  CacheSpec.after_samples (load_mesh_sample schema requested) m c = Some cd ->
  transforms cd = transforms c.
Proof.
  unfold CacheSpec.after_samples. induction m as [|m IH]; intros c cd H.
  - now injection H as <-.
  - rewrite seq_S, foldM_app in H. cbn [Nat.add] in H.
    destruct (foldM _ (seq 0 m) c) as [c1|] eqn:E1; [|discriminate].
    cbn [bind Monad_option foldM] in H. specialize (IH c c1 E1).
    destruct (load_mesh_sample _ _ m c1) as [c2|] eqn:E2; [|discriminate].
    cbn [bind Monad_option ret] in H. injection H as <-.
    unfold load_mesh_sample in E2.
    destruct (add_triangles _ _ _ _) as [c3|] eqn:E3; [|discriminate].
    cbn [bind Monad_option] in E2.
    destruct (add_triangles_sizes _ _ _ _ _ E3) as (Hsame & _ & _).
    injection Hsame as _ Ex _ _ _ _ _.
    assert (Hattrs : forall l ca cb,
               foldM (fun cd attr =>
                        read_attribute (PolyMesh.getArbGeomParams schema) m attr cd)
                     l ca = Some cb -> transforms cb = transforms ca).
    { induction l as [|a l IHl]; intros ca cb Hl; [now injection Hl as <-|].
      cbn [foldM] in Hl.
      destruct (read_attribute _ m a ca) as [cc|] eqn:Ec; [|discriminate].
      cbn [bind Monad_option] in Hl. rewrite (IHl _ _ Hl).
      unfold read_attribute in Ec. apply read_properties_writes_only in Ec.
      destruct Ec as (Hs & _). rewrite stores_add_attribute in Hs.
      unfold CacheSpec.stores in Hs. now injection Hs. }
    rewrite (Hattrs _ _ _ E2), Ex, <- IH.
    unfold add_positions. now destruct (PolyMesh.getPositions _).
Qed.

End MeshLoads.

(** X18: a mesh load whose polls never find the flag set. It polls once per
    sample and three times after the samples; it runs the body of every
    sample index in order, then reads the default UV set when the schema has
    a valid one, then finalizes the transforms and marks the object as
    loaded, and it has a result when each of these steps has one. When the
    decomposition refuses (throws on) one of the matrices that the
    finalization converts, the load has no result: the exception leaves it
    before the object is marked as loaded. In the cache that a load leaves,
    the transform channel holds the entries of the finalization and no
    other. *)
Theorem load_all_data_mesh_completed {imath : Imath} {util : CyclesUtil}
    (schema : PolyMesh.Schema) (progress : Progress) (o : AlembicObject) :
  let n := PolyMesh.getNumSamples schema in
  let o0 := clear_and_set_mesh_sampling schema o in
  let uvs := PolyMesh.getUVsParam schema in
  (forall k, (k < n + 3)%nat -> get_cancel progress k = false) ->
  load_all_data_mesh schema progress o =
    (cd <- CacheSpec.after_samples (load_mesh_sample schema (get_requested_attributes o0))
                                   n (cached_data o0) ;;
     cd <- (if uvs_valid uvs then read_default_uvs uvs cd else ret cd) ;;
     o1 <- setup_transform_cache (set_cached_data o0 cd) ;;
     ret (mkRun (set_data_loaded o1 true) (n + 3) (seq 0 n))) /\
  ((exists m, In m (TransformSpec.converted (xform_samples o)) /\ extractSHRT m = None) ->
   load_all_data_mesh schema progress o = None) /\
  forall r, load_all_data_mesh schema progress o = Some r ->
            data_loaded (object r) = true /\ polls r = (n + 3)%nat /\
            processed r = seq 0 n /\
            TransformSpec.added_transforms (xform_samples o) =
              Some (data (transforms (cached_data (object r)))) /\
            (1 <= size (transforms (cached_data (object r))))%nat.
Proof.
  intros n o0 uvs Hrun.
  assert (E : load_all_data_mesh schema progress o =
              (cd <- CacheSpec.after_samples
                       (load_mesh_sample schema (get_requested_attributes o0))
                       n (cached_data o0) ;;
               cd <- (if uvs_valid uvs then read_default_uvs uvs cd else ret cd) ;;
               o1 <- setup_transform_cache (set_cached_data o0 cd) ;;
               ret (mkRun (set_data_loaded o1 true) (n + 3) (seq 0 n)))).
  { rewrite load_all_data_mesh_after_loop by (intros k Hk; apply Hrun; lia).
    fold n o0 uvs.
    rewrite (Hrun n), (Hrun (n + 1)%nat), (Hrun (n + 2)%nat) by lia. reflexivity. }
  split; [exact E|]. split.
  - intros Hm. rewrite E.
    destruct (CacheSpec.after_samples _ n (cached_data o0)) as [cd|]; [|reflexivity].
    cbn [bind Monad_option].
    destruct (if uvs_valid uvs then read_default_uvs uvs cd else ret cd) as [cd'|];
      [|reflexivity].
    cbn [bind Monad_option].
    assert (Hnone : setup_transform_cache (set_cached_data o0 cd') = None).
    { apply setup_transform_cache_refused. exact Hm. }
    now rewrite Hnone.
  - intros r Hr. rewrite E in Hr.
    destruct (CacheSpec.after_samples _ n (cached_data o0)) as [cd|] eqn:Es;
      [|discriminate].
    cbn [bind Monad_option] in Hr.
    destruct (if uvs_valid uvs then read_default_uvs uvs cd else ret cd) as [cd'|] eqn:Eu;
      [|discriminate].
    cbn [bind Monad_option ret] in Hr.
    rewrite setup_transform_cache_added in Hr.
    change (xform_samples (set_cached_data o0 cd')) with (xform_samples o) in Hr.
    destruct (TransformSpec.added_transforms (xform_samples o)) as [added|] eqn:Ea;
      [|discriminate].
    cbn [bind Monad_option ret] in Hr. injection Hr as <-.
    cbn [object polls processed data_loaded set_data_loaded cached_data set_cached_data
         transforms set_transforms data].
    rewrite (default_uvs_keep_transforms _ _ _ Eu), (mesh_samples_keep_transforms _ _ _ _ _ Es).
    change (data (transforms (cached_data o0))) with (@nil (chrono_t * Transform)).
    cbn [app].
    split; [reflexivity|]. split; [reflexivity|]. split; [reflexivity|].
    split; [reflexivity|].
    unfold size. cbn [data].
    destruct (added_transforms_length _ _ Ea) as [H|[Hne H]]; [lia|].
    destruct (xform_samples o); [contradiction|]. cbn in H. lia.
Qed.

(** X19: a mesh load that finds the flag set at one of its polls, in the
    sample loop or at one of the three polls after it, returns from that
    poll: the object is not marked as loaded, its transform channel is left
    empty, and the sample indices processed are those before the poll. *)
Theorem load_all_data_mesh_cancelled {imath : Imath} {util : CyclesUtil}
    (schema : PolyMesh.Schema) (progress : Progress) (o : AlembicObject) (c : nat) :
  let n := PolyMesh.getNumSamples schema in
  (forall k, (k < c)%nat -> get_cancel progress k = false) ->
  get_cancel progress c = true -> (c < n + 3)%nat ->
  forall r, load_all_data_mesh schema progress o = Some r ->
            data_loaded (object r) = data_loaded o /\
            data (transforms (cached_data (object r))) = [] /\
            polls r = S c /\ processed r = seq 0 (Nat.min c n).
Proof.
  intros n Hfalse Htrue Hc r Hr.
  set (o0 := clear_and_set_mesh_sampling schema o) in *.
  assert (Hframe : forall cd cd',
             data (transforms cd) = [] ->
             (if uvs_valid (PolyMesh.getUVsParam schema)
              then read_default_uvs (PolyMesh.getUVsParam schema) cd else ret cd) =
             Some cd' ->
             data (transforms cd') = []).
  { intros cd cd' H0 H. now rewrite (default_uvs_keep_transforms _ _ _ H). }
  assert (Hsamples : forall m cd,
             CacheSpec.after_samples
               (load_mesh_sample schema (get_requested_attributes o0)) m (cached_data o0) =
             Some cd -> data (transforms cd) = []).
  { intros m cd H. now rewrite (mesh_samples_keep_transforms _ _ _ _ _ H). }
  destruct (Nat.lt_ge_cases c n) as [Hin|Hout].
  - unfold load_all_data_mesh in Hr. fold o0 in Hr.
    rewrite (sample_loop_cancelled _ progress _ 0 (mkRun o0 0 []) c Hin Hfalse Htrue) in Hr.
    cbn [object polls processed Nat.add app] in Hr.
    pose proof (Hsamples c) as Hs. unfold CacheSpec.after_samples in Hs.
    destruct (foldM _ (seq 0 c) (cached_data o0)) as [cd|]; [|discriminate].
    cbn [bind Monad_option ret] in Hr. injection Hr as <-.
    cbn [object polls processed cached_data set_cached_data data_loaded].
    rewrite (Hs cd eq_refl), Nat.min_l by lia. repeat split; reflexivity.
  - rewrite load_all_data_mesh_after_loop in Hr by (intros k Hk; apply Hfalse; lia).
    fold n o0 in Hr. pose proof (Hsamples n) as Hs.
    destruct (CacheSpec.after_samples _ n (cached_data o0)) as [cd|]; [|discriminate].
    cbn [bind Monad_option] in Hr. specialize (Hs cd eq_refl).
    rewrite Nat.min_r by lia.
    destruct (Nat.eq_dec c n) as [->|Hn].
    + rewrite Htrue in Hr. cbn [ret Monad_option] in Hr. injection Hr as <-.
      cbn [object polls processed cached_data set_cached_data data_loaded].
      rewrite Hs. repeat split; try reflexivity. lia.
    + rewrite (Hfalse n) in Hr by lia.
      destruct (if uvs_valid _ then _ else _) as [cd'|] eqn:Eu; [|discriminate].
      cbn [bind Monad_option] in Hr. pose proof (Hframe cd cd' Hs Eu) as Hs'.
      destruct (Nat.eq_dec c (n + 1)) as [->|Hn1].
      * rewrite Htrue in Hr. cbn [ret Monad_option] in Hr. injection Hr as <-.
        cbn [object polls processed cached_data set_cached_data data_loaded].
        rewrite Hs'. repeat split; try reflexivity. lia.
      * rewrite (Hfalse (n + 1)%nat) in Hr by lia.
        replace c with (n + 2)%nat in * by lia.
        rewrite Htrue in Hr. cbn [ret Monad_option] in Hr. injection Hr as <-.
        cbn [object polls processed cached_data set_cached_data data_loaded].
        rewrite Hs'. repeat split; try reflexivity. lia.
Qed.

Lemma load_all_data_mesh_completed_witness :
  let progress := mkProgress (fun _ => false) in
  let schema :=
    PolyMesh.mkSchema 1 TimeSampling_default
      (fun _ => PolyMesh.mkSample (Some [make_float3 0 0 0; make_float3 1 0 0;
                                         make_float3 1 1 0; make_float3 0 1 0])
                                  (Some [4%Z]) (Some [0; 1; 2; 3]%Z))
      [] (mkIV2fGeomParam false EmptyString 0 kUnknownScope TimeSampling_default
                          (fun _ => mkV2fSample None None)) in
  let empty := CachedData_empty TimeSampling_default in
  let o := mkAlembicObject IObject_none [] [] empty false in
  let flat := mkAlembicObject IObject_none [] [(0, M44d_fill 0)] empty false in
  (forall k, (k < PolyMesh.getNumSamples schema + 3)%nat -> get_cancel progress k = false) /\
  (forall (imath : Imath) (util : CyclesUtil),
      exists r, load_all_data_mesh schema progress o = Some r /\
                data_loaded (object r) = true /\ polls r = 4%nat /\
                map snd (data (triangles (cached_data (object r)))) =
                [[make_int3 0 1 2; make_int3 0 2 3]] /\
                map snd (data (transforms (cached_data (object r)))) = [transform_identity]) /\
  (exists m, In m (TransformSpec.converted (xform_samples flat)) /\
             @extractSHRT Imath_example m = None) /\
  (forall util : CyclesUtil,
      @load_all_data_mesh Imath_example util schema progress flat = None).
Proof.
  cbv zeta. split; [reflexivity|]. split; [|split].
  - intros imath util. eexists. split.
    + match goal with |- load_all_data_mesh ?s ?p ?o = _ =>
        rewrite (proj1 (@load_all_data_mesh_completed imath util s p o (fun _ _ => eq_refl)))
      end.
      reflexivity.
    + repeat split; reflexivity.
  - exists (M44d_fill 0). split; [now left|reflexivity].
  - intros util.
    match goal with |- @load_all_data_mesh _ _ ?s ?p ?o = _ =>
      apply (proj1 (proj2 (@load_all_data_mesh_completed Imath_example util s p o
                             (fun _ _ => eq_refl))))
    end.
    exists (M44d_fill 0). split; [now left|reflexivity].
Defined.

Lemma load_all_data_mesh_cancelled_witness :
  let progress := mkProgress (fun k => Nat.leb 1 k) in
  let schema :=
    PolyMesh.mkSchema 1 TimeSampling_default
      (fun _ => PolyMesh.mkSample (Some [make_float3 0 0 0; make_float3 1 0 0;
                                         make_float3 1 1 0; make_float3 0 1 0])
                                  (Some [4%Z]) (Some [0; 1; 2; 3]%Z))
      [] (mkIV2fGeomParam false EmptyString 0 kUnknownScope TimeSampling_default
                          (fun _ => mkV2fSample None None)) in
  let o := mkAlembicObject IObject_none [] [] (CachedData_empty TimeSampling_default) false in
  (forall k, (k < 1)%nat -> get_cancel progress k = false) /\
  get_cancel progress 1 = true /\ (1 < PolyMesh.getNumSamples schema + 3)%nat /\
  (forall (imath : Imath) (util : CyclesUtil),
      exists r, load_all_data_mesh schema progress o = Some r /\
                data_loaded (object r) = false /\
                data (transforms (cached_data (object r))) = [] /\
                polls r = 2%nat /\ processed r = [0%nat]).
Proof.
  cbv zeta.
  assert (H1 : forall k, (k < 1)%nat ->
                         get_cancel (mkProgress (fun k => Nat.leb 1 k)) k = false).
  { intros [|k] Hk; [reflexivity|lia]. }
  split; [exact H1|]. split; [reflexivity|]. split; [cbn; lia|].
  intros imath util. eexists. split; [reflexivity|].
  match goal with |- data_loaded (object ?r) = _ /\ _ =>
    exact (@load_all_data_mesh_cancelled imath util
             (PolyMesh.mkSchema 1 TimeSampling_default
                (fun _ => PolyMesh.mkSample (Some [make_float3 0 0 0; make_float3 1 0 0;
                                                   make_float3 1 1 0; make_float3 0 1 0])
                                            (Some [4%Z]) (Some [0; 1; 2; 3]%Z))
                [] (mkIV2fGeomParam false EmptyString 0 kUnknownScope TimeSampling_default
                                    (fun _ => mkV2fSample None None)))
             (mkProgress (fun k => Nat.leb 1 k))
             (mkAlembicObject IObject_none [] [] (CachedData_empty TimeSampling_default)
                              false)
             1%nat H1 eq_refl ltac:(cbn; lia) r eq_refl)
  end.
Defined.

(** ** The driver once the archive is open *)

Section OpenDriverFacts.
Context {world : World}.

(** The loop over the objects visits each object once: it returns as many
    objects as it was given. *)
Lemma objects_loop_length progress frame_time : forall todo done scene polls,
  let '(_, objs, _, _) := objects_loop progress frame_time todo done scene polls in
  List.length objs = (List.length done + List.length todo)%nat.
Proof.
  induction todo as [|o rest IH]; intros done scene polls.
  - cbn. lia.
  - cbn [objects_loop]. destruct (get_cancel progress polls).
    + rewrite length_app. reflexivity.
    + assert (Hnext : forall scene' o' polls',
                 let '(_, objs, _, _) :=
                   objects_loop progress frame_time rest (done ++ [o']) scene' polls' in
                 List.length objs = (List.length done + List.length (o :: rest))%nat).
      { intros scene' o' polls'. specialize (IH (done ++ [o']) scene' polls').
        destruct (objects_loop _ _ rest _ _ _) as [[[s objs] n] e].
        rewrite IH, length_app. cbn. lia. }
      destruct (has_data_loaded o && is_constant o); [apply Hnext|].
      destruct (iobject o); try apply Hnext.
      * destruct (read_mesh _ _ _ _ _) as [[s o'] n]. apply Hnext.
      * destruct (read_curves _ _ _ _ _) as [[s o'] n]. apply Hnext.
Qed.

(** With a flag that is never set, the loop runs to its end. *)
Lemma objects_loop_completed progress frame_time :
  (forall k, get_cancel progress k = false) ->
  forall todo done scene polls,
    snd (objects_loop progress frame_time todo done scene polls) = Completed.
Proof.
  intros Hrun. induction todo as [|o rest IH]; intros done scene polls; [reflexivity|].
  cbn [objects_loop]. rewrite Hrun.
  destruct (has_data_loaded o && is_constant o); [apply IH|].
  destruct (iobject o); try apply IH.
  - destruct (read_mesh _ _ _ _ _) as [[s o'] n]. apply IH.
  - destruct (read_curves _ _ _ _ _) as [[s o'] n]. apply IH.
Qed.

Lemma generate_with_archive scene progress p a :
  archive p = Some a ->
  let p1 := snd (generate scene progress p) in
  archive p1 = Some a /\ open_attempts p1 = open_attempts p /\
  filepath p1 = filepath p /\ frame p1 = frame p /\ frame_rate p1 = frame_rate p.
Proof.
  intros Ha. cbv zeta. unfold generate.
  destruct (negb (is_modified p)); [cbn [snd]; repeat split; exact Ha|]. rewrite Ha.
  destruct (if negb _ then _ else _) as [objs polls].
  destruct (objects_loop _ _ _ _ _ _) as [[[scene' objs'] polls'] []]; cbn; auto.
Qed.

End OpenDriverFacts.

(** X20: once the archive is open, an invocation keeps it and gives no path
    to the archive factory, whatever the inputs are; in particular, after
    the path is set to another file the next invocation still reads the
    archive opened first, and opens none. *)
Theorem generate_opens_the_archive_once {world : World} (scene : Scene)
    (progress : Progress) (p : AlembicProcedural) (a : IArchive) :
  archive p = Some a ->
  let p1 := snd (generate scene progress p) in
  archive p1 = Some a /\ open_attempts p1 = open_attempts p /\ filepath p1 = filepath p /\
  forall path scene' progress',
    let p2 := snd (generate scene' progress' (set_filepath path p1)) in
    archive p2 = Some a /\ open_attempts p2 = open_attempts p /\
    filepath p2 = filepath (set_filepath path p1).
Proof.
  intros Ha. cbv zeta.
  destruct (generate_with_archive scene progress p a Ha) as (Ha1 & Ho1 & Hf1 & _).
  split; [exact Ha1|]. split; [exact Ho1|]. split; [exact Hf1|].
  intros path scene' progress'.
  set (p1 := snd (generate scene progress p)) in *.
  assert (Hs : archive (set_filepath path p1) = Some a /\
               open_attempts (set_filepath path p1) = open_attempts p).
  { unfold set_filepath. destruct (String.eqb _ _); cbn; auto. }
  destruct Hs as [Has Hos].
  destruct (generate_with_archive scene' progress' _ a Has) as (Ha2 & Ho2 & Hf2 & _).
  split; [exact Ha2|]. split; [congruence|exact Hf2].
Qed.

(** X21: an invocation whose polls never find the flag set leaves the
    procedural unmodified, whether the archive opens or not: the invocations
    that follow do nothing until an input is set to a new value. When the
    objects are loaded already, it returns as many objects as it found. *)
Theorem generate_completes_unmodified {world : World} (scene : Scene)
    (progress : Progress) (p : AlembicProcedural) :
  (forall k, get_cancel progress k = false) ->
  let p1 := snd (generate scene progress p) in
  is_modified p1 = false /\
  (forall n scene' progress', generate_times n scene' progress' p1 = (scene', p1)) /\
  (objects_loaded p = true -> archive p <> None ->
   List.length (objects p1) = List.length (objects p)).
Proof.
  intros Hrun. cbv zeta.
  assert (Hm : is_modified (snd (generate scene progress p)) = false).
  { unfold generate. destruct (is_modified p) eqn:Em; cbn [negb]; [|exact Em].
    destruct (archive p) as [a|].
    - destruct (if negb _ then _ else _) as [objs polls].
      pose proof (objects_loop_completed progress
                    (static_cast_float (frame p / frame_rate p)) Hrun objs [] scene polls)
        as Hc.
      destruct (objects_loop _ _ _ _ _ _) as [[[scene' objs'] polls'] e].
      cbn in Hc. subst e. reflexivity.
    - destruct (getArchive (filepath p)) as [a|]; [|reflexivity].
      destruct (if negb _ then _ else _) as [objs polls].
      pose proof (objects_loop_completed progress
                    (static_cast_float (frame p / frame_rate p)) Hrun objs [] scene polls)
        as Hc.
      cbn [frame frame_rate].
      destruct (objects_loop _ _ _ _ _ _) as [[[scene' objs'] polls'] e].
      cbn in Hc. subst e. reflexivity. }
  split; [exact Hm|]. split.
  - intros n scene' progress'. now apply generate_times_unmodified.
  - intros Hl Ha. unfold generate. destruct (negb (is_modified p)); [reflexivity|].
    destruct (archive p) as [a|]; [|contradiction]. rewrite Hl. cbn [negb].
    pose proof (objects_loop_length progress
                  (static_cast_float (frame p / frame_rate p)) (objects p) [] scene 0)
      as Hlen.
    destruct (objects_loop _ _ _ _ _ _) as [[[scene' objs'] polls'] e].
    cbn in Hlen. destruct e; exact Hlen.
Qed.

Lemma generate_opens_the_archive_once_witness :
  let world :=
    Build_World unit unit (fun _ => Some tt) (fun _ _ polls objs => (objs, polls))
                (fun scene o _ _ polls => (scene, o, polls))
                (fun scene o _ _ polls => (scene, o, polls)) (fun _ => true) in
  let progress := mkProgress (fun _ => false) in
  let p :=
    @mkAlembicProcedural world "first.abc" 1 24 [] (Some tt) true false
                         ["first.abc"%string] in
  let p1 := snd (@generate world tt progress p) in
  let p2 := snd (@generate world tt progress (set_filepath "second.abc" p1)) in
  @archive world p = Some tt /\
  is_modified (set_filepath "second.abc" p1) = true /\
  filepath p2 = "second.abc"%string /\ archive p2 = Some tt /\
  open_attempts p2 = ["first.abc"%string].
Proof.
  cbv zeta.
  match goal with |- @archive ?w ?p = _ /\ _ =>
    pose proof (@generate_opens_the_archive_once w tt (mkProgress (fun _ => false)) p tt
                  eq_refl) as H
  end.
  cbv zeta in H. destruct H as (_ & _ & _ & H).
  specialize (H "second.abc"%string tt (mkProgress (fun _ => false))).
  destruct H as (Ha & Ho & Hf).
  split; [reflexivity|]. split; [reflexivity|].
  split; [exact Hf|]. split; [exact Ha|exact Ho].
Defined.

Section SkippedObjects.
Context {world : World}.

(** The loop over objects that it leaves alone, when its polls do not find
    the flag set. *)
Lemma objects_loop_skips_all progress frame_time : forall todo done scene polls,
  (forall o, In o todo ->
     has_data_loaded o && is_constant o = true \/
     iobject o = IObject_none \/ iobject o = IObject_other) ->
  (forall k, (k < List.length todo)%nat -> get_cancel progress (polls + k) = false) ->
  objects_loop progress frame_time todo done scene polls =
  (scene, done ++ todo, (polls + List.length todo)%nat, Completed).
Proof.
  induction todo as [|o rest IH]; intros done scene polls Hskip Hrun.
  - cbn. now rewrite app_nil_r, Nat.add_0_r.
  - cbn [objects_loop]. pose proof (Hrun 0%nat ltac:(cbn; lia)) as H0.
    rewrite Nat.add_0_r in H0. rewrite H0.
    assert (E : objects_loop progress frame_time rest (done ++ [o]) scene (S polls) =
                (scene, done ++ o :: rest, (polls + List.length (o :: rest))%nat,
                 Completed)).
    { rewrite IH.
      - rewrite <- app_assoc. cbn [app List.length].
        now replace (S polls + List.length rest)%nat
          with (polls + S (List.length rest))%nat by lia.
      - intros o' Ho'. apply Hskip. now right.
      - intros k Hk. replace (S polls + k)%nat with (polls + S k)%nat by lia.
        apply Hrun. cbn. lia. }
    destruct (Hskip o (or_introl eq_refl)) as [H|[H|H]]; rewrite H; [exact E| |];
      destruct (has_data_loaded o && is_constant o); exact E.
Qed.

(** The same loop, when the poll before the object [c] finds the flag set. *)
Lemma objects_loop_skips_until progress frame_time c : forall todo done scene polls,
  (forall o, In o todo ->
     has_data_loaded o && is_constant o = true \/
     iobject o = IObject_none \/ iobject o = IObject_other) ->
  (c < List.length todo)%nat ->
  (forall k, (k < c)%nat -> get_cancel progress (polls + k) = false) ->
  get_cancel progress (polls + c) = true ->
  objects_loop progress frame_time todo done scene polls =
  (scene, done ++ todo, S (polls + c), Cancelled).
Proof.
  induction c as [|c IH]; intros todo done scene polls Hskip Hc Hrun Hstop.
  - destruct todo as [|o rest]; [cbn in Hc; lia|].
    cbn [objects_loop]. rewrite Nat.add_0_r in Hstop. rewrite Hstop.
    now rewrite Nat.add_0_r.
  - destruct todo as [|o rest]; [cbn in Hc; lia|].
    cbn [objects_loop]. pose proof (Hrun 0%nat ltac:(lia)) as H0.
    rewrite Nat.add_0_r in H0. rewrite H0.
    assert (E : objects_loop progress frame_time rest (done ++ [o]) scene (S polls) =
                (scene, done ++ o :: rest, S (polls + S c), Cancelled)).
    { rewrite (IH rest (done ++ [o]) scene (S polls)).
      - rewrite <- app_assoc. cbn [app].
        now replace (S polls + c)%nat with (polls + S c)%nat by lia.
      - intros o' Ho'. apply Hskip. now right.
      - cbn in Hc. lia.
      - intros k Hk. replace (S polls + k)%nat with (polls + S k)%nat by lia.
        apply Hrun. lia.
      - rewrite <- Hstop. f_equal. lia. }
    destruct (Hskip o (or_introl eq_refl)) as [H|[H|H]]; rewrite H; [exact E| |];
      destruct (has_data_loaded o && is_constant o); exact E.
Qed.

End SkippedObjects.

(** X22: an invocation on a modified procedural whose archive is open and
    whose objects are loaded, each object being loaded and constant, or bound
    neither to a mesh nor to curves. The scene and the objects are left as
    they were: no object is read. The flag is polled once per object; when no
    poll finds it set the procedural ends unmodified, and when one does it
    returns at once and stays as it was, modified, for the next invocation. *)
Theorem generate_skips_constant_objects {world : World} (scene : Scene)
    (progress : Progress) (p : AlembicProcedural) (a : IArchive) :
  is_modified p = true -> archive p = Some a -> objects_loaded p = true ->
  (forall o, In o (objects p) ->
     has_data_loaded o && is_constant o = true \/
     iobject o = IObject_none \/ iobject o = IObject_other) ->
  ((forall k, (k < List.length (objects p))%nat -> get_cancel progress k = false) ->
   generate scene progress p = (scene, clear_modified p)) /\
  (forall c, (c < List.length (objects p))%nat ->
             (forall k, (k < c)%nat -> get_cancel progress k = false) ->
             get_cancel progress c = true ->
             generate scene progress p = (scene, p)).
Proof.
  intros Hm Ha Hl Hskip. split.
  - intros Hrun. unfold generate. rewrite Hm, Ha, Hl. cbn [negb].
    rewrite objects_loop_skips_all; [|exact Hskip|exact Hrun].
    cbn [app]. destruct p. cbn in *. now subst.
  - intros c Hc Hrun Hstop. unfold generate. rewrite Hm, Ha, Hl. cbn [negb].
    rewrite (objects_loop_skips_until progress _ c); [|exact Hskip|exact Hc|exact Hrun|exact Hstop].
    cbn [app]. destruct p. cbn in *. now subst.
Qed.

Lemma generate_skips_constant_objects_witness :
  let world :=
    Build_World unit unit (fun _ => Some tt) (fun _ _ polls objs => (objs, polls))
                (fun scene o _ _ polls => (scene, o, polls))
                (fun scene o _ _ polls => (scene, o, polls)) (fun _ => true) in
  let schema :=
    Curves.mkSchema 0 TimeSampling_default (fun _ => Curves.mkSample None None) in
  let o := mkAlembicObject (IObject_Curves schema) [] []
                           (CachedData_empty TimeSampling_default) true in
  let unbound := mkAlembicObject IObject_none [] []
                                 (CachedData_empty TimeSampling_default) false in
  let p := @mkAlembicProcedural world "hair.abc" 2 24 [o; unbound] (Some tt) true true [] in
  let running := mkProgress (fun _ => false) in
  let stopped := mkProgress (fun k => Nat.eqb k 1) in
  @is_modified world p = true /\ archive p = Some tt /\ objects_loaded p = true /\
  (forall o', In o' (objects p) ->
     has_data_loaded o' && @is_constant world o' = true \/
     iobject o' = IObject_none \/ iobject o' = IObject_other) /\
  @generate world tt running p = (tt, clear_modified p) /\
  @generate world tt stopped p = (tt, p).
Proof.
  cbv zeta.
  match goal with |- _ /\ _ /\ _ /\ ?P /\ _ => assert (H : P) end.
  { intros o' [<-|[<-|[]]]; [now left|right; now left]. }
  split; [reflexivity|]. split; [reflexivity|]. split; [reflexivity|]. split; [exact H|].
  match goal with |- @generate ?w ?s ?pr ?p = _ /\ _ =>
    destruct (@generate_skips_constant_objects w s pr p tt eq_refl eq_refl eq_refl H)
      as [Hrun _]
  end.
  split; [apply Hrun; intros k _; reflexivity|].
  match goal with |- @generate ?w ?s ?pr ?p = _ =>
    destruct (@generate_skips_constant_objects w s pr p tt eq_refl eq_refl eq_refl H)
      as [_ Hstop]
  end.
  apply (Hstop 1%nat); [cbn; lia| |reflexivity].
  intros [|k] Hk; [reflexivity|lia].
Defined.

Lemma generate_completes_unmodified_witness :
  let world :=
    Build_World unit unit (fun _ => Some tt) (fun _ _ polls objs => (objs, polls))
                (fun scene o _ _ polls => (scene, o, polls))
                (fun scene o _ _ polls => (scene, o, polls)) (fun _ => false) in
  let schema :=
    Curves.mkSchema 0 TimeSampling_default (fun _ => Curves.mkSample None None) in
  let o := mkAlembicObject (IObject_Curves schema) [] []
                           (CachedData_empty TimeSampling_default) true in
  let p := @mkAlembicProcedural world "hair.abc" 2 24 [o] None false true [] in
  let progress := mkProgress (fun _ => false) in
  (forall k, get_cancel progress k = false) /\
  is_modified (snd (@generate world tt progress p)) = false /\
  @generate_times world 2 tt progress (snd (@generate world tt progress p)) =
    (tt, snd (@generate world tt progress p)).
Proof.
  cbv zeta. split; [reflexivity|].
  match goal with |- is_modified (snd (@generate ?w ?s ?pr ?p)) = _ /\ _ =>
    destruct (@generate_completes_unmodified w s pr p (fun _ => eq_refl)) as (Hm & Hn & _)
  end.
  split; [exact Hm|apply Hn].
Defined.

(** ** Loading again after a cancelled load *)

Section Reloads.
Context {imath : Imath} {util : CyclesUtil}.

Lemma samplings_of_stores c c' : CacheSpec.stores c' = CacheSpec.stores c -> samplings c' = samplings c.
Proof.
  unfold CacheSpec.stores, samplings. intros H.
  injection H as -> -> -> -> -> -> -> ->. reflexivity.
Qed.

(** Clearing a cache leaves the time samplings, and nothing else. *)
Lemma clear_of_samplings c c' :
  samplings c' = samplings c -> CachedData_clear c' = CachedData_clear c.
Proof.
  unfold samplings, CachedData_clear, DataStore_clear. intros H.
  injection H as -> -> -> -> -> -> -> ->. reflexivity.
Qed.

Lemma read_default_uvs_stores uvs c c' :
  read_default_uvs uvs c = Some c' -> CacheSpec.stores c' = CacheSpec.stores c.
Proof.
  unfold read_default_uvs. intros H.
  rewrite <- (stores_add_attribute c (uvs_getName uvs)).
  revert H. generalize (add_attribute c (uvs_getName uvs)) as c1.
  induction (seq 0 (uvs_getNumSamples uvs)) as [|i l IH]; intros c1 H;
    [now injection H as <-|].
  cbn [foldM] in H.
  destruct (read_default_uvs_sample uvs c1 i) as [c2|] eqn:E2; [|discriminate].
  cbn [bind Monad_option] in H. rewrite (IH _ H).
  unfold read_default_uvs_sample in E2.
  destruct (GeometryScope_eqb _ _); [|now injection E2 as <-].
  destruct (negb _); [now injection E2 as <-|].
  destruct (data_for_time _ (triangles c1) _);
    [destruct (data_for_time _ (triangles_loops c1) _)|];
    try (now injection E2 as <-).
  destruct (float2_corners _ _ _ _); [|discriminate].
  cbn [bind Monad_option ret] in E2. now injection E2 as <-.
Qed.

Lemma read_attributes_stores props index requested : forall c c',
  foldM (fun cd attr => read_attribute props index attr cd) requested c = Some c' ->
  CacheSpec.stores c' = CacheSpec.stores c.
Proof.
  induction requested as [|name requested IH]; intros c c' H; [now injection H as <-|].
  cbn [foldM] in H.
  destruct (read_attribute props index name c) as [c1|] eqn:E1; [|discriminate].
  cbn [bind Monad_option] in H. rewrite (IH _ _ H).
  unfold read_attribute in E1. apply read_properties_writes_only in E1.
  destruct E1 as (Hs & _). now rewrite Hs, stores_add_attribute.
Qed.

Lemma load_mesh_sample_samplings schema requested i c c' :
  load_mesh_sample schema requested i c = Some c' -> samplings c' = samplings c.
Proof.
  unfold load_mesh_sample.
  destruct (add_triangles _ _ _ _) as [c2|] eqn:E2; [|discriminate].
  cbn [bind Monad_option]. intros H. apply read_attributes_stores in H.
  rewrite (samplings_of_stores _ _ H).
  transitivity (samplings (add_positions (PolyMesh.getPositions (PolyMesh.getValue schema i))
                             (getSampleTime (PolyMesh.getTimeSampling schema) i) c)).
  - revert E2. generalize (add_positions (PolyMesh.getPositions (PolyMesh.getValue schema i))
                             (getSampleTime (PolyMesh.getTimeSampling schema) i) c) as c1.
    intros c1 E2. unfold add_triangles in E2.
    destruct (PolyMesh.getFaceCounts _) as [fc|];
      [destruct (PolyMesh.getFaceIndices _) as [fi|]|];
      try (now injection E2 as <-).
    destruct (count_triangles _ _) as [num|]; [|discriminate].
    cbn [bind Monad_option] in E2.
    destruct (reserve sizeof_int3 num) as [room|]; [|discriminate].
    cbn [bind Monad_option] in E2.
    destruct (faces_loop _ _ _ _) as [[T L]|]; [|discriminate].
    cbn [bind Monad_option ret] in E2.
    destruct (in_room room T && in_room room L); [|discriminate].
    now injection E2 as <-.
  - unfold add_positions. now destruct (PolyMesh.getPositions _).
Qed.

Lemma load_curves_sample_samplings schema i c c' :
  load_curves_sample schema i c = Some c' -> samplings c' = samplings c.
Proof.
  unfold load_curves_sample. destruct (curve_arrays _ _); [|discriminate].
  cbn [bind Monad_option ret]. intros H. now injection H as <-.
Qed.

Lemma after_samples_samplings (body : nat -> CachedData -> option CachedData) :
  (forall i c c', body i c = Some c' -> samplings c' = samplings c) ->
  forall m c c', CacheSpec.after_samples body m c = Some c' -> samplings c' = samplings c.
Proof.
  intros Hbody. unfold CacheSpec.after_samples. induction m as [|m IH]; intros c c' H.
  - now injection H as <-.
  - rewrite seq_S, foldM_app in H. cbn [Nat.add] in H.
    destruct (foldM _ (seq 0 m) c) as [c1|] eqn:E1; [|discriminate].
    cbn [bind Monad_option foldM] in H.
    destruct (body m c1) as [c2|] eqn:E2; [|discriminate].
    cbn [bind Monad_option ret] in H. injection H as <-.
    rewrite (Hbody _ _ _ E2). now apply IH.
Qed.

(** A load reads of the object the part that clearing its cache leaves. *)
Lemma load_all_data_mesh_of_cleared schema progress o o' :
  clear_and_set_mesh_sampling schema o' = clear_and_set_mesh_sampling schema o ->
  load_all_data_mesh schema progress o' = load_all_data_mesh schema progress o.
Proof. intros H. unfold load_all_data_mesh. now rewrite H. Qed.

Lemma load_all_data_curves_of_cleared schema progress o o' :
  clear_and_set_curves_sampling schema o' = clear_and_set_curves_sampling schema o ->
  load_all_data_curves schema progress o' = load_all_data_curves schema progress o.
Proof. intros H. unfold load_all_data_curves. now rewrite H. Qed.

Lemma clear_mesh_again schema o cd :
  samplings cd = samplings (cached_data (clear_and_set_mesh_sampling schema o)) ->
  clear_and_set_mesh_sampling schema
    (set_cached_data (clear_and_set_mesh_sampling schema o) cd) =
  clear_and_set_mesh_sampling schema o.
Proof.
  intros H. apply clear_of_samplings in H.
  unfold clear_and_set_mesh_sampling at 1.
  cbn [cached_data set_cached_data]. rewrite H.
  unfold clear_and_set_mesh_sampling. destruct o. reflexivity.
Qed.

Lemma clear_curves_again schema o cd :
  samplings cd = samplings (cached_data (clear_and_set_curves_sampling schema o)) ->
  clear_and_set_curves_sampling schema
    (set_cached_data (clear_and_set_curves_sampling schema o) cd) =
  clear_and_set_curves_sampling schema o.
Proof.
  intros H. apply clear_of_samplings in H.
  unfold clear_and_set_curves_sampling at 1.
  cbn [cached_data set_cached_data]. rewrite H.
  unfold clear_and_set_curves_sampling. destruct o. reflexivity.
Qed.

End Reloads.

(** X23: a load that was cancelled leaves nothing that a later load reads:
    the later load clears the cache first, so that loading again the object
    left by a cancelled load, of curves or of a mesh, gives what loading the
    object as it was before gives, whatever the flag does then. *)
Theorem cancelled_load_is_loaded_again_from_scratch {imath : Imath} {util : CyclesUtil}
    (progress : Progress) (o : AlembicObject) (c : nat) :
  (forall k, (k < c)%nat -> get_cancel progress k = false) ->
  get_cancel progress c = true ->
  (forall (schema : Curves.Schema) r progress',
      (c < Curves.getNumSamples schema)%nat ->
      load_all_data_curves schema progress o = Some r ->
      data_loaded (object r) = data_loaded o /\
      load_all_data_curves schema progress' (object r) =
      load_all_data_curves schema progress' o) /\
  (forall (schema : PolyMesh.Schema) r progress',
      (c < PolyMesh.getNumSamples schema + 3)%nat ->
      load_all_data_mesh schema progress o = Some r ->
      data_loaded (object r) = data_loaded o /\
      load_all_data_mesh schema progress' (object r) =
      load_all_data_mesh schema progress' o).
Proof.
  intros Hfalse Htrue. split.
  - intros schema r progress' Hc Hr.
    set (o0 := clear_and_set_curves_sampling schema o) in *.
    unfold load_all_data_curves in Hr. fold o0 in Hr.
    rewrite (sample_loop_cancelled _ progress _ 0 (mkRun o0 0 []) c Hc Hfalse Htrue) in Hr.
    cbn [object polls processed Nat.add app] in Hr.
    destruct (foldM _ (seq 0 c) (cached_data o0)) as [cd|] eqn:E; [|discriminate].
    cbn [bind Monad_option ret] in Hr. injection Hr as <-. cbn [object].
    split; [reflexivity|].
    apply load_all_data_curves_of_cleared, clear_curves_again.
    apply (after_samples_samplings (load_curves_sample schema)
             (load_curves_sample_samplings schema) c). exact E.
  - intros schema r progress' Hc Hr.
    set (n := PolyMesh.getNumSamples schema) in *.
    set (o0 := clear_and_set_mesh_sampling schema o) in *.
    assert (Hshape : exists cd, object r = set_cached_data o0 cd /\
                                samplings cd = samplings (cached_data o0)).
    { pose proof (after_samples_samplings
                    (load_mesh_sample schema (get_requested_attributes o0))
                    (load_mesh_sample_samplings schema (get_requested_attributes o0)))
        as Hsamples.
      destruct (Nat.lt_ge_cases c n) as [Hin|Hout].
      - unfold load_all_data_mesh in Hr. fold o0 in Hr.
        rewrite (sample_loop_cancelled _ progress _ 0 (mkRun o0 0 []) c Hin Hfalse Htrue)
          in Hr.
        cbn [object polls processed Nat.add app] in Hr.
        destruct (foldM _ (seq 0 c) (cached_data o0)) as [cd|] eqn:E; [|discriminate].
        cbn [bind Monad_option ret] in Hr. injection Hr as <-.
        exists cd. split; [reflexivity|]. now apply (Hsamples c).
      - rewrite load_all_data_mesh_after_loop in Hr by (intros k Hk; apply Hfalse; lia).
        fold n o0 in Hr.
        destruct (CacheSpec.after_samples _ n (cached_data o0)) as [cd|] eqn:E;
          [|discriminate].
        cbn [bind Monad_option] in Hr. apply Hsamples in E.
        destruct (Nat.eq_dec c n) as [->|Hn].
        + rewrite Htrue in Hr. cbn [ret Monad_option] in Hr. injection Hr as <-.
          now exists cd.
        + rewrite (Hfalse n) in Hr by lia.
          destruct (if uvs_valid _ then _ else _) as [cd'|] eqn:Eu; [|discriminate].
          cbn [bind Monad_option] in Hr.
          assert (E' : samplings cd' = samplings (cached_data o0)).
          { rewrite <- E. destruct (uvs_valid _); [|now injection Eu as <-].
            apply samplings_of_stores. now apply read_default_uvs_stores in Eu. }
          destruct (Nat.eq_dec c (n + 1)) as [->|Hn1].
          * rewrite Htrue in Hr. cbn [ret Monad_option] in Hr. injection Hr as <-.
            now exists cd'.
          * rewrite (Hfalse (n + 1)%nat) in Hr by lia.
            replace c with (n + 2)%nat in * by lia.
            rewrite Htrue in Hr. cbn [ret Monad_option] in Hr. injection Hr as <-.
            now exists cd'. }
    destruct Hshape as (cd & -> & Hcd). split; [reflexivity|].
    now apply load_all_data_mesh_of_cleared, clear_mesh_again.
Qed.

Lemma cancelled_load_is_loaded_again_from_scratch_witness :
  let progress := mkProgress (fun k => Nat.leb 1 k) in
  let running := mkProgress (fun _ => false) in
  let schema :=
    PolyMesh.mkSchema 2 TimeSampling_default
      (fun _ => PolyMesh.mkSample (Some [make_float3 0 0 0; make_float3 1 0 0;
                                         make_float3 1 1 0])
                                  (Some [3%Z]) (Some [0; 1; 2]%Z))
      [] (mkIV2fGeomParam false EmptyString 0 kUnknownScope TimeSampling_default
                          (fun _ => mkV2fSample None None)) in
  let o := mkAlembicObject IObject_none [] [] (CachedData_empty TimeSampling_default) false in
  (forall k, (k < 1)%nat -> get_cancel progress k = false) /\
  get_cancel progress 1 = true /\ (1 < PolyMesh.getNumSamples schema + 3)%nat /\
  (forall (imath : Imath) (util : CyclesUtil),
      exists r, load_all_data_mesh schema progress o = Some r /\
                size (vertices (cached_data (object r))) = 1%nat /\
                load_all_data_mesh schema running (object r) =
                load_all_data_mesh schema running o).
Proof.
  cbv zeta.
  assert (H1 : forall k, (k < 1)%nat ->
                         get_cancel (mkProgress (fun k => Nat.leb 1 k)) k = false).
  { intros [|k] Hk; [reflexivity|lia]. }
  split; [exact H1|]. split; [reflexivity|]. split; [cbn; lia|].
  intros imath util. eexists. split; [reflexivity|]. split; [reflexivity|].
  match goal with |- load_all_data_mesh ?s ?run (object ?r) = _ =>
    exact (proj2 (proj2 (@cancelled_load_is_loaded_again_from_scratch imath util
                           (mkProgress (fun k => Nat.leb 1 k))
                           (mkAlembicObject IObject_none [] []
                              (CachedData_empty TimeSampling_default) false)
                           1%nat H1 eq_refl)
                        s r run ltac:(cbn; lia) eq_refl))
  end.
Defined.

(** ** A colour attribute *)

Section ColourFacts.
Local Open Scope Z_scope.

Lemma uchar4_corners_fold {C : Type} (convert : C -> uchar4) (values : list C) (d : C)
    tris : forall acc,
  (forall tri k, In tri tris -> In k [ix tri; iy tri; iz tri] ->
                 0 <= k < Z.of_nat (List.length values)) ->
  foldM
    (fun data tri =>
       values <- Some values ;;
       a <- array_get values (ix tri) ;;
       b <- array_get values (iy tri) ;;
       c <- array_get values (iz tri) ;;
       ret (data ++ [convert a; convert b; convert c]))
    tris acc =
  Some (acc ++ flat_map (fun tri => [convert (nth (Z.to_nat (ix tri)) values d);
                                     convert (nth (Z.to_nat (iy tri)) values d);
                                     convert (nth (Z.to_nat (iz tri)) values d)]) tris).
Proof.
  induction tris as [|tri tris IH]; intros acc H.
  - cbn. now rewrite app_nil_r.
  - cbn [foldM flat_map bind Monad_option].
    rewrite (array_get_ok values (ix tri) d) by (apply (H tri); now left).
    rewrite (array_get_ok values (iy tri) d) by (apply (H tri); [now left|right; now left]).
    rewrite (array_get_ok values (iz tri) d)
      by (apply (H tri); [now left|right; right; now left]).
    cbn [bind Monad_option ret].
    rewrite IH by (intros t k Ht; apply H; now right).
    now rewrite <- app_assoc.
Qed.

Lemma update_attribute_twice c name f g :
  (forall a, attr_name (f a) = attr_name a) ->
  update_attribute (update_attribute c name f) name g =
  update_attribute c name (fun a => g (f a)).
Proof.
  intros Hf. unfold update_attribute, set_attributes.
  cbn [vertices triangles triangles_loops transforms curve_keys curve_radius
       curve_first_key curve_shader attributes].
  f_equal. rewrite map_map. apply map_ext. intros a.
  destruct (String.eqb (attr_name a) name) eqn:E; [now rewrite Hf, E|now rewrite E].
Qed.

Lemma update_attribute_ext c name f g :
  (forall a, f a = g a) -> update_attribute c name f = update_attribute c name g.
Proof.
  intros H. unfold update_attribute. f_equal. apply map_ext. intros a.
  now destruct (String.eqb (attr_name a) name).
Qed.

Lemma triangles_update_attribute c name f :
  triangles (update_attribute c name f) = triangles c.
Proof. reflexivity. Qed.

End ColourFacts.

(** X24: a three-float colour parameter of varying scope that bears the name
    of the attribute, read for a sample at whose time the cache has
    triangles, each vertex of which has a colour. The attribute of that name
    becomes a per-corner byte attribute of type RGBA with no standard tag and
    the time sampling of the parameter, and it receives one more sample, under
    the time of the sample: three entries per triangle, in the order of the
    triangles, the entry of a corner being the converted colour of the vertex
    at that corner. *)
Theorem colour_attribute_is_read_per_corner {util : CyclesUtil}
    (index : nat) (name : string) (cached_data : CachedData) (prop : PropertyHeader)
    (getIndexed : nat -> option (list Vec3)) (values : list Vec3)
    (new_triangles : list int3) :
  prop_getName prop = name -> prop_data prop = PropC3f getIndexed ->
  prop_getScope prop = kVaryingScope ->
  let time := getSampleTime (prop_getTimeSampling prop) index in
  data_for_time _ (triangles cached_data) time = Some new_triangles ->
  getIndexed index = Some values ->
  (forall tri k, In tri new_triangles -> In k [ix tri; iy tri; iz tri] ->
                 (0 <= k < Z.of_nat (List.length values))%Z) ->
  let colour k := color_float_to_byte (nth (Z.to_nat k) values (make_float3 0 0 0)) in
  let buffer :=
    flat_map (fun tri => [colour (ix tri); colour (iy tri); colour (iz tri)])
             new_triangles in
  read_property index name cached_data prop =
    Some (update_attribute cached_data name
            (fun a =>
               mkCachedAttribute (attr_name a) ATTR_STD_NONE ATTR_ELEMENT_CORNER_BYTE
                 TypeRGBA
                 (add_data (set_time_sampling (attr_data a) (prop_getTimeSampling prop))
                           (UChar4Buffer buffer) time))) /\
  List.length buffer = (3 * List.length new_triangles)%nat.
Proof.
  intros Hname Hdata Hscope time Htris Hvalues Hin colour buffer. split.
  - unfold read_property. rewrite Hname, String.eqb_refl, Hdata, Hscope.
    cbn [negb GeometryScope_eqb]. rewrite !triangles_update_attribute.
    fold time. rewrite Htris, Hvalues. unfold uchar4_corners.
    rewrite (uchar4_corners_fold color_float_to_byte values (make_float3 0 0 0)
               new_triangles [] Hin).
    cbn [bind Monad_option ret app]. fold colour. fold buffer. f_equal.
    rewrite !update_attribute_twice by (intros a; now destruct a).
    apply update_attribute_ext. intros a. now destruct a.
  - unfold buffer. clear. induction new_triangles as [|t l IH]; [reflexivity|].
    cbn [flat_map List.length app]. rewrite IH. lia.
Qed.

Lemma colour_attribute_is_read_per_corner_witness :
  let black := make_uchar4 Byte.x00 Byte.x00 Byte.x00 Byte.xff in
  let white := make_uchar4 Byte.xff Byte.xff Byte.xff Byte.xff in
  let util :=
    Build_CyclesUtil (fun T s _ => option_map snd (hd_error (data s)))
                     (fun c => if x c <? 0.5 then black else white)
                     (fun _ => black) in
  let values := [make_float3 1 1 1; make_float3 0 0 0; make_float3 0 0 0] in
  let getIndexed := fun _ : nat => Some values in
  let prop := mkPropertyHeader "Cd" kVaryingScope TimeSampling_default (PropC3f getIndexed) in
  let empty := CachedData_empty TimeSampling_default in
  let cached_data :=
    @add_attribute
      (set_triangles empty (add_data (triangles empty) [make_int3 0 1 2] 0)) "Cd" in
  prop_getName prop = "Cd"%string /\ prop_data prop = PropC3f getIndexed /\
  prop_getScope prop = kVaryingScope /\
  @data_for_time util _ (triangles cached_data)
                 (getSampleTime (prop_getTimeSampling prop) 0) = Some [make_int3 0 1 2] /\
  getIndexed 0%nat = Some values /\
  (forall tri k, In tri [make_int3 0 1 2] -> In k [ix tri; iy tri; iz tri] ->
                 (0 <= k < Z.of_nat (List.length values))%Z) /\
  exists cached_data',
    @read_property util 0 "Cd" cached_data prop = Some cached_data' /\
    map (fun a => (attr_name a, attr_element a, attr_type_desc a,
                   map snd (data (attr_data a))))
        (attributes cached_data') =
    [("Cd"%string, ATTR_ELEMENT_CORNER_BYTE, TypeRGBA, [UChar4Buffer [white; black; black]])].
Proof.
  cbv zeta.
  match goal with |- _ /\ _ /\ _ /\ _ /\ _ /\ ?P /\ _ => assert (H : P) end.
  { intros tri k [<-|[]] [<-|[<-|[<-|[]]]]; vm_compute; intuition discriminate. }
  split; [reflexivity|]. split; [reflexivity|]. split; [reflexivity|].
  split; [reflexivity|]. split; [reflexivity|]. split; [exact H|].
  eexists. split.
  - match goal with |- @read_property ?u ?i ?n ?c ?p = _ =>
      exact (proj1 (@colour_attribute_is_read_per_corner u i n c p _ _ _
                      eq_refl eq_refl eq_refl eq_refl eq_refl H))
    end.
  - reflexivity.
Defined.

(** ** What the finalization stores *)

(** X25: the samples that the finalization adds to the transform channel.
    Without transform samples, the identity transform at time zero. When
    every sample matrix equals, entry by entry, the matrix filled with the
    first sample time, one transform at time zero, converted from that filled
    matrix, and no result when the conversion of that matrix throws. In
    every other case, each sample converted, under its own time, in the
    order of the samples, and no result when the conversion of a sample
    throws. A conversion throws exactly when the decomposition refuses the
    matrix. *)
Theorem setup_transform_cache_cases {imath : Imath} (o : AlembicObject) :
  let before := data (transforms (cached_data o)) in
  let after :=
    option_map (fun o' => data (transforms (cached_data o'))) (setup_transform_cache o) in
  (xform_samples o = [] -> after = Some (before ++ [(0, transform_identity)])) /\
  (forall first rest,
      xform_samples o = first :: rest ->
      let first_matrix := M44d_fill (fst first) in
      (forallb (fun pair => negb (M44d_neq (snd pair) first_matrix)) (first :: rest) = true ->
       after = option_map (fun tfm => before ++ [(0, tfm)]) (make_transform first_matrix)) /\
      (forallb (fun pair => negb (M44d_neq (snd pair) first_matrix)) (first :: rest) = false ->
       after = option_map (fun l => before ++ l)
                          (TransformSpec.make_transforms (first :: rest)))) /\
  (forall samples l,
      TransformSpec.make_transforms samples = Some l <->
      Forall2 (fun sample entry =>
                 fst entry = fst sample /\ make_transform (snd sample) = Some (snd entry))
              samples l) /\
  (forall samples,
      TransformSpec.make_transforms samples = None <->
      exists m, In m (map snd samples) /\ extractSHRT m = None) /\
  (forall m, make_transform m = None <-> extractSHRT m = None).
Proof.
  cbv zeta. split; [apply setup_transform_cache_no_samples|].
  split; [|split; [apply make_transforms_entries|
                   split; [apply make_transforms_refused|apply make_transform_refused]]].
  intros first rest Hx.
  assert (Hany : forall l : MatrixSampleMap,
             existsb (fun pair => M44d_neq (snd pair) (M44d_fill (fst first))) l =
             negb (forallb (fun pair => negb (M44d_neq (snd pair) (M44d_fill (fst first))))
                           l)).
  { induction l as [|a l IH]; [reflexivity|]. cbn [existsb forallb].
    rewrite IH, negb_andb, negb_involutive. reflexivity. }
  split; intros Hall.
  - rewrite setup_transform_cache_added, Hx.
    unfold TransformSpec.added_transforms, TransformSpec.animated,
      TransformSpec.compared_matrix.
    rewrite Hany, Hall. cbn [negb bind Monad_option ret].
    now destruct (make_transform (M44d_fill (fst first))).
  - apply setup_transform_cache_animated; [exact Hx|]. now rewrite Hany, Hall.
Qed.

Lemma setup_transform_cache_cases_witness :
  let empty := CachedData_empty TimeSampling_default in
  let o := mkAlembicObject IObject_none [] [(2, M44d_fill 2); (3, M44d_fill 2)] empty false in
  let flat := mkAlembicObject IObject_none [] [(0, M44d_fill 0)] empty false in
  xform_samples o = [(2, M44d_fill 2); (3, M44d_fill 2)] /\
  forallb (fun pair => negb (M44d_neq (snd pair) (M44d_fill 2)))
          [(2, M44d_fill 2); (3, M44d_fill 2)] = true /\
  (forall imath : Imath,
      option_map (fun o' => data (transforms (cached_data o'))) (setup_transform_cache o) =
      option_map (fun tfm => [(0, tfm)]) (make_transform (M44d_fill 2))) /\
  option_map (fun o' => data (transforms (cached_data o')))
             (@setup_transform_cache Imath_example flat) = None.
Proof.
  cbv zeta. split; [reflexivity|]. split; [reflexivity|]. split.
  - intros imath.
    match goal with |- option_map _ (setup_transform_cache ?o) = _ =>
      exact (proj1 (proj1 (proj2 (@setup_transform_cache_cases imath o)) (2, M44d_fill 2)
                          [(3, M44d_fill 2)] eq_refl) eq_refl)
    end.
  - match goal with |- option_map _ (@setup_transform_cache _ ?o) = _ =>
      exact (proj1 (proj1 (proj2 (@setup_transform_cache_cases Imath_example o))
                          (0, M44d_fill 0) [] eq_refl) eq_refl)
    end.
Defined.

(** ** The triangles pushed into a mesh *)

(** X26: the arrays that reading a mesh fills from the triangles cached for
    the frame: the index array holds the three vertices of each triangle, in
    the order of the triangles; the smooth array holds one flag per triangle,
    all set; the shader array holds one zero per triangle. The pushes fill
    the capacities reserved, three per triangle and one per triangle. *)
Theorem read_mesh_triangles_flattens (triangle_data : list int3) :
  let n := List.length triangle_data in
  read_mesh_triangles triangle_data =
    (flat_map (fun tri => [ix tri; iy tri; iz tri]) triangle_data,
     repeat true n, repeat 0%Z n) /\
  (let '(triangles, smooth, shader) := read_mesh_triangles triangle_data in
   List.length triangles = (n * 3)%nat /\ List.length smooth = n /\
   List.length shader = n) /\
  forall i tri,
    nth_error triangle_data i = Some tri ->
    let triangles := fst (fst (read_mesh_triangles triangle_data)) in
    nth_error triangles (3 * i) = Some (ix tri) /\
    nth_error triangles (3 * i + 1) = Some (iy tri) /\
    nth_error triangles (3 * i + 2) = Some (iz tri).
Proof.
  cbv zeta.
  assert (E : forall l T M H,
             fold_left
               (fun '(triangles, smooth, shader) tri =>
                  let triangles := push_back_reserved triangles (ix tri) in
                  let triangles := push_back_reserved triangles (iy tri) in
                  let triangles := push_back_reserved triangles (iz tri) in
                  let shader := push_back_reserved shader 0%Z in
                  let smooth := push_back_reserved smooth true in
                  (triangles, smooth, shader))
               l (T, M, H) =
             (T ++ flat_map (fun tri => [ix tri; iy tri; iz tri]) l,
              M ++ repeat true (List.length l), H ++ repeat 0%Z (List.length l))).
  { induction l as [|t l IH]; intros T M H.
    - cbn. now rewrite !app_nil_r.
    - cbn [fold_left flat_map List.length repeat]. rewrite IH.
      unfold push_back_reserved. now rewrite <- !app_assoc. }
  assert (Hflat : forall l : list int3,
             List.length (flat_map (fun tri => [ix tri; iy tri; iz tri]) l) =
             (List.length l * 3)%nat).
  { induction l as [|t l IH]; [reflexivity|].
    cbn [flat_map List.length app]. rewrite IH. lia. }
  unfold read_mesh_triangles. rewrite E. cbn [app fst].
  split; [reflexivity|]. split.
  - now rewrite Hflat, !repeat_length.
  - induction triangle_data as [|t l IH]; intros i tri Hi; [destruct i; discriminate|].
    destruct i as [|i]; cbn [nth_error] in Hi.
    + injection Hi as <-. repeat split; reflexivity.
    + specialize (IH i tri Hi). cbn [flat_map app].
      replace (3 * S i)%nat with (S (S (S (3 * i)))) by lia. cbn [nth_error Nat.add].
      exact IH.
Qed.

(** ** What a walk may bind, and the maps it hands down *)

Module HierarchySafety.
Import Hierarchy HierarchyFacts.

(** The objects [after] are those [before], but for objects bound to a mesh
    or curves object of [nodes] whose full name is their path. *)
Lemma update_found_cases objs name f : forall i path o',
  nth_error (update_found objs name f) i = Some (path, o') ->
  nth_error objs i = Some (path, o') \/
  (path = name /\ exists o, nth_error objs i = Some (path, o) /\ o' = f o).
Proof.
  induction objs as [|[p0 o0] rest IH]; intros i path o' H; [destruct i; discriminate|].
  cbn [update_found] in H. destruct (String.eqb_spec p0 name) as [->|Hne].
  - destruct i as [|i]; cbn [nth_error] in *; [|now left].
    injection H as <- <-. right. split; [reflexivity|]. now exists o0.
  - destruct i as [|i]; cbn [nth_error] in *; [now left|]. now apply IH.
Qed.

Lemma MatrixSampleMap_insert_in m k v e :
  In e (MatrixSampleMap_insert m k v) -> e = (k, v) \/ In e m.
Proof.
  induction m as [|a m IH]; cbn [MatrixSampleMap_insert].
  - intros [<-|[]]. now left.
  - destruct (fst a <? k); [|destruct (k <? fst a)]; cbn [In]; intuition.
Qed.

Lemma sorted_cons_map a m :
  SampleMap.sorted (a :: m) = true <->
  (forall e, In e m -> (fst a <? fst e) = true) /\ SampleMap.sorted m = true.
Proof.
  split.
  - intros Hs. split; [apply (SampleMapFacts.sorted_head_lt _ _ Hs)|].
    apply (SampleMapFacts.sorted_tail _ _ Hs).
  - intros [Hall Hs]. destruct a as [k v], m as [|[k' v'] m']; [reflexivity|].
    cbn [SampleMap.sorted]. pose proof (Hall (k', v') (or_introl eq_refl)) as Hlt.
    cbn [fst] in Hlt. rewrite Hlt. exact Hs.
Qed.

Lemma MatrixSampleMap_insert_sorted m k v :
  SampleMap.sorted m = true -> SampleMap.sorted (MatrixSampleMap_insert m k v) = true.
Proof.
  induction m as [|a m IH]; intros Hs; [reflexivity|].
  cbn [MatrixSampleMap_insert].
  destruct (fst a <? k) eqn:E1; [|destruct (k <? fst a) eqn:E2; [|exact Hs]].
  - apply sorted_cons_map in Hs. destruct Hs as [Hall Hs]. apply sorted_cons_map.
    split; [|auto]. intros e He. apply MatrixSampleMap_insert_in in He.
    destruct He as [->|He]; auto.
  - apply sorted_cons_map. split; [|exact Hs].
    intros e [<-|He]; [exact E2|].
    apply sorted_cons_map in Hs. eapply DoubleOrder.ltb_trans; [exact E2|].
    now apply Hs.
Qed.

Section Safety.
Context {imath : Imath}.

Lemma read_xform_samples_sorted xs : SampleMap.sorted (read_xform_samples xs []) = true.
Proof.
  unfold read_xform_samples.
  assert (H : SampleMap.sorted (@nil (float * M44d)) = true) by reflexivity.
  revert H. generalize (@nil (float * M44d)) as m.
  induction (seq 0 (Xform.getNumSamples xs)) as [|i l IH]; intros m H; [exact H|].
  cbn [fold_left]. apply IH. now apply MatrixSampleMap_insert_sorted.
Qed.

Lemma concatenate_sorted parent_samples local_samples :
  SampleMap.sorted (concatenate_xform_samples parent_samples local_samples []) = true.
Proof.
  rewrite concatenate_from_empty.
  rewrite (sorted_map_keys
             (fun time => M44d_mul (get_interpolated_matrix_for_time local_samples time)
                                   (get_interpolated_matrix_for_time parent_samples time))).
  now repeat apply TimeSetFacts.insert_all_sorted.
Qed.

(** The pointer handed down is null or points to a sorted map. *)
Lemma concatenated_xform_samples_sorted xs X :
  (forall m, X = Some m -> SampleMap.sorted m = true) ->
  forall m, concatenated_xform_samples xs X = Some m -> SampleMap.sorted m = true.
Proof.
  intros HX m. unfold concatenated_xform_samples.
  destruct (Nat.ltb 0 (Xform.getNumOps xs)); [|apply HX].
  destruct X as [parent|]; intros H; injection H as <-.
  - apply concatenate_sorted.
  - apply read_xform_samples_sorted.
Qed.

Lemma update_found_sorted objs name g X :
  (forall m, X = Some m -> SampleMap.sorted m = true) ->
  Forall (fun po => SampleMap.sorted (xform_samples (snd po)) = true) objs ->
  Forall (fun po => SampleMap.sorted (xform_samples (snd po)) = true)
         (update_found objs name (bind_object g X)).
Proof.
  intros HX. induction 1 as [|[p0 o0] rest H0 Hrest IH]; [constructor|].
  cbn [update_found]. destruct (String.eqb p0 name); constructor; auto.
  cbn [snd] in *. destruct X as [m|]; cbn; [now apply HX|exact H0].
Qed.

Lemma walk_hierarchy_sorted progress node : forall X w,
  (forall m, X = Some m -> SampleMap.sorted m = true) ->
  Forall (fun po => SampleMap.sorted (xform_samples (snd po)) = true) (objects w) ->
  Forall (fun po => SampleMap.sorted (xform_samples (snd po)) = true)
         (objects (walk_hierarchy node X progress w)).
Proof.
  induction node as [name header children IH] using ArchiveObject_children_ind.
  intros X w HX Hw. rewrite walk_hierarchy_eq.
  destruct (get_cancel progress (polls w)); [exact Hw|]. cbv zeta.
  assert (Hc : forall X' w',
             (forall m, X' = Some m -> SampleMap.sorted m = true) ->
             Forall (fun po => SampleMap.sorted (xform_samples (snd po)) = true)
                    (objects w') ->
             Forall (fun po => SampleMap.sorted (xform_samples (snd po)) = true)
                    (objects (fold_left (fun w child => walk_hierarchy child X' progress w)
                                        children w'))).
  { clear Hw HX. induction IH as [|c l Hc _ IHl]; intros X' w' HX' Hw'; [exact Hw'|].
    cbn [fold_left]. apply IHl; [exact HX'|]. now apply Hc. }
  destruct header as [xs| |schema|schema| |]; try exact Hw.
  - apply Hc; [|exact Hw]. now apply concatenated_xform_samples_sorted.
  - apply Hc; [exact HX|]. now apply update_found_sorted.
  - apply Hc; [exact HX|]. now apply update_found_sorted.
  - now apply Hc.
Qed.

Lemma walk_hierarchy_binds_only progress node : forall X w i path o',
  nth_error (objects (walk_hierarchy node X progress w)) i = Some (path, o') ->
  nth_error (objects w) i = Some (path, o') \/
  exists n, In n (reached node) /\ getFullName n = path /\ geometry n = Some (iobject o').
Proof.
  induction node as [name header children IH] using ArchiveObject_children_ind.
  intros X w i path o' H. rewrite walk_hierarchy_eq in H.
  destruct (get_cancel progress (polls w)); [now left|]. cbv zeta in H.
  assert (Hc : forall X' w',
             nth_error (objects (fold_left (fun w child => walk_hierarchy child X' progress w)
                                           children w')) i = Some (path, o') ->
             nth_error (objects w') i = Some (path, o') \/
             exists n, In n (flat_map reached children) /\ getFullName n = path /\
                       geometry n = Some (iobject o')).
  { clear H. induction IH as [|c l Hc _ IHl]; intros X' w' H'; [now left|].
    cbn [fold_left flat_map] in *.
    destruct (IHl X' _ H') as [H1|(n & Hn & Hname & Hg)].
    - destruct (Hc X' w' i path o' H1) as [H0|(n & Hn & Hname & Hg)]; [now left|].
      right. exists n. split; [apply in_or_app; now left|now split].
    - right. exists n. split; [apply in_or_app; now right|now split]. }
  set (node := mkArchiveObject name header children).
  assert (Hbelow : forall X' w',
             (match header with ISubD | IFaceSet => False | _ => True end) ->
             nth_error (objects (fold_left (fun w child => walk_hierarchy child X' progress w)
                                           children w')) i = Some (path, o') ->
             nth_error (objects w') i = Some (path, o') \/
             exists n, In n (reached node) /\ getFullName n = path /\
                       geometry n = Some (iobject o')).
  { intros X' w' Hh H'. destruct (Hc X' w' H') as [H0|(n & Hn & Hname & Hg)]; [now left|].
    right. exists n. split; [|now split]. right.
    unfold node. cbn [getHeader getChildren]. destruct header; try exact Hn; contradiction. }
  assert (Hgeom : forall g,
             geometry node = Some g ->
             (match header with ISubD | IFaceSet => False | _ => True end) ->
             nth_error (objects (fold_left (fun w child => walk_hierarchy child X progress w)
                                           children
                                           (mkWalk (update_found (objects w) name
                                                                 (bind_object g X))
                                                   (S (polls w))))) i = Some (path, o') ->
             nth_error (objects w) i = Some (path, o') \/
             exists n, In n (reached node) /\ getFullName n = path /\
                       geometry n = Some (iobject o')).
  { intros g Hg Hh H'. destruct (Hbelow X _ Hh H') as [H0|Hn]; [|now right].
    cbn [objects] in H0. apply update_found_cases in H0.
    destruct H0 as [H0|(-> & o & _ & ->)]; [now left|].
    right. exists node. split; [now left|]. split; [reflexivity|].
    now rewrite bind_object_iobject. }
  destruct header as [xs| |schema|schema| |].
  - now apply (Hbelow _ _ I H).
  - now left.
  - now apply (Hgeom (IObject_PolyMesh schema)).
  - now apply (Hgeom (IObject_Curves schema)).
  - now left.
  - now apply (Hbelow _ _ I H).
Qed.

End Safety.

(** X27: whatever the cancellation flag does, an object that loading the
    objects leaves other than it was is bound to a mesh or a curves object
    reached from the top of the archive whose full name is the path of the
    object: no object is bound to an object of another name, to another type
    of object, or to an object below a subdivision surface or a face set. *)
Theorem load_objects_binds_only_reached_geometry {imath : Imath} (top : ArchiveObject)
    (progress : Progress) (w : Walk) (i : nat) (path : string) (o' : AlembicObject) :
  nth_error (objects (load_objects top progress w)) i = Some (path, o') ->
  nth_error (objects w) i = Some (path, o') \/
  exists n, In n (flat_map reached (getChildren top)) /\ getFullName n = path /\
            geometry n = Some (iobject o').
Proof.
  unfold load_objects. revert w.
  induction (getChildren top) as [|c l IH]; intros w H; [now left|].
  cbn [fold_left flat_map] in *.
  destruct (IH _ H) as [H1|(n & Hn & Hname & Hg)].
  - destruct (walk_hierarchy_binds_only progress c None w i path o' H1)
      as [H0|(n & Hn & Hname & Hg)]; [now left|].
    right. exists n. split; [apply in_or_app; now left|now split].
  - right. exists n. split; [apply in_or_app; now right|now split].
Qed.

(** X28: the transform samples of the objects stay well-formed maps. When
    the samples of every object have strictly increasing keys before the
    objects are loaded, they have after, whatever the archive holds and
    whatever the cancellation flag does: the samples read from a transform
    node and the concatenations handed down the hierarchy are such maps. *)
Theorem load_objects_keeps_the_samples_sorted {imath : Imath} (top : ArchiveObject)
    (progress : Progress) (w : Walk) :
  Forall (fun po => SampleMap.sorted (xform_samples (snd po)) = true) (objects w) ->
  Forall (fun po => SampleMap.sorted (xform_samples (snd po)) = true)
         (objects (load_objects top progress w)) /\
  (forall xs, SampleMap.sorted (read_xform_samples xs []) = true) /\
  (forall parent_samples local_samples,
      SampleMap.sorted (concatenate_xform_samples parent_samples local_samples []) = true).
Proof.
  intros Hw. split; [|split; [apply read_xform_samples_sorted|apply concatenate_sorted]].
  unfold load_objects. revert w Hw.
  induction (getChildren top) as [|c l IH]; intros w Hw; [exact Hw|].
  cbn [fold_left]. apply IH. apply walk_hierarchy_sorted; [discriminate|exact Hw].
Qed.

Lemma load_objects_binds_only_reached_geometry_witness :
  let progress := mkProgress (fun _ => false) in
  let schema :=
    Curves.mkSchema 0 TimeSampling_default (fun _ => Curves.mkSample None None) in
  let top :=
    mkArchiveObject "/" Unsupported
      [mkArchiveObject "/s" ISubD [mkArchiveObject "/s/h" (ICurves schema) []];
       mkArchiveObject "/h" (ICurves schema) []] in
  let o := mkAlembicObject IObject_none [] [] (CachedData_empty TimeSampling_default) false in
  let w := mkWalk [("/s/h"%string, o); ("/h"%string, o)] 0 in
  let bound := set_iobject o (IObject_Curves schema) in
  (forall imath : Imath,
      nth_error (objects (load_objects top progress w)) 1 = Some ("/h"%string, bound)) /\
  (forall imath : Imath,
      nth_error (objects (load_objects top progress w)) 0 = Some ("/s/h"%string, o)) /\
  exists n, In n (flat_map reached (getChildren top)) /\ getFullName n = "/h"%string /\
            geometry n = Some (iobject bound).
Proof.
  cbv zeta. split; [reflexivity|]. split; [reflexivity|].
  pose (imath := Imath_example).
  match goal with |- exists n, In n (flat_map reached (getChildren ?top)) /\ _ /\
                               geometry n = Some (iobject ?b) =>
    destruct (@load_objects_binds_only_reached_geometry imath top
                (mkProgress (fun _ => false))
                (mkWalk [("/s/h"%string,
                          mkAlembicObject IObject_none [] []
                                          (CachedData_empty TimeSampling_default) false);
                         ("/h"%string,
                          mkAlembicObject IObject_none [] []
                                          (CachedData_empty TimeSampling_default) false)] 0)
                1 "/h"%string b eq_refl) as [H|H]
  end.
  - discriminate H.
  - exact H.
Defined.

Lemma load_objects_keeps_the_samples_sorted_witness :
  let progress := mkProgress (fun _ => false) in
  let schema :=
    Curves.mkSchema 0 TimeSampling_default (fun _ => Curves.mkSample None None) in
  let moving := Xform.mkSchema 1 3 TimeSampling_default (fun t => M44d_fill t) in
  let top :=
    mkArchiveObject "/" Unsupported
      [mkArchiveObject "/a" (IXform moving) [mkArchiveObject "/a/h" (ICurves schema) []]] in
  let o := mkAlembicObject IObject_none [] [(0, M44d_identity); (5, M44d_identity)]
                           (CachedData_empty TimeSampling_default) false in
  let w := mkWalk [("/a/h"%string, o); ("/b"%string, o)] 0 in
  Forall (fun po => SampleMap.sorted (xform_samples (snd po)) = true) (objects w) /\
  (forall imath : Imath,
      map (fun po => map fst (xform_samples (snd po)))
          (objects (load_objects top progress w)) = [[0; 1; 2]; [0; 5]] /\
      Forall (fun po => SampleMap.sorted (xform_samples (snd po)) = true)
             (objects (load_objects top progress w))).
Proof.
  cbv zeta.
  match goal with |- ?P /\ _ => assert (H : P) by (repeat constructor) end.
  split; [exact H|]. intros imath. split; [reflexivity|].
  match goal with |- Forall _ (objects (load_objects ?top ?pr ?w)) =>
    exact (proj1 (@load_objects_keeps_the_samples_sorted imath top pr w H))
  end.
Defined.

End HierarchySafety.

(** ** Faces of fewer than two corners *)

Section DegenerateFaces.
Local Open Scope Z_scope.






End DegenerateFaces.


